(** * DecisionTrees: a shallow embedding of [src/index.js]

    The development follows the source function by function: the splitter
    [divideSet], the label counter [uniqueCounts], the impurity metrics
    [entropy], [gini] and [variance], the builder [growDecisionTreeFrom], the
    pruner [prune] and the two classifiers behind [classify].

    Modelling conventions.
    - A JavaScript number is an IEEE 754 binary64 value: Rocq's primitive
      [float], with the same rounding, infinities and NaN.
    - An array length or a label count is a natural number.  JavaScript arrays
      hold fewer than 2^32 elements, and every integer below 2^53 is a double,
      so the conversions [ofNat] and [ofCount] are exact on everything the
      program can build.
    - A cell is one of the JavaScript values the program handles: a number, a
      string, [null] or [undefined] (what an out-of-range index reads).
    - A plain object used as a map is a list of (key, value) pairs kept in
      JavaScript's own-property order (array-index keys ascending, then the
      other keys in insertion order), because [for ... in] and
      [Object.entries] walk it in that order and float sums depend on it.
      Two property names are special on an object created by [{}], and the
      model follows them: an assignment to [__proto__] goes to the setter
      inherited from [Object.prototype], which ignores a number, and a call
      [o.hasOwnProperty(k)] finds an own property [hasOwnProperty] first,
      which holds a number here and cannot be called.
    - [undefined] and [null] child references are both [None]: the program
      only tests them for truthiness or dereferences them.
    - An exception is a value of [exn]; a function that can throw returns a
      [result].
    - [Number::toString], [StringToNumber] and [Math.log2] belong to the
      JavaScript host, not to the repository: they are Section variables, so
      every theorem below holds whatever they compute.  So is the order in
      which [Array.prototype.sort] leaves values that its comparator does not
      order consistently, which ECMAScript leaves to the engine. *)

From Stdlib Require Import String Ascii.
From Stdlib Require Import ZArith NArith List Bool Floats Lia Permutation Sorted.
From Stdlib Require Uint63.
Import ListNotations.

Set Warnings "-inexact-float".
Local Open Scope float_scope.

(** ** Numbers *)

(** [rows.length] as a JavaScript number. *)
Definition ofNat (n : nat) : float := of_uint63 (Uint63.of_Z (Z.of_nat n)).

(** A label count as a JavaScript number. *)
Definition ofCount (c : N) : float := of_uint63 (Uint63.of_Z (Z.of_N c)).

(** [a > b] on numbers: false as soon as one side is NaN. *)
Definition gtb (a b : float) : bool := b <? a.

(** The order of the numbers that are not NaN, read off their IEEE
    representation: the sign class first, then exponent and mantissa.  The two
    zeros share a rank. *)
Definition rank (x : spec_float) : Z * (Z * Z) :=
  match x with
  | S754_nan => (0, (0, 0))%Z
  | S754_zero _ => (0, (0, 0))%Z
  | S754_infinity true => (-2, (0, 0))%Z
  | S754_infinity false => (2, (0, 0))%Z
  | S754_finite true m e => (-1, (- e, - Zpos m))%Z
  | S754_finite false m e => (1, (e, Zpos m))%Z
  end.

Definition lexLt (a b : Z * (Z * Z)) : Prop :=
  (fst a < fst b \/
   (fst a = fst b /\
    (fst (snd a) < fst (snd b) \/
     (fst (snd a) = fst (snd b) /\ snd (snd a) < snd (snd b)))))%Z.

(** The least exponent of a double, and a signed mantissa brought to the
    exponent [ez], as subtraction aligns its operands. *)
Definition emin64 : Z := (-1074)%Z.

Definition aligned (s : bool) (m : positive) (e ez : Z) : Z :=
  cond_Zopp s (Zpos (fst (shl_align m e ez))).

(** ** Errors *)

Inductive exn : Type :=
| InvalidTargetType   (* Error('Cannot use variance function when the target column is a string.') *)
| InvalidMetric       (* Error('Something went wrong. Check the evaluation function: ...') *)
| TypeError.          (* a property read on undefined or null *)

Inductive result (A : Type) : Type :=
| OK (a : A)
| Throw (e : exn).
Arguments OK {A} a.
Arguments Throw {A} e.

Definition bind {A B : Type} (m : result A) (k : A -> result B) : result B :=
  match m with
  | OK a => k a
  | Throw e => Throw e
  end.

Notation "'let*' x ':=' m 'in' k" := (bind m (fun x => k))
  (at level 10, x pattern, m at level 100, k at level 200).

(** ** Cells and rows *)

Inductive cell : Type :=
| Num (x : float)
| Str (s : string)
| Null
| Undefined.

Definition row : Type := list cell.

(** [row[i]]: an index past the end reads [undefined]. *)
Definition at_ (r : row) (i : nat) : cell := nth i r Undefined.

(** [row[row.length - 1]], the target cell; on an empty row the index is -1
    and the read gives [undefined]. *)
Definition target (r : row) : cell :=
  match r with
  | [] => Undefined
  | _ => at_ r (length r - 1)
  end.

(** [isNumber(n)]: [typeof n === 'number' && !Number.isNaN(n)]. *)
Definition isNumber (n : cell) : bool :=
  match n with
  | Num x => negb (PrimFloat.is_nan x)
  | _ => false
  end.

(** JavaScript truthiness, as [if (...)] reads a cell. *)
Definition truthy (v : cell) : bool :=
  match v with
  | Num x => negb (PrimFloat.is_nan x || PrimFloat.is_zero x)
  | Str s => negb (String.eqb s EmptyString)
  | Null | Undefined => false
  end.

(** [a === b]. *)
Definition strictEq (a b : cell) : bool :=
  match a, b with
  | Num x, Num y => x =? y
  | Str s, Str t => String.eqb s t
  | Null, Null => true
  | Undefined, Undefined => true
  | _, _ => false
  end.

(** SameValueZero, the equality of [Set]: like [===] but NaN equals NaN. *)
Definition sameValueZero (a b : cell) : bool :=
  match a, b with
  | Num x, Num y => (x =? y) || (PrimFloat.is_nan x && PrimFloat.is_nan y)
  | _, _ => strictEq a b
  end.

(** ** Plain objects as ordered maps *)

Definition object (V : Type) : Type := list (string * V).

Definition isDigit (c : ascii) : bool :=
  let n := nat_of_ascii c in (48 <=? n)%nat && (n <=? 57)%nat.

Fixpoint digitsValue (acc : N) (s : string) : N :=
  match s with
  | EmptyString => acc
  | String c s' => digitsValue (10 * acc + N.of_nat (nat_of_ascii c - 48)) s'
  end.

Fixpoint allDigits (s : string) : bool :=
  match s with
  | EmptyString => true
  | String c s' => isDigit c && allDigits s'
  end.

(** A key is an array index when it is the canonical decimal spelling of an
    integer below 2^32 - 1. *)
Definition arrayIndex (k : string) : option N :=
  match k with
  | EmptyString => None
  | String c rest =>
      if allDigits k
         && (negb (Ascii.eqb c "0"%char) || String.eqb rest EmptyString)
         && (String.length k <=? 10)%nat
         && (digitsValue 0 k <? 4294967295)%N
      then Some (digitsValue 0 k)
      else None
  end.

Section Objects.
Context {V : Type}.

(** The own property [k] of [o]. *)
Fixpoint get (k : string) (o : object V) : option V :=
  match o with
  | [] => None
  | (k', v) :: o' => if String.eqb k k' then Some v else get k o'
  end.

(** Whether [k] is an own property of [o]: what the method
    [Object.prototype.hasOwnProperty] answers. *)
Definition hasOwnProperty (k : string) (o : object V) : bool :=
  match get k o with
  | Some _ => true
  | None => false
  end.

(** Assignment to a property the object already has: the value changes, the
    place in the order does not. *)
Fixpoint update (k : string) (v : V) (o : object V) : object V :=
  match o with
  | [] => []
  | (k', v') :: o' =>
      if String.eqb k k' then (k, v) :: o' else (k', v') :: update k v o'
  end.

(** A new array-index key goes before the first key that is a larger index or
    no index at all. *)
Fixpoint insertIndex (i : N) (k : string) (v : V) (o : object V) : object V :=
  match o with
  | [] => [(k, v)]
  | (k', v') :: o' =>
      match arrayIndex k' with
      | Some j => if (j <? i)%N then (k', v') :: insertIndex i k v o'
                  else (k, v) :: o
      | None => (k, v) :: o
      end
  end.

(** Writing the own property [k]: it is updated in place, or created at its
    place in the order. *)
Definition set (k : string) (v : V) (o : object V) : object V :=
  if hasOwnProperty k o then update k v o
  else match arrayIndex k with
       | Some i => insertIndex i k v o
       | None => o ++ [(k, v)]
       end.

(** [o.hasOwnProperty(k)], the call.  The method is looked up on [o] first:
    an own property named [hasOwnProperty] hides the one of
    [Object.prototype], and the values of these objects are numbers, which
    cannot be called. *)
Definition callHasOwnProperty (k : string) (o : object V) : result bool :=
  if hasOwnProperty "hasOwnProperty" o then Throw TypeError
  else OK (hasOwnProperty k o).

(** [o[k] = v] for a number [v].  Under the name [__proto__], and unless [o]
    has an own property of that name, the assignment reaches the setter of
    [Object.prototype], which ignores a value that is neither an object nor
    [null]: nothing is stored. *)
Definition assign (k : string) (v : V) (o : object V) : object V :=
  if String.eqb k "__proto__" && negb (hasOwnProperty k o) then o
  else set k v o.

(** [Object.values(o)] *)
Definition values (o : object V) : list V := map snd o.

(** [Object.keys(o)] *)
Definition keys (o : object V) : list string := map fst o.

End Objects.

(** The total of a count distribution. *)
Definition totalCount (o : object N) : N := fold_right N.add 0%N (values o).

(** ** Tree nodes *)

(** The string [x.toPrecision(digits)], kept as the call that produces it. *)
Inductive formatted : Type :=
| toPrecision (digits : nat) (x : float).

(** [summary]: the empty object [{}] of the constructor's default has neither
    field; the builder's [dcY] has both. *)
Record Summary : Type := mkSummary {
  impurity : option formatted;
  samples : option nat
}.

Definition emptySummary : Summary := {| impurity := None; samples := None |}.

Scheme All for option.

(** [class DecisionTree]: every node has the six fields. *)
Inductive DecisionTree : Type := mkDecisionTree {
  col : Z;
  value : cell;
  trueBranch : option DecisionTree;
  falseBranch : option DecisionTree;
  results : option (object N);
  summary : Summary
}.

(** What the default [value = null] stores: a default also replaces a
    property that is there and holds [undefined]. *)
Definition stored (value : cell) : cell :=
  match value with
  | Undefined => Null
  | _ => value
  end.

(** The constructor with its destructuring defaults:
    [{ col = -1, value = null, trueBranch, falseBranch, results = null, summary = {} } = {}]. *)
Definition newDecisionTree (col : option Z) (value : option cell)
    (trueBranch falseBranch : option DecisionTree)
    (results : option (object N)) (summary : option Summary) : DecisionTree :=
  {| col := match col with Some c => c | None => (-1)%Z end;
     value := match value with Some v => stored v | None => Null end;
     trueBranch := trueBranch;
     falseBranch := falseBranch;
     results := results;
     summary := match summary with Some s => s | None => emptySummary end |}.

(** [new DecisionTree], with no argument at all. *)
Definition emptyDecisionTree : DecisionTree :=
  newDecisionTree None None None None None None.

(** The number of nodes, used as a measure. *)
Fixpoint size (t : DecisionTree) : nat :=
  match t with
  | mkDecisionTree _ _ tb fb _ _ =>
      S (match tb with Some b => size b | None => 0 end
         + match fb with Some b => size b | None => 0 end)
  end.

(** ** The engine *)

(** What the program takes from the engine's sort where ECMAScript does not
    fix its result: for the values handed to it, the places at which it
    leaves them (see [sort]). *)
Record Engine : Type := mkEngine {
  placesOf : list cell -> list nat
}.

(** ** Example data *)

(** The dataset of the specification's end-to-end example. *)
Definition exampleRows : list row :=
  [[Num 1; Str "A"]; [Num 2; Str "A"]; [Num 3; Str "B"]; [Num 4; Str "B"]].

(** A leaf as the builder makes it. *)
Definition leafNode (r : object N) (score : float) (n : nat) : DecisionTree :=
  {| col := -1; value := Null; trueBranch := None; falseBranch := None;
     results := Some r;
     summary := {| impurity := Some (toPrecision 3 score); samples := Some n |} |}.

(** An internal node as the builder makes it. *)
Definition internalNode (c : Z) (v : cell) (tb fb : DecisionTree)
    (score : float) (n : nat) : DecisionTree :=
  {| col := c; value := v; trueBranch := Some tb; falseBranch := Some fb;
     results := None;
     summary := {| impurity := Some (toPrecision 3 score); samples := Some n |} |}.

(** The tree the example expects: [column 0 >= 3], then [{B: 2}] or [{A: 2}]. *)
Definition exampleTree : DecisionTree :=
  internalNode 0 (Num 3)
    (leafNode [("B"%string, 2%N)] 0 2)
    (leafNode [("A"%string, 2%N)] 0 2)
    0.5 4.

(** A column of strings met in the order "b", "a". *)
Definition stringRows : list row :=
  [[Str "b"; Str "X"]; [Str "a"; Str "Y"]].

Definition stringTree : DecisionTree :=
  internalNode 0 (Str "b")
    (leafNode [("X"%string, 1%N)] 0 1)
    (leafNode [("Y"%string, 1%N)] 0 1)
    0.5 2.



(** Two numeric targets whose squared deviations overflow. *)
Definition hugeRows : list row :=
  [[Num 0; Num 1e200]; [Num 1; Num (-1e200)]].

Definition hugeTree : DecisionTree :=
  internalNode 0 (Num 1)
    (leafNode [("-1e+200"%string, 1%N)] 0 1)
    (leafNode [("1e+200"%string, 1%N)] 0 1)
    infinity 2.

(** A host for the closed examples: [Number::toString] on the two numbers
    the examples turn into keys (they meet no other), and [StringToNumber]
    on the strings the examples hold, none of which spells a number. *)
Definition exampleNumberToString (x : float) : string :=
  if x =? 1e200 then "1e+200"%string
  else if x =? -1e200 then "-1e+200"%string
  else EmptyString.

Definition exampleStringToNumber (s : string) : float := nan.

(** Two rows that agree on their one feature and differ on the label. *)
Definition twinRows : list row :=
  [[Num 1; Str "A"]; [Num 1; Str "B"]].

(** Two rows with one label. *)
Definition pureRows : list row :=
  [[Num 1; Str "A"]; [Num 2; Str "A"]].

(** A stand-in for [Math.log2] in the closed examples: right at 1, the only
    argument they reach. *)
Definition exampleLog2 (x : float) : float :=
  if x =? 1 then 0 else nan.

(** One row, labelled [__proto__]. *)
Definition protoRows : list row := [[Num 1; Str "__proto__"]].

Definition protoTree : DecisionTree := leafNode [] 0 1.


(** Where the engine has a choice, the examples never get: any order will do
    as its stand-in. *)
Definition exampleEngine : Engine := mkEngine (fun _ => []).




(** Two rows, the second labelled [hasOwnProperty], and the tree they grow:
    [column 0 >= 2], then [{hasOwnProperty: 1}] or [{A: 1}]. *)
Definition shadowRows : list row :=
  [[Num 1; Str "A"]; [Num 2; Str "hasOwnProperty"]].

Definition shadowTree : DecisionTree :=
  internalNode 0 (Num 2)
    (leafNode [("hasOwnProperty"%string, 1%N)] 0 1)
    (leafNode [("A"%string, 1%N)] 0 1)
    0.5 2.

(** A column that holds [undefined] before two strings. *)
Definition holeRows : list row :=
  [[Undefined; Str "A"]; [Str "x"; Str "B"]; [Str "y"; Str "B"]].

(** The tree they grow with Gini: the split on [undefined] is stored as
    [null]. *)
Definition holeTree : DecisionTree :=
  internalNode 0 Null
    (leafNode [("A"%string, 1%N)] 0 1)
    (leafNode [("B"%string, 2%N)] 0 2)
    0.44444444444444442 3.

(** ** The program *)

Section Host.

#[local] Set Default Proof Using "Type".

(** [Number::toString] and [StringToNumber] (what [Number(s)] and the
    arithmetic operators apply to a string). *)
Variable numberToString : float -> string.
Variable stringToNumber : string -> float.

(** The engine that runs the program. *)
Variable engine : Engine.

(** ToNumber *)
Definition toNumber (v : cell) : float :=
  match v with
  | Num x => x
  | Str s => stringToNumber s
  | Null => 0
  | Undefined => nan
  end.

(** ToString, which also turns a cell into a property key. *)
Definition toString (v : cell) : string :=
  match v with
  | Num x => numberToString x
  | Str s => s
  | Null => "null"%string
  | Undefined => "undefined"%string
  end.

(** [a >= b] when one side at least is a number, the only way the source
    uses it: both sides go through ToNumber, and NaN makes it false. *)
Definition geq (a b : cell) : bool := toNumber b <=? toNumber a.

(** [a + b]: concatenation as soon as one side is a string. *)
Definition plus (a b : cell) : cell :=
  match a, b with
  | Str _, _ | _, Str _ => Str (toString a ++ toString b)
  | _, _ => Num (toNumber a + toNumber b)
  end.

(** [x ** 2], taken as the correctly rounded square. *)
Definition square (x : float) : float := x * x.

(** *** divideSet *)

Definition splittingFunction (column : nat) (value : cell) : row -> bool :=
  if isNumber value
  then fun row => geq (at_ row column) value
  else fun row => strictEq (at_ row column) value.

Definition divideSet (rows : list row) (column : nat) (value : cell)
  : list row * list row :=
  let list1 := filter (fun row => splittingFunction column value row) rows in
  let list2 := filter (fun row => negb (splittingFunction column value row)) rows in
  (list1, list2).

(** A [for] loop whose body may throw. *)
Fixpoint forEach {S A : Type} (body : S -> A -> result S) (l : list A) (s : S)
  : result S :=
  match l with
  | [] => OK s
  | x :: l' => let* s' := body s x in forEach body l' s'
  end.

(** *** uniqueCounts *)

(** The body of the loop.  [results[r] += 1] reads the count just stored;
    under the name [__proto__] nothing was stored, the read gives
    [Object.prototype], the sum is a string and the assignment is ignored. *)
Definition countRow (results : object N) (row : row) : result (object N) :=
  let r := toString (target row) in
  let* has := callHasOwnProperty r results in
  let results := if negb has then assign r 0%N results else results in
  match get r results with
  | Some c => OK (assign r (c + 1)%N results)
  | None => OK results
  end.

Definition uniqueCounts (rows : list row) : result (object N) :=
  forEach countRow rows [].

(** *** entropy *)

Section Entropy.

(** [Math.log2] *)
Variable log2 : float -> float.

Definition entropy (rows : list row) : result float :=
  let* results := uniqueCounts rows in
  OK (fold_left
        (fun entr '(_, c) =>
           let p := ofCount c / ofNat (length rows) in
           entr - p * log2 p)
        results 0).

End Entropy.

(** *** gini *)

Definition gini (rows : list row) : result float :=
  let total := ofNat (length rows) in
  let* counts := uniqueCounts rows in
  OK (fold_left
        (fun imp '(k1, c1) =>
           let p1 := ofCount c1 / total in
           fold_left
             (fun imp '(k2, c2) =>
                if String.eqb k1 k2 then imp
                else let p2 := ofCount c2 / total in imp + p1 * p2)
             counts imp)
        counts 0).

(** *** sum *)

Definition sum (array : list cell) : cell :=
  fold_left (fun acc value => plus acc value) array (Num 0).

(** *** variance *)

Definition variance (rows : list row) : result float :=
  if (length rows =? 0)%nat then OK 0
  else
    let data := map target rows in
    if match find (fun p => negb (isNumber p)) data with
       | Some p => truthy p
       | None => false
       end
    then Throw InvalidTargetType
    else
      let mean := toNumber (sum data) / ofNat (length data) in
      OK (toNumber (sum (map (fun d => Num (square (toNumber d - mean))) data))
          / ofNat (length data)).

(** The metrics as the builder and the pruner take them. *)
Definition metric : Type := list row -> result float.

Definition ENTROPY (log2 : float -> float) : metric := entropy log2.
Definition GINI : metric := gini.
Definition VARIANCE : metric := variance.

(** *** growDecisionTreeFrom *)

(** [new Set(columnValues)]: the first occurrence of each value under
    SameValueZero, in order of first occurrence; a set stores -0 as +0. *)
Definition setValue (v : cell) : cell :=
  match v with
  | Num x => if PrimFloat.is_zero x then Num 0 else v
  | _ => v
  end.

Fixpoint setFrom (seen : list cell) (l : list cell) : list cell :=
  match l with
  | [] => []
  | x :: l' =>
      if existsb (sameValueZero x) seen then setFrom seen l'
      else setValue x :: setFrom (x :: seen) l'
  end.

(** The comparator [(a, b) => a - b]. *)
Definition comparefn (a b : cell) : float := toNumber a - toNumber b.

(** [a] sorts strictly before [b]: [sort] puts every [undefined] last without
    asking the comparator, and reads a NaN answer as 0. *)
Definition sortsBefore (a b : cell) : bool :=
  match a, b with
  | Undefined, _ => false
  | _, Undefined => true
  | _, _ => comparefn a b <? 0
  end.

(** A stable sort: an element stays behind the earlier elements it does not
    sort strictly before. *)
Fixpoint insert (x : cell) (l : list cell) : list cell :=
  match l with
  | [] => [x]
  | y :: l' => if sortsBefore y x then y :: insert x l' else x :: y :: l'
  end.

Definition stableSort (l : list cell) : list cell := fold_right insert [] l.

(** The comparator is an order on the values of [l], [undefined] apart, in
    three cases: their numbers are all NaN (every difference is NaN, read as
    0: all values are equal), none is NaN (a difference is negative exactly
    when the first number is the smaller), or no difference is positive or
    negative, as for one number among strings that spell none.  In any other
    case some number is NaN and two others differ: the comparator makes both
    equal to the first and not to each other. *)
Definition isUndefined (v : cell) : bool :=
  match v with
  | Undefined => true
  | _ => false
  end.

Definition level (a b : cell) : bool :=
  negb (comparefn a b <? 0) && negb (0 <? comparefn a b).

Definition consistent (l : list cell) : bool :=
  let defined := filter (fun v => negb (isUndefined v)) l in
  let numbers := map toNumber defined in
  forallb PrimFloat.is_nan numbers
  || forallb (fun x => negb (PrimFloat.is_nan x)) numbers
  || forallb (fun a => forallb (level a) defined) defined.

(** Any order of [l]: each value is put at its place among those after it. *)
Fixpoint insertAt (place : nat) (x : cell) (l : list cell) : list cell :=
  match place, l with
  | S place', y :: l' => y :: insertAt place' x l'
  | _, _ => x :: l
  end.

Fixpoint arrange (places : list nat) (l : list cell) : list cell :=
  match l with
  | [] => []
  | x :: l' => insertAt (hd 0%nat places) x (arrange (tl places) l')
  end.

(** [Array.prototype.sort] with the comparator [(a, b) => a - b].  The sort
    is stable, so its result is fixed wherever the comparator is an order.
    Where it is not, as on a column that mixes several numbers with strings
    that spell none, ECMAScript leaves the order to the engine: the result
    is the arrangement the engine chooses. *)
Definition sort (l : list cell) : list cell :=
  if consistent l then stableSort l else arrange (placesOf engine l) l.

(** [lsUnique] for column [col]. *)
Definition lsUnique (rows : list row) (col : nat) : list cell :=
  let columnValues := map (fun row => at_ row col) rows in
  sort (setFrom [] columnValues).

(** [rows[0].length - 1]; a negative count runs no iteration, like 0. *)
Definition columnCount (rows : list row) : nat :=
  match rows with
  | [] => 0
  | row0 :: _ => length row0 - 1
  end.

(** The three variables the search updates together. *)
Record Best : Type := mkBest {
  bestGain : float;
  bestAttribute : option (nat * cell);
  bestSets : option (list row * list row)
}.

Definition noBest : Best :=
  {| bestGain := 0; bestAttribute := None; bestSets := None |}.

Section Grow.
Variable evaluationFunction : metric.

(** [gain] of the candidate [(col, value)] over [rows]. *)
Definition gainOf (rows : list row) (currentScore : float) (col : nat) (value : cell)
  : result float :=
  let '(set1, set2) := divideSet rows col value in
  let p := ofNat (length set1) / ofNat (length rows) in
  let* score1 := evaluationFunction set1 in
  let* score2 := evaluationFunction set2 in
  OK (currentScore - (p * score1) - (1 - p) * score2).

(** The body of the inner loop. *)
Definition tryValue (rows : list row) (currentScore : float) (col : nat)
    (best : Best) (value : cell) : result Best :=
  let '(set1, set2) := divideSet rows col value in
  let* gain := gainOf rows currentScore col value in
  if gtb gain (bestGain best)
     && negb (length set1 =? 0)%nat && negb (length set2 =? 0)%nat
  then OK {| bestGain := gain;
             bestAttribute := Some (col, value);
             bestSets := Some (set1, set2) |}
  else OK best.

(** The body of the outer loop. *)
Definition tryColumn (rows : list row) (currentScore : float)
    (best : Best) (col : nat) : result Best :=
  forEach (tryValue rows currentScore col) (lsUnique rows col) best.

Definition searchBest (rows : list row) (currentScore : float) : result Best :=
  forEach (tryColumn rows currentScore) (seq 0 (columnCount rows)) noBest.

(** The recursion is on row sets that shrink; [fuel] bounds its depth, and
    [None] means the bound was reached.  [growDecisionTreeFrom] gives as much
    fuel as there are rows, which is always enough ([growFrom_enough]). *)
Fixpoint growFrom (fuel : nat) (rows : list row) : option (result DecisionTree) :=
  match rows with
  | [] => Some (OK emptyDecisionTree)
  | _ :: _ =>
      match fuel with
      | O => None
      | S fuel' =>
          match evaluationFunction rows with
          | Throw e => Some (Throw e)
          | OK currentScore =>
              if PrimFloat.is_nan currentScore then Some (Throw InvalidMetric)
              else
                match searchBest rows currentScore with
                | Throw e => Some (Throw e)
                | OK best =>
                    let dcY := {| impurity := Some (toPrecision 3 currentScore);
                                  samples := Some (length rows) |} in
                    if gtb (bestGain best) 0 then
                      match bestAttribute best, bestSets best with
                      | Some (c, v), Some (set1, set2) =>
                          match growFrom fuel' set1 with
                          | None => None
                          | Some (Throw e) => Some (Throw e)
                          | Some (OK tb) =>
                              match growFrom fuel' set2 with
                              | None => None
                              | Some (Throw e) => Some (Throw e)
                              | Some (OK fb) =>
                                  Some (OK (newDecisionTree
                                              (Some (Z.of_nat c)) (Some v)
                                              (Some tb) (Some fb) None (Some dcY)))
                              end
                          end
                      | _, _ => Some (Throw TypeError)
                      end
                    else
                      match uniqueCounts rows with
                      | Throw e => Some (Throw e)
                      | OK counts =>
                          Some (OK (newDecisionTree None None None None
                                      (Some counts) (Some dcY)))
                      end
                end
          end
      end
  end.

Definition growDecisionTreeFrom (rows : list row) : option (result DecisionTree) :=
  growFrom (length rows) rows.

End Grow.

(** *** prune *)

(** The pseudo-rows of a leaf: [count] one-cell rows [[v]] for every entry
    [(v, count)] of [Object.entries(results)]. *)
Definition pseudoRows (results : object N) : list row :=
  flat_map (fun '(v, c) => repeat [Str v] (N.to_nat c)) results.

(** [prune] mutates the tree in place and returns nothing, and a mutation
    made before an exception stays.  The model returns what the call leaves
    behind: the tree as mutated so far, the gains that [notify] logged, and
    the exception when the call threw.  A collapse writes [null] to the two
    branches before it calls [uniqueCounts]: when that call throws, the
    branches are gone and [results] is what it was. *)
Record Pruned : Type := mkPruned {
  after : DecisionTree;
  logged : list float;
  thrown : option exn
}.

(** [delta], from the pseudo-rows of the two leaves.  The sum of the two
    lengths is a sum of natural numbers. *)
Definition pruneDelta (evaluationFunction : metric) (tb fb : list row)
  : result float :=
  let p := ofNat (length tb) / ofNat (length tb + length fb) in
  let* scoreAll := evaluationFunction (tb ++ fb) in
  let* scoreT := evaluationFunction tb in
  let* scoreF := evaluationFunction fb in
  OK (scoreAll - p * scoreT - (1 - p) * scoreF).

Fixpoint prune (tree : DecisionTree) (minGain : float)
    (evaluationFunction : metric) (notify : bool) {struct tree} : Pruned :=
  match tree with
  | mkDecisionTree c v trueBranch falseBranch r s =>
      match trueBranch with
      | None => mkPruned tree [] (Some TypeError)
      | Some tbNode =>
          let call1 :=
            match results tbNode with
            | None => prune tbNode minGain evaluationFunction notify
            | Some _ => mkPruned tbNode [] None
            end in
          let tbNode := after call1 in
          match thrown call1 with
          | Some e =>
              mkPruned (mkDecisionTree c v (Some tbNode) falseBranch r s)
                       (logged call1) (Some e)
          | None =>
              match falseBranch with
              | None =>
                  mkPruned (mkDecisionTree c v (Some tbNode) None r s)
                           (logged call1) (Some TypeError)
              | Some fbNode =>
                  let call2 :=
                    match results fbNode with
                    | None => prune fbNode minGain evaluationFunction notify
                    | Some _ => mkPruned fbNode [] None
                    end in
                  let fbNode := after call2 in
                  let log := logged call1 ++ logged call2 in
                  let unchanged :=
                    mkDecisionTree c v (Some tbNode) (Some fbNode) r s in
                  match thrown call2 with
                  | Some e => mkPruned unchanged log (Some e)
                  | None =>
                      match results tbNode, results fbNode with
                      | Some tResults, Some fResults =>
                          let tb := pseudoRows tResults in
                          let fb := pseudoRows fResults in
                          match pruneDelta evaluationFunction tb fb with
                          | Throw e => mkPruned unchanged log (Some e)
                          | OK delta =>
                              if delta <? minGain then
                                let log := log ++ (if notify then [delta] else []) in
                                match uniqueCounts (tb ++ fb) with
                                | OK counts =>
                                    mkPruned
                                      (mkDecisionTree c v None None (Some counts) s)
                                      log None
                                | Throw e =>
                                    mkPruned (mkDecisionTree c v None None r s)
                                             log (Some e)
                                end
                              else mkPruned unchanged log None
                          end
                      | _, _ => mkPruned unchanged log None
                      end
                  end
              end
          end
      end
  end.

(** *** classify *)

(** [observations[tree.col]]; the default [col] of a leaf is -1. *)
Definition observed (observations : row) (c : Z) : cell :=
  if (c <? 0)%Z then Undefined else at_ observations (Z.to_nat c).

(** The counts of a leaf, read as the numbers they are. *)
Definition distribution (r : object N) : object float :=
  map (fun '(k, c) => (k, ofCount c)) r.


Fixpoint classifyWithoutMissingData (observations : row) (tree : DecisionTree)
  : result (object float) :=
  match tree with
  | mkDecisionTree c value trueBranch falseBranch r _ =>
      match r with
      | Some r => OK (distribution r)
      | None =>
          let v := observed observations c in
          let branch :=
            if isNumber v then
              if geq v value then trueBranch else falseBranch
            else
              if strictEq v value then trueBranch else falseBranch in
          match branch with
          | None => Throw TypeError
          | Some branch => classifyWithoutMissingData observations branch
          end
      end
  end.

(** The body of the two loops that fill [result]: an entry adds its weight
    times [w] to its label.  As in [uniqueCounts], nothing is stored under
    the name [__proto__]. *)
Definition addEntry (w : float)
  : object float -> string * float -> result (object float) :=
  fun result '(k, v) =>
    let* has := callHasOwnProperty k result in
    let result := if negb has then assign k 0 result else result in
    match get k result with
    | Some old => OK (assign k (old + v * w) result)
    | None => OK result
    end.

Definition addWeighted (w : float) (entries : object float)
  : object float -> result (object float) :=
  fun result => forEach (addEntry w) entries result.

(** [sum(Object.values(o))] of a distribution. *)
Definition total (o : object float) : float :=
  toNumber (sum (map Num (values o))).

Definition merge (tr fr : object float) : result (object float) :=
  let tCount := total tr in
  let fCount := total fr in
  let tw := tCount / (tCount + fCount) in
  let fw := fCount / (tCount + fCount) in
  let* result := addWeighted tw tr [] in
  addWeighted fw fr result.

Fixpoint classifyWithMissingData (observations : row) (tree : DecisionTree)
  : result (object float) :=
  match tree with
  | mkDecisionTree c value trueBranch falseBranch r _ =>
      match r with
      | Some r => OK (distribution r)
      | None =>
          let v := observed observations c in
          if strictEq v Null then
            match trueBranch with
            | None => Throw TypeError
            | Some tb =>
                let* tr := classifyWithMissingData observations tb in
                match falseBranch with
                | None => Throw TypeError
                | Some fb =>
                    let* fr := classifyWithMissingData observations fb in
                    merge tr fr
                end
            end
          else
            let branch :=
              if isNumber v then
                if geq v value then trueBranch else falseBranch
              else
                if strictEq v value then trueBranch else falseBranch in
            match branch with
            | None => Throw TypeError
            | Some branch => classifyWithMissingData observations branch
            end
      end
  end.

Definition classify (observations : row) (tree : DecisionTree) (dataMissing : bool)
  : result (object float) :=
  if dataMissing then classifyWithMissingData observations tree
  else classifyWithoutMissingData observations tree.

(** *** plot *)

Definition tab : string := String (ascii_of_nat 9) EmptyString.
Definition newline : string := String (ascii_of_nat 10) EmptyString.

(** [tree.col] as the number it is. *)
Definition colNumber (c : Z) : float :=
  if (c <? 0)%Z then - ofNat (Z.to_nat (- c)) else ofNat (Z.to_nat c).

(** [lsX.sort((a, b) => a[0] - b[0])]: the same stable sort, on the entries
    of a results object, compared by their keys. *)
Fixpoint insertEntry (x : string * N) (l : list (string * N)) : list (string * N) :=
  match l with
  | [] => [x]
  | y :: l' =>
      if comparefn (Str (fst y)) (Str (fst x)) <? 0 then y :: insertEntry x l'
      else x :: y :: l'
  end.

Definition sortEntries (l : list (string * N)) : list (string * N) :=
  fold_right insertEntry [] l.

(** [array.join(separator)] on strings. *)
Definition join (separator : string) (l : list string) : string :=
  match l with
  | [] => EmptyString
  | x :: l' => fold_left (fun acc y => (acc ++ separator ++ y)%string) l' x
  end.

(** [dcHeadings] maps column indices to heading strings: the array of
    headers of a CSV file, or the default [{}]. *)
Fixpoint plot (decisionTree : DecisionTree) (dcHeadings : object string)
    (indent : string) {struct decisionTree} : result string :=
  match decisionTree with
  | mkDecisionTree c value trueBranch falseBranch r _ =>
      match r with
      | Some r =>
          let lsX := sortEntries r in
          let szY :=
            join ", "
              (map (fun '(x, y) => "(" ++ x ++ ": " ++ numberToString (ofCount y) ++ ")")
                   lsX) in
          OK szY
      | None =>
          let key := numberToString (colNumber c) in
          let szCol :=
            match get key dcHeadings with
            | Some heading => heading
            | None => "Column " ++ key
            end in
          let decision :=
            if isNumber value then szCol ++ " >= " ++ toString value
            else szCol ++ " == " ++ toString value ++ "?" in
          match trueBranch with
          | None => Throw TypeError
          | Some tb =>
              let* yes := plot tb dcHeadings (indent ++ tab ++ tab) in
              match falseBranch with
              | None => Throw TypeError
              | Some fb =>
                  let* no := plot fb dcHeadings (indent ++ tab ++ tab) in
                  OK (decision ++ newline ++ (indent ++ "yes -> " ++ yes)
                      ++ newline ++ (indent ++ "no -> " ++ no))
              end
          end
      end
  end%string.

(** ** Notions the statements use *)

(** The candidates [(col, value)] in the order the two loops visit them. *)
Definition candidates (rows : list row) : list (nat * cell) :=
  flat_map (fun col => map (fun value => (col, value)) (lsUnique rows col))
           (seq 0 (columnCount rows)).

(** [set1.length && set2.length] for a candidate. *)
Definition bothNonEmpty (rows : list row) (col : nat) (value : cell) : bool :=
  let '(set1, set2) := divideSet rows col value in
  negb (length set1 =? 0)%nat && negb (length set2 =? 0)%nat.


(** The two states of a node. *)
Definition isLeaf (t : DecisionTree) : Prop :=
  results t <> None /\ trueBranch t = None /\ falseBranch t = None.

Definition isInternal (t : DecisionTree) : Prop :=
  results t = None /\ trueBranch t <> None /\ falseBranch t <> None.

(** The invariant as the specification words it. *)
Definition twoState (t : DecisionTree) : Prop :=
  (results t <> None <-> trueBranch t = None /\ falseBranch t = None)
  /\ (trueBranch t <> None /\ falseBranch t <> None <-> results t = None).

(** In one of the two states, and not in the other. *)
Definition exactlyOneState (t : DecisionTree) : Prop :=
  (isLeaf t /\ ~ isInternal t) \/ (isInternal t /\ ~ isLeaf t).

(** A property of every node of a tree. *)
Fixpoint everyNode (P : DecisionTree -> Prop) (t : DecisionTree) : Prop :=
  P t
  /\ match t with
     | mkDecisionTree _ _ tb fb _ _ =>
         match tb with Some b => everyNode P b | None => True end
         /\ match fb with Some b => everyNode P b | None => True end
     end.

(** The counts stored in [results], summed over the tree. *)
Fixpoint leafTotal (t : DecisionTree) : N :=
  match t with
  | mkDecisionTree _ _ tb fb r _ =>
      (match r with Some r => totalCount r | None => 0 end
       + match tb with Some b => leafTotal b | None => 0 end
       + match fb with Some b => leafTotal b | None => 0 end)%N
  end.

(** A property of the split of every node that has two children, together
    with the rows that reach the node.  The split is a candidate
    [(column, value)]: the node holds the column, and the value as the
    constructor stored it; the builder hands the two sides of the split to
    the two children. *)
Fixpoint everySplit (P : list row -> nat -> cell -> Prop)
    (rows : list row) (t : DecisionTree) : Prop :=
  match t with
  | mkDecisionTree c v (Some tb) (Some fb) _ _ =>
      exists (column : nat) (chosen : cell),
        c = Z.of_nat column
        /\ v = stored chosen
        /\ P rows column chosen
        /\ everySplit P (fst (divideSet rows column chosen)) tb
        /\ everySplit P (snd (divideSet rows column chosen)) fb
  | _ => True
  end.

(** The candidate [(c, v)] is the first best one over [rows]: its gain is
    positive, both sides are inhabited, no candidate with two inhabited sides
    has a larger gain, and none visited before it has an equal gain. *)
Definition firstBest (evaluationFunction : metric) (rows : list row)
    (c : nat) (v : cell) : Prop :=
  exists (currentScore g : float) (before later : list (nat * cell)),
    evaluationFunction rows = OK currentScore
    /\ gainOf evaluationFunction rows currentScore c v = OK g
    /\ gtb g 0 = true
    /\ bothNonEmpty rows c v = true
    /\ candidates rows = before ++ (c, v) :: later
    /\ (forall c' v' g',
          In (c', v') (candidates rows) ->
          bothNonEmpty rows c' v' = true ->
          gainOf evaluationFunction rows currentScore c' v' = OK g' ->
          gtb g' g = false)
    /\ (forall c' v' g',
          In (c', v') before ->
          bothNonEmpty rows c' v' = true ->
          gainOf evaluationFunction rows currentScore c' v' = OK g' ->
          (g' =? g) = false).

(** What [prune] does to a child before it looks at the pair: it recurses
    into a child that has no results and leaves the others alone. *)
Definition pruneChild (child : DecisionTree) (minGain : float)
    (evaluationFunction : metric) (notify : bool) : Pruned :=
  match results child with
  | None => prune child minGain evaluationFunction notify
  | Some _ => mkPruned child [] None
  end.

(** A metric that counts first: where it scores rows with a number, the
    labels of the rows can be counted.  [gini] and [entropy] call
    [uniqueCounts] before anything else. *)
Definition countsFirst (evaluationFunction : metric) : Prop :=
  forall rows score,
    evaluationFunction rows = OK score -> PrimFloat.is_nan score = false ->
    exists counts, uniqueCounts rows = OK counts.

(** One [prune] call on a tree: on its root, or on a node below it, which
    the call mutates in place.  The metric is one of those [allowed]; the
    other arguments are any, and the call may return or throw. *)
Inductive pruneCall (allowed : metric -> Prop) : DecisionTree -> DecisionTree -> Prop :=
| pruneRoot (t : DecisionTree) (minGain : float) (evaluationFunction : metric)
    (notify : bool) :
    allowed evaluationFunction ->
    pruneCall allowed t (after (prune t minGain evaluationFunction notify))
| pruneInTrue (c : Z) (v : cell) (tb tb' : DecisionTree)
    (fb : option DecisionTree) (r : option (object N)) (s : Summary) :
    pruneCall allowed tb tb' ->
    pruneCall allowed (mkDecisionTree c v (Some tb) fb r s)
                      (mkDecisionTree c v (Some tb') fb r s)
| pruneInFalse (c : Z) (v : cell) (tb : option DecisionTree)
    (fb fb' : DecisionTree) (r : option (object N)) (s : Summary) :
    pruneCall allowed fb fb' ->
    pruneCall allowed (mkDecisionTree c v tb (Some fb) r s)
                      (mkDecisionTree c v tb (Some fb') r s).

(** The trees that a sequence of [prune] calls can leave behind. *)
Inductive afterPrunes (allowed : metric -> Prop) (t : DecisionTree)
  : DecisionTree -> Prop :=
| afterNoPrune : afterPrunes allowed t t
| afterOnePrune (t' t'' : DecisionTree) :
    afterPrunes allowed t t' -> pruneCall allowed t' t'' ->
    afterPrunes allowed t t''.

(** The two names under which a plain object does not behave as a map. *)
Definition plainKey (k : string) : Prop :=
  k <> "hasOwnProperty"%string /\ k <> "__proto__"%string.

(** A results object whose labels are plain keys, each held once. *)
Definition plainResults (t : DecisionTree) : Prop :=
  forall r, results t = Some r ->
    NoDup (keys r) /\ forall k, In k (keys r) -> plainKey k.

(** Columns of one kind: numbers, or strings that spell no number. *)
Definition numericColumn (rows : list row) (col : nat) : Prop :=
  forall row, In row rows -> isNumber (at_ row col) = true.

Definition stringColumn (rows : list row) (col : nat) : Prop :=
  forall row, In row rows ->
    exists s, at_ row col = Str s /\ PrimFloat.is_nan (stringToNumber s) = true.

(** [a < b] between two numbers. *)
Definition numLt (a b : cell) : Prop :=
  match a, b with
  | Num x, Num y => (x <? y) = true
  | _, _ => False
  end.

(** Strictly ascending numbers. *)
Definition ascending (l : list cell) : Prop := StronglySorted numLt l.

(** What the three variables of the search mean once the candidates [done]
    are visited: every visited candidate had a gain, none with two inhabited
    sides beats [bestGain], and [bestAttribute] is the first to reach it. *)
Definition searched (evaluationFunction : metric) (rows : list row)
    (currentScore : float) (done : list (nat * cell)) (best : Best) : Prop :=
  let gain := gainOf evaluationFunction rows currentScore in
  (forall col value, In (col, value) done -> exists g, gain col value = OK g)
  /\ (forall col value g,
        In (col, value) done -> bothNonEmpty rows col value = true ->
        gain col value = OK g -> gtb g (bestGain best) = false)
  /\ match bestAttribute best with
     | None => bestGain best = 0 /\ bestSets best = None
     | Some (col, value) =>
         bestSets best = Some (divideSet rows col value)
         /\ gain col value = OK (bestGain best)
         /\ gtb (bestGain best) 0 = true
         /\ bothNonEmpty rows col value = true
         /\ exists before later,
             done = before ++ (col, value) :: later
             /\ forall col' value' g',
                 In (col', value') before ->
                 bothNonEmpty rows col' value' = true ->
                 gain col' value' = OK g' ->
                 (g' =? bestGain best) = false
     end.

(** The summary the builder attaches to a node. *)
Definition dcY (currentScore : float) (rows : list row) : Summary :=
  {| impurity := Some (toPrecision 3 currentScore);
     samples := Some (length rows) |}.

(** One level of the builder, read backwards from a tree it returned with
    [fuel] left for the children. *)
Inductive Grown (evaluationFunction : metric) (fuel : nat) (rows : list row)
    (t : DecisionTree) : Prop :=
| GrownEmpty :
    rows = [] -> t = emptyDecisionTree -> Grown evaluationFunction fuel rows t
| GrownLeaf (currentScore : float) (best : Best) (counts : object N) :
    rows <> [] ->
    evaluationFunction rows = OK currentScore ->
    PrimFloat.is_nan currentScore = false ->
    searchBest evaluationFunction rows currentScore = OK best ->
    gtb (bestGain best) 0 = false ->
    uniqueCounts rows = OK counts ->
    t = newDecisionTree None None None None
          (Some counts) (Some (dcY currentScore rows)) ->
    Grown evaluationFunction fuel rows t
| GrownInternal (currentScore : float) (best : Best) (c : nat) (v : cell)
    (tb fb : DecisionTree) :
    rows <> [] ->
    evaluationFunction rows = OK currentScore ->
    PrimFloat.is_nan currentScore = false ->
    searchBest evaluationFunction rows currentScore = OK best ->
    gtb (bestGain best) 0 = true ->
    bestAttribute best = Some (c, v) ->
    bestSets best = Some (divideSet rows c v) ->
    growFrom evaluationFunction fuel (fst (divideSet rows c v)) = Some (OK tb) ->
    growFrom evaluationFunction fuel (snd (divideSet rows c v)) = Some (OK fb) ->
    t = newDecisionTree (Some (Z.of_nat c)) (Some v) (Some tb) (Some fb)
          None (Some (dcY currentScore rows)) ->
    Grown evaluationFunction fuel rows t.

(** What [uniqueCounts] does with a row whose label is an ordinary key: the
    label gets a count of 0 when it is new, and the count goes up by one. *)
Definition tallyRow (results : object N) (row : row) : object N :=
  let r := toString (target row) in
  let results :=
    if negb (hasOwnProperty r results) then set r 0%N results else results in
  match get r results with
  | Some c => set r (c + 1)%N results
  | None => results
  end.

Definition tally (rows : list row) : object N := fold_left tallyRow rows [].

(** The rows that can be counted: all but those labelled [__proto__]. *)
Definition counted (rows : list row) : list row :=
  filter (fun row => negb (String.eqb (toString (target row)) "__proto__")) rows.

(** Some row labelled [hasOwnProperty] is followed by another row: from that
    row on, [results.hasOwnProperty] is a count and no method. *)
Fixpoint shadowed (rows : list row) : bool :=
  match rows with
  | [] => false
  | row :: rest =>
      (String.eqb (toString (target row)) "hasOwnProperty"
       && negb (length rest =? 0)%nat)
      || shadowed rest
  end.

(** What a loop of the merge does with an entry whose label is an ordinary
    key, and with all the entries of a distribution. *)
Definition weighEntry (w : float) (result : object float) (entry : string * float)
  : object float :=
  let '(k, v) := entry in
  let result :=
    if negb (hasOwnProperty k result) then set k 0 result else result in
  match get k result with
  | Some old => set k (old + v * w) result
  | None => result
  end.

Definition weigh (w : float) (entries result : object float) : object float :=
  fold_left (weighEntry w) entries result.

(** The count a distribution gives a label: 0 when the label is absent. *)
Definition countOf (label : string) (o : object N) : N :=
  match get label o with
  | Some c => c
  | None => 0%N
  end.

(** The rows whose target turns into the key [label]. *)
Definition rowsLabelled (label : string) (rows : list row) : list row :=
  filter (fun row => String.eqb (toString (target row)) label) rows.

(** The count of [label] in the results of the leaves, summed over the tree. *)
Fixpoint labelTotal (label : string) (t : DecisionTree) : N :=
  match t with
  | mkDecisionTree _ _ tb fb r _ =>
      (match r with Some r => countOf label r | None => 0 end
       + match tb with Some b => labelTotal label b | None => 0 end
       + match fb with Some b => labelTotal label b | None => 0 end)%N
  end.

(** ** Notions for the further properties *)

(** Some row carries the label. *)
Definition labelOccurs (label : string) (rows : list row) : bool :=
  existsb (fun row => String.eqb (toString (target row)) label) rows.

(** A cell that is a string. *)
Definition isString (v : cell) : bool :=
  match v with
  | Str _ => true
  | _ => false
  end.

(** Every row carries the same label. *)
Definition pure (label : string) (rows : list row) : Prop :=
  forall row, In row rows -> toString (target row) = label.

(** The rows agree on every feature column. *)
Definition sameFeatures (rows : list row) : Prop :=
  forall row row' col,
    In row rows -> In row' rows -> (col < columnCount rows)%nat ->
    at_ row col = at_ row' col.

(** A leaf as the builder makes it over [rows] with the score [currentScore]
    and the counts [counts]. *)
Definition leafOver (currentScore : float) (rows : list row) (counts : object N)
  : DecisionTree :=
  newDecisionTree None None None None (Some counts) (Some (dcY currentScore rows)).

(** [summary.samples] is the number of rows counted at or below the node. *)
Definition samplesCounted (t : DecisionTree) : Prop :=
  exists n, samples (summary t) = Some n /\ N.of_nat n = leafTotal t.

(** Wherever a row has a feature column, the rows agree on whether their cell
    in that column is a number. *)
Definition sameKinds (rows : list row) : Prop :=
  forall row row' col,
    In row rows -> In row' rows -> (col < length row' - 1)%nat ->
    isNumber (at_ row col) = isNumber (at_ row' col).

(** Wherever a row has a feature column, no row lacks the cell or holds
    [undefined] in it. *)
Definition noUndefined (rows : list row) : Prop :=
  forall row row' col,
    In row rows -> In row' rows -> (col < length row' - 1)%nat ->
    at_ row col <> Undefined.

(** The results objects found in a tree. *)
Fixpoint resultsIn (t : DecisionTree) : list (object N) :=
  match t with
  | mkDecisionTree _ _ tb fb r _ =>
      match r with Some r => [r] | None => [] end
      ++ match tb with Some b => resultsIn b | None => [] end
      ++ match fb with Some b => resultsIn b | None => [] end
  end.

(** A results object as [uniqueCounts] makes them: each label once, and none
    under the name [__proto__]. *)
Definition countedResults (t : DecisionTree) : Prop :=
  forall r, results t = Some r ->
    NoDup (keys r) /\ ~ In "__proto__"%string (keys r).

(** What a [prune] call keeps when it turns [t] into [t']: the counts, in
    total and label by label, and the shape of the nodes. *)
Definition kept (t t' : DecisionTree) : Prop :=
  leafTotal t' = leafTotal t
  /\ (forall label, labelTotal label t' = labelTotal label t)
  /\ everyNode twoState t'
  /\ everyNode countedResults t'
  /\ (everyNode samplesCounted t -> everyNode samplesCounted t').

(** A results object that counts something, under labels that are not the
    empty string. *)
Definition namedResults (t : DecisionTree) : Prop :=
  forall r, results t = Some r ->
    r <> [] /\ forall k c, get k r = Some c -> k <> EmptyString /\ (1 <= c)%N.

(** A metric that scores every row set whose labels can be counted, as
    [gini] and [entropy] do. *)
Definition scoresCounted (evaluationFunction : metric) : Prop :=
  forall rows counts,
    uniqueCounts rows = OK counts -> exists score, evaluationFunction rows = OK score.

(** A results object without the label [hasOwnProperty]. *)
Definition unshadowedResults (t : DecisionTree) : Prop :=
  forall r, results t = Some r -> ~ In "hasOwnProperty"%string (keys r).

(** A node that has results has no child. *)
Definition leafShape (t : DecisionTree) : Prop :=
  results t <> None -> trueBranch t = None /\ falseBranch t = None.

(** What a second [prune] call with the same arguments does after a first
    one, on the same node. *)
Definition secondCall (t : DecisionTree) (minGain : float)
    (evaluationFunction : metric) (notify : bool) : Prop :=
  let first := prune t minGain evaluationFunction notify in
  let second := prune (after first) minGain evaluationFunction notify in
  after second = after first
  /\ logged second = []
  /\ (thrown second = thrown first
      \/ (results (after first) <> None
          /\ thrown first = None /\ thrown second = Some TypeError)).

(** Numbers that are not negative, and not NaN: +0, the positive doubles
    and +Infinity; and those of them that are finite. *)
Definition nonNegative (x : spec_float) : Prop :=
  match x with
  | S754_zero false | S754_finite false _ _ | S754_infinity false => True
  | _ => False
  end.

Definition finiteNonNegative (x : spec_float) : Prop :=
  match x with
  | S754_zero false | S754_finite false _ _ => True
  | _ => False
  end.


(** A string inside which [hasOwnProperty] is spelled. *)
Definition spellsTheMethod (v : cell) : Prop :=
  exists a b, v = Str (a ++ "hasOwnProperty" ++ b).

(** * Facts *)

(** ** Comparisons and NaN *)

Lemma SFltb_rank x y :
  x <> S754_nan -> y <> S754_nan ->
  (SFltb x y = true <-> lexLt (rank x) (rank y)).
Proof.
  intros Hx Hy. unfold SFltb, lexLt.
  destruct x as [[]|[]| |[] mx ex], y as [[]|[]| |[] my ey]; simpl;
    try congruence; try (split; [discriminate | lia]); try (split; [lia | reflexivity]).
  all: rewrite ?Pos.compare_cont_spec; simpl.
  all: destruct (Z.compare_spec ex ey); destruct (Pos.compare_spec mx my); simpl;
    split; intros; try discriminate; try reflexivity; subst; try lia.
Qed.

Lemma SFeqb_rank x y :
  x <> S754_nan -> y <> S754_nan ->
  (SFeqb x y = true <-> rank x = rank y).
Proof.
  intros Hx Hy. unfold SFeqb.
  destruct x as [[]|[]| |[] mx ex], y as [[]|[]| |[] my ey]; simpl;
    try congruence; try (split; [discriminate | intros E; inversion E]);
    try (split; reflexivity).
  all: rewrite ?Pos.compare_cont_spec; simpl.
  all: destruct (Z.compare_spec ex ey); destruct (Pos.compare_spec mx my); simpl;
    split; intros E; try discriminate; try reflexivity; subst;
    try (inversion E; lia); try (f_equal; f_equal; lia).
Qed.

Lemma SFcompare_nan_r x : SFcompare x S754_nan = None.
Proof. destruct x; reflexivity. Qed.

Lemma is_nan_spec x : PrimFloat.is_nan x = true <-> Prim2SF x = S754_nan.
Proof.
  unfold PrimFloat.is_nan. rewrite eqb_spec.
  destruct (Prim2SF x) as [s|s| |s m e] eqn:E.
  - destruct s; simpl; split; discriminate.
  - destruct s; simpl; split; discriminate.
  - simpl. split; reflexivity.
  - assert (H : SFeqb (S754_finite s m e) (S754_finite s m e) = true).
    { apply SFeqb_rank; congruence. }
    rewrite H. simpl. split; discriminate.
Qed.

Lemma not_nan_spec x : PrimFloat.is_nan x = false <-> Prim2SF x <> S754_nan.
Proof.
  rewrite <- is_nan_spec. destruct (PrimFloat.is_nan x); split; congruence.
Qed.

Lemma ltb_not_nan x y :
  (x <? y) = true -> PrimFloat.is_nan x = false /\ PrimFloat.is_nan y = false.
Proof.
  rewrite ltb_spec, !not_nan_spec. unfold SFltb. intros H.
  split; intros E; rewrite E in H.
  - discriminate.
  - rewrite SFcompare_nan_r in H. discriminate.
Qed.

Lemma eqb_not_nan x y :
  (x =? y) = true -> PrimFloat.is_nan x = false /\ PrimFloat.is_nan y = false.
Proof.
  rewrite eqb_spec, !not_nan_spec. unfold SFeqb. intros H.
  split; intros E; rewrite E in H.
  - discriminate.
  - rewrite SFcompare_nan_r in H. discriminate.
Qed.

Lemma ltb_rank x y :
  (x <? y) = true <->
  PrimFloat.is_nan x = false /\ PrimFloat.is_nan y = false /\
  lexLt (rank (Prim2SF x)) (rank (Prim2SF y)).
Proof.
  split.
  - intros H. destruct (ltb_not_nan _ _ H) as [Hx Hy]. repeat split; trivial.
    rewrite ltb_spec in H. apply SFltb_rank; trivial; now apply not_nan_spec.
  - intros (Hx & Hy & H). rewrite ltb_spec.
    apply SFltb_rank; trivial; now apply not_nan_spec.
Qed.

Lemma eqb_rank x y :
  (x =? y) = true <->
  PrimFloat.is_nan x = false /\ PrimFloat.is_nan y = false /\
  rank (Prim2SF x) = rank (Prim2SF y).
Proof.
  split.
  - intros H. destruct (eqb_not_nan _ _ H) as [Hx Hy]. repeat split; trivial.
    rewrite eqb_spec in H. apply SFeqb_rank; trivial; now apply not_nan_spec.
  - intros (Hx & Hy & H). rewrite eqb_spec.
    apply SFeqb_rank; trivial; now apply not_nan_spec.
Qed.

Ltac ranks :=
  repeat match goal with
         | H : (_ <? _) = true |- _ => apply ltb_rank in H; destruct H as (? & ? & H)
         | H : (_ =? _) = true |- _ => apply eqb_rank in H; destruct H as (? & ? & H)
         end;
  repeat match goal with
         | |- context [rank ?s] =>
             let r := fresh "r" in
             set (r := rank s) in *; clearbody r; destruct r as [? [? ?]]
         | H : context [rank ?s] |- _ =>
             let r := fresh "r" in
             set (r := rank s) in *; clearbody r; destruct r as [? [? ?]]
         end;
  unfold lexLt in *; simpl in *.

Lemma ltb_trans x y z : (x <? y) = true -> (y <? z) = true -> (x <? z) = true.
Proof.
  intros H1 H2. apply ltb_rank. ranks. repeat split; trivial. lia.
Qed.

Lemma ltb_irrefl x : (x <? x) = false.
Proof.
  destruct (x <? x) eqn:H; trivial. ranks. lia.
Qed.

Lemma ltb_eqb_r x y z : (x <? y) = true -> (y =? z) = true -> (x <? z) = true.
Proof.
  intros H1 H2. apply ltb_rank. ranks. repeat split; trivial.
  inversion H2; subst. lia.
Qed.

Lemma eqb_sym x y : (x =? y) = (y =? x).
Proof.
  destruct (x =? y) eqn:H1, (y =? x) eqn:H2; trivial.
  - rewrite <- H2. symmetry. apply eqb_rank.
    apply eqb_rank in H1. destruct H1 as (? & ? & ?). auto.
  - rewrite <- H1. apply eqb_rank.
    apply eqb_rank in H2. destruct H2 as (? & ? & ?). auto.
Qed.

(** Numbers that are not NaN are totally ordered. *)
Lemma ltb_total x y :
  PrimFloat.is_nan x = false -> PrimFloat.is_nan y = false ->
  (x <? y) = true \/ (x =? y) = true \/ (y <? x) = true.
Proof.
  intros Hx Hy.
  rewrite !ltb_rank, eqb_rank.
  remember (rank (Prim2SF x)) as rx. remember (rank (Prim2SF y)) as ry.
  destruct rx as [a [b c]], ry as [a' [b' c']]. unfold lexLt; simpl.
  assert (D : ((a < a' \/ a = a' /\ (b < b' \/ b = b' /\ c < c'))
           \/ (a = a' /\ b = b' /\ c = c')
           \/ (a' < a \/ a' = a /\ (b' < b \/ b' = b /\ c' < c)))%Z) by lia.
  destruct D as [D | [(-> & -> & ->) | D]]; auto 10.
Qed.


(** NaN propagates through the arithmetic of a gain. *)
Lemma sub_not_nan x y :
  PrimFloat.is_nan (x - y) = false ->
  PrimFloat.is_nan x = false /\ PrimFloat.is_nan y = false.
Proof.
  rewrite !not_nan_spec, sub_spec. unfold SF64sub.
  destruct (Prim2SF x), (Prim2SF y); simpl; intros H; split; congruence.
Qed.

Lemma mul_not_nan x y :
  PrimFloat.is_nan (x * y) = false ->
  PrimFloat.is_nan x = false /\ PrimFloat.is_nan y = false.
Proof.
  rewrite !not_nan_spec, mul_spec. unfold SF64mul.
  destruct (Prim2SF x), (Prim2SF y); simpl; intros H; split; congruence.
Qed.

Lemma sub_nan_l x y : PrimFloat.is_nan x = true -> PrimFloat.is_nan (x - y) = true.
Proof.
  rewrite !is_nan_spec, sub_spec. intros ->. reflexivity.
Qed.

Lemma ltb_nan_l x y : PrimFloat.is_nan x = true -> (x <? y) = false.
Proof.
  intros H. destruct (x <? y) eqn:E; trivial.
  apply ltb_not_nan in E. destruct E. congruence.
Qed.

(** NaN goes through the arithmetic. *)
Lemma div_nan_l x y : PrimFloat.is_nan x = true -> PrimFloat.is_nan (x / y) = true.
Proof.
  rewrite !is_nan_spec, div_spec. intros ->. now destruct (Prim2SF y) as [| | |[] ? ?].
Qed.

Lemma sub_nan_r x y : PrimFloat.is_nan y = true -> PrimFloat.is_nan (x - y) = true.
Proof.
  rewrite !is_nan_spec, sub_spec. intros ->.
  now destruct (Prim2SF x) as [[]|[]| |[] ? ?].
Qed.

Lemma mul_nan_l x y : PrimFloat.is_nan x = true -> PrimFloat.is_nan (x * y) = true.
Proof.
  rewrite !is_nan_spec, mul_spec. intros ->. now destruct (Prim2SF y) as [| | |[] ? ?].
Qed.

Lemma add_nan_r x y : PrimFloat.is_nan y = true -> PrimFloat.is_nan (x + y) = true.
Proof.
  rewrite !is_nan_spec, add_spec. intros ->.
  now destruct (Prim2SF x) as [[]|[]| |[] ? ?].
Qed.

(** ** The sign of a difference

    The comparator of the sort reads the sign of [a - b].  For two numbers
    that are not NaN the rounded difference is negative exactly when
    [a < b]: a double is a multiple of the least subnormal, so a difference
    that is not zero never rounds to zero. *)

Local Open Scope Z_scope.

(** The digits of a mantissa. *)
Lemma digits2_pos_size p : digits2_pos p = Pos.size p.
Proof. induction p; simpl; congruence. Qed.

Lemma digits2_bounds p :
  2 ^ (Zpos (digits2_pos p) - 1) <= Zpos p < 2 ^ Zpos (digits2_pos p).
Proof.
  rewrite digits2_pos_size. split.
  - pose proof (Pos.size_le p) as H.
    assert (E : Zpos (2 ^ Pos.size p) = 2 ^ Zpos (Pos.size p)) by apply Pos2Z.inj_pow.
    assert (L : Zpos (2 ^ Pos.size p) <= Zpos p~0) by (apply Pos2Z.pos_le_pos; exact H).
    rewrite E in L.
    replace (Zpos (Pos.size p)) with (Z.succ (Zpos (Pos.size p) - 1)) in L by lia.
    rewrite Z.pow_succ_r in L by lia. lia.
  - pose proof (Pos.size_gt p) as H.
    assert (E : Zpos (2 ^ Pos.size p) = 2 ^ Zpos (Pos.size p)) by apply Pos2Z.inj_pow.
    rewrite <- E. apply Pos2Z.pos_lt_pos. exact H.
Qed.

Lemma iter_xO m d : Zpos (Pos.iter xO m d) = Zpos m * 2 ^ Zpos d.
Proof.
  induction d using Pos.peano_ind.
  - simpl. lia.
  - rewrite Pos.iter_succ, Pos2Z.inj_succ, Z.pow_succ_r by lia.
    rewrite Pos2Z.inj_xO, IHd. lia.
Qed.

Lemma shl_align_value mx ex ez :
  ez <= ex ->
  Zpos (fst (shl_align mx ex ez)) = Zpos mx * 2 ^ (ex - ez).
Proof.
  intros L. unfold shl_align.
  destruct (ez - ex) as [|d|d] eqn:E.
  - replace (ex - ez) with 0 by lia. simpl. lia.
  - lia.
  - simpl fst. rewrite iter_xO. f_equal. f_equal. lia.
Qed.

(** Shifting a mantissa right, as rounding does. *)
Lemma iter_pos_nat {A : Type} (f : A -> A) (k : positive) (x : A) :
  iter_pos f k x = Nat.iter (Pos.to_nat k) f x.
Proof.
  revert x. induction k as [k IH|k IH|]; intros x; cbn [iter_pos].
  - rewrite !IH, Pos2Nat.inj_xI, Nat.iter_succ_r.
    replace (2 * Pos.to_nat k)%nat with (Pos.to_nat k + Pos.to_nat k)%nat by lia.
    now rewrite Nat.iter_add.
  - rewrite !IH, Pos2Nat.inj_xO.
    replace (2 * Pos.to_nat k)%nat with (Pos.to_nat k + Pos.to_nat k)%nat by lia.
    now rewrite Nat.iter_add.
  - reflexivity.
Qed.

Lemma shr_1_positive r p :
  shr_m r = Zpos p -> (1 < Pos.to_nat (digits2_pos p))%nat ->
  exists q, shr_m (shr_1 r) = Zpos q
            /\ Pos.to_nat (digits2_pos q) = (Pos.to_nat (digits2_pos p) - 1)%nat.
Proof.
  destruct r as [m b s]. simpl. intros -> D.
  destruct p as [p|p|]; simpl in *.
  - exists p. split; trivial. lia.
  - exists p. split; trivial. lia.
  - lia.
Qed.

Lemma iter_shr_1_positive n :
  forall r p,
    shr_m r = Zpos p -> (n < Pos.to_nat (digits2_pos p))%nat ->
    exists q, shr_m (Nat.iter n shr_1 r) = Zpos q
              /\ Pos.to_nat (digits2_pos q) = (Pos.to_nat (digits2_pos p) - n)%nat.
Proof.
  induction n as [|n IH]; intros r p Hr D.
  - exists p. split; trivial. simpl. lia.
  - destruct (IH r p Hr ltac:(lia)) as (q & Hq & Dq).
    destruct (shr_1_positive _ _ Hq ltac:(lia)) as (q' & Hq' & Dq').
    exists q'. simpl. split; trivial. lia.
Qed.


Lemma fexp64 e : fexp prec emax e = Z.max (e - 53) (-1074).
Proof. reflexivity. Qed.

(** After the shift that rounding asks for, a positive mantissa at an exponent
    no smaller than the least one is still positive. *)
Lemma shr_fexp_positive p e l :
  emin64 <= e ->
  exists q, shr_m (fst (shr_fexp prec emax (Zpos p) e l)) = Zpos q
            /\ emin64 <= snd (shr_fexp prec emax (Zpos p) e l).
Proof.
  unfold emin64. intros L. unfold shr_fexp, shr. rewrite fexp64. simpl Zdigits2.
  destruct (Z.max (Zpos (digits2_pos p) + e - 53) (-1074) - e) as [|k|k] eqn:E.
  - exists p. destruct l as [|[]]; simpl; split; trivial.
  - simpl fst. simpl snd. rewrite iter_pos_nat.
    assert (K : (Pos.to_nat k < Pos.to_nat (digits2_pos p))%nat) by lia.
    assert (R : shr_m (shr_record_of_loc (Zpos p) l) = Zpos p)
      by (destruct l as [|[]]; reflexivity).
    destruct (iter_shr_1_positive _ _ _ R K) as (q & Hq & _).
    exists q. split; trivial. lia.
  - exists p. destruct l as [|[]]; simpl; split; trivial.
Qed.

Lemma round_nearest_even_positive q l :
  exists q', round_nearest_even (Zpos q) l = Zpos q'.
Proof.
  destruct l as [|[]]; simpl; eauto.
  destruct q; simpl; eauto.
Qed.

Lemma binary_round_aux_sign s p e l :
  emin64 <= e ->
  (exists m' e', binary_round_aux prec emax s (Zpos p) e l = S754_finite s m' e')
  \/ binary_round_aux prec emax s (Zpos p) e l = S754_infinity s.
Proof.
  intros L. unfold binary_round_aux.
  destruct (shr_fexp_positive p e l L) as (q & Hq & Le).
  destruct (shr_fexp prec emax (Zpos p) e l) as [mrs' e'] eqn:E1. simpl in Hq, Le.
  rewrite Hq.
  destruct (round_nearest_even_positive q (loc_of_shr_record mrs')) as (q' & Hq').
  rewrite Hq'.
  destruct (shr_fexp_positive q' e' loc_Exact Le) as (q'' & Hq'' & _).
  destruct (shr_fexp prec emax (Zpos q') e' loc_Exact) as [mrs'' e''] eqn:E2.
  simpl in Hq''. rewrite Hq''.
  destruct (e'' <=? emax - prec); eauto.
Qed.

Lemma binary_round_sign s p e :
  emin64 <= e ->
  (exists m' e', binary_round prec emax s p e = S754_finite s m' e')
  \/ binary_round prec emax s p e = S754_infinity s.
Proof.
  intros L. unfold binary_round.
  destruct (shl_align p e (fexp prec emax (Zpos (digits2_pos p) + e))) as [mz ez] eqn:E.
  apply binary_round_aux_sign.
  unfold shl_align in E. rewrite fexp64 in E.
  destruct (Z.max (Zpos (digits2_pos p) + e - 53) (-1074) - e); injection E as <- <-;
    unfold emin64 in *; lia.
Qed.

(** Canonical representations. *)
Lemma bounded_canonical m e :
  bounded prec emax m e = true ->
  emin64 <= e /\ Zpos (digits2_pos m) <= 53
  /\ (Zpos (digits2_pos m) = 53 \/ e = emin64).
Proof.
  unfold bounded, canonical_mantissa, emin64. rewrite fexp64.
  intros H. apply andb_true_iff in H. destruct H as [H _].
  apply Z.eqb_eq in H. lia.
Qed.

(** A canonical number of smaller exponent is smaller. *)
Lemma smaller_exponent m1 e1 m2 e2 :
  bounded prec emax m1 e1 = true -> bounded prec emax m2 e2 = true ->
  e1 < e2 -> Zpos m1 < Zpos m2 * 2 ^ (e2 - e1).
Proof.
  intros B1 B2 L.
  apply bounded_canonical in B1. apply bounded_canonical in B2.
  unfold emin64 in *.
  destruct B1 as (L1 & D1 & _). destruct B2 as (L2 & D2 & C2).
  assert (E2 : Zpos (digits2_pos m2) = 53) by lia.
  pose proof (digits2_bounds m1) as [_ U1].
  pose proof (digits2_bounds m2) as [Lo2 _].
  rewrite E2 in Lo2. simpl in Lo2.
  assert (P1 : 2 ^ Zpos (digits2_pos m1) <= 2 ^ 53)
    by (apply Z.pow_le_mono_r; lia).
  assert (P2 : 2 ^ 1 <= 2 ^ (e2 - e1)) by (apply Z.pow_le_mono_r; lia).
  change (2 ^ 53) with 9007199254740992 in P1.
  change (2 ^ 1) with 2 in P2.
  nia.
Qed.


Lemma SFltb_aligned sx mx ex sy my ey :
  bounded prec emax mx ex = true -> bounded prec emax my ey = true ->
  (SFltb (S754_finite sx mx ex) (S754_finite sy my ey) = true
   <-> aligned sx mx ex (Z.min ex ey) < aligned sy my ey (Z.min ex ey)).
Proof.
  intros Bx By. unfold aligned.
  rewrite !shl_align_value by lia.
  assert (Px : 0 < Zpos mx * 2 ^ (ex - Z.min ex ey))
    by (apply Z.mul_pos_pos; [lia | apply Z.pow_pos_nonneg; lia]).
  assert (Py : 0 < Zpos my * 2 ^ (ey - Z.min ex ey))
    by (apply Z.mul_pos_pos; [lia | apply Z.pow_pos_nonneg; lia]).
  unfold SFltb, SFcompare, cond_Zopp.
  destruct (Z.compare_spec ex ey) as [E|L|G].
  - subst ey. rewrite Z.min_id, Z.sub_diag in *. simpl (2 ^ 0) in *.
    rewrite Pos.compare_cont_spec; simpl.
    destruct sx, sy; destruct (Pos.compare_spec mx my); simpl;
      split; intros; try discriminate; try reflexivity; subst; lia.
  - pose proof (smaller_exponent _ _ _ _ Bx By L) as K.
    replace (Z.min ex ey) with ex in * by lia.
    rewrite Z.sub_diag in *. simpl (2 ^ 0) in *.
    destruct sx, sy; cbn -[Z.pow Z.mul Z.sub Z.lt]; split; intros;
      try discriminate; try reflexivity; lia.
  - pose proof (smaller_exponent _ _ _ _ By Bx ltac:(lia)) as K.
    replace (Z.min ex ey) with ey in * by lia.
    rewrite Z.sub_diag in *. simpl (2 ^ 0) in *.
    destruct sx, sy; cbn -[Z.pow Z.mul Z.sub Z.lt]; split; intros;
      try discriminate; try reflexivity; lia.
Qed.

Lemma binary_normalize_negative d e :
  emin64 <= e ->
  SFltb (binary_normalize prec emax d e false) (S754_zero false) = (d <? 0).
Proof.
  intros L. destruct d as [|p|p]; simpl.
  - reflexivity.
  - destruct (binary_round_sign false p e L) as [(m' & e' & ->) | ->]; reflexivity.
  - destruct (binary_round_sign true p e L) as [(m' & e' & ->) | ->]; reflexivity.
Qed.

(** The sign of a difference is the order of its operands. *)
Lemma SFsub_negative x y :
  SpecFloat.valid_binary prec emax x = true ->
  SpecFloat.valid_binary prec emax y = true ->
  x <> S754_nan -> y <> S754_nan ->
  SFltb (SF64sub x y) (S754_zero false) = SFltb x y.
Proof.
  intros Vx Vy Nx Ny.
  destruct x as [sx|sx| |sx mx ex], y as [sy|sy| |sy my ey];
    try congruence;
    try (destruct sx; try destruct sy; reflexivity).
  simpl in Vx, Vy. unfold SF64sub, SFsub.
  destruct (bounded_canonical _ _ Vx) as (Lx & _).
  destruct (bounded_canonical _ _ Vy) as (Ly & _).
  rewrite binary_normalize_negative by (unfold emin64 in *; lia).
  pose proof (SFltb_aligned sx mx ex sy my ey Vx Vy) as H. unfold aligned in H.
  destruct (SFltb (S754_finite sx mx ex) (S754_finite sy my ey)).
  - apply Z.ltb_lt. destruct H as [H _]. specialize (H eq_refl). lia.
  - apply Z.ltb_ge. destruct H as [_ H].
    destruct (Z_lt_le_dec (cond_Zopp sx (Zpos (fst (shl_align mx ex (Z.min ex ey)))))
                          (cond_Zopp sy (Zpos (fst (shl_align my ey (Z.min ex ey)))))) as [C|C].
    + specialize (H C). discriminate.
    + lia.
Qed.

Lemma sub_negative (x y : float) :
  PrimFloat.is_nan x = false -> PrimFloat.is_nan y = false ->
  ((x - y <? 0) = (x <? y))%float.
Proof.
  intros Nx Ny. rewrite !ltb_spec, sub_spec.
  change (Prim2SF 0) with (S754_zero false).
  apply SFsub_negative; try apply Prim2SF_valid.
  - intros E. apply (f_equal SF2Prim) in E. rewrite SF2Prim_Prim2SF in E.
    subst. discriminate.
  - intros E. apply (f_equal SF2Prim) in E. rewrite SF2Prim_Prim2SF in E.
    subst. discriminate.
Qed.

Local Close Scope Z_scope.

(** ** Quotients of counts

    The metrics divide a count by a number of rows.  Both are integers below
    2^63, so the quotient is a double: it neither overflows nor is NaN.  The
    lemmas follow the rounding of [SpecFloat] with bounds on the number of
    digits of the mantissa and on the exponent. *)

Local Open Scope Z_scope.

(** Digits and powers of 2. *)
Lemma Zdigits2_le m k :
  0 <= m -> 0 <= k -> m < 2 ^ k -> Zdigits2 m <= k.
Proof.
  intros M K H. destruct m as [|p|p]; simpl; [lia| |lia].
  pose proof (digits2_bounds p) as [L _].
  destruct (Z_lt_le_dec k (Zpos (digits2_pos p))) as [C|C]; [|lia].
  exfalso. assert (2 ^ k <= 2 ^ (Zpos (digits2_pos p) - 1))
    by (apply Z.pow_le_mono_r; lia). lia.
Qed.

Lemma Zdigits2_lt m : 0 <= m -> m < 2 ^ Zdigits2 m.
Proof.
  intros M. destruct m as [|p|p]; simpl; [lia| |lia].
  apply digits2_bounds.
Qed.

Lemma Zdigits2_nonneg m : 0 <= Zdigits2 m.
Proof. destruct m; simpl; lia. Qed.

Lemma shr_1_bound r :
  0 <= shr_m r ->
  0 <= shr_m (shr_1 r)
  /\ Zdigits2 (shr_m (shr_1 r)) <= Z.max 0 (Zdigits2 (shr_m r) - 1).
Proof.
  destruct r as [m b s]. cbn [shr_m]. intros M.
  destruct m as [|p|p]; [simpl; lia | | lia].
  destruct p as [p|p|]; cbn [shr_1 shr_m Zdigits2 digits2_pos];
    rewrite ?Pos2Z.inj_succ; lia.
Qed.

Lemma iter_shr_1_bound n :
  forall r,
    0 <= shr_m r ->
    0 <= shr_m (Nat.iter n shr_1 r)
    /\ Zdigits2 (shr_m (Nat.iter n shr_1 r)) <= Z.max 0 (Zdigits2 (shr_m r) - Z.of_nat n).
Proof.
  induction n as [|n IH]; intros r M.
  - simpl. pose proof (Zdigits2_nonneg (shr_m r)). lia.
  - destruct (IH r M) as [M' D']. cbn [Nat.iter].
    destruct (shr_1_bound _ M') as [M'' D'']. split; trivial.
    change (Nat.iter (S n) shr_1 r) with (shr_1 (Nat.iter n shr_1 r)). lia.
Qed.

(** The shift of rounding, on a mantissa that is not negative: the exponent
    does not decrease, and the magnitude (digits plus exponent) does not
    grow. *)
Lemma shr_fexp_bound m e l B :
  0 <= m -> Zdigits2 m + e <= B ->
  0 <= shr_m (fst (shr_fexp prec emax m e l))
  /\ e <= snd (shr_fexp prec emax m e l)
  /\ snd (shr_fexp prec emax m e l) <= Z.max e (Z.max (B - 53) (-1074))
  /\ Zdigits2 (shr_m (fst (shr_fexp prec emax m e l))) + snd (shr_fexp prec emax m e l)
     <= Z.max B (snd (shr_fexp prec emax m e l)).
Proof.
  intros M D. unfold shr_fexp, shr. rewrite fexp64.
  assert (R : shr_m (shr_record_of_loc m l) = m) by (destruct l as [|[]]; reflexivity).
  destruct (Z.max (Zdigits2 m + e - 53) (-1074) - e) as [|k|k] eqn:E; cbn [fst snd].
  - rewrite R. lia.
  - rewrite iter_pos_nat.
    destruct (iter_shr_1_bound (Pos.to_nat k) (shr_record_of_loc m l)) as [M' D'];
      [now rewrite R|].
    rewrite R in D'. rewrite positive_nat_Z in D'. lia.
  - rewrite R. lia.
Qed.

Lemma round_nearest_even_bound m l :
  0 <= m ->
  0 <= round_nearest_even m l
  /\ Zdigits2 (round_nearest_even m l) <= Zdigits2 m + 1.
Proof.
  intros M.
  assert (S : 0 <= m + 1 /\ Zdigits2 (m + 1) <= Zdigits2 m + 1).
  { split; [lia|]. pose proof (Zdigits2_nonneg m). apply Zdigits2_le; try lia.
    pose proof (Zdigits2_lt m M). rewrite Z.pow_add_r by lia. lia. }
  unfold round_nearest_even. destruct l as [|[]]; try (split; lia); trivial.
  destruct (Z.even m); trivial. split; lia.
Qed.

(** Rounding a mantissa that is not negative gives zero or a number of the
    given sign: never NaN, and no infinity while the magnitude is in range. *)
Lemma binary_round_aux_bound s mx ex lx B :
  0 <= mx -> Zdigits2 mx + ex <= B -> ex <= B - 52 -> -1021 <= B -> B <= 1023 ->
  binary_round_aux prec emax s mx ex lx = S754_zero s
  \/ exists m e,
       binary_round_aux prec emax s mx ex lx = S754_finite s m e
       /\ ex <= e /\ Zpos (digits2_pos m) + e <= B + 1.
Proof.
  intros M D E Bl Bu. unfold binary_round_aux.
  destruct (shr_fexp_bound mx ex lx B M D) as (M1 & E1 & E1' & D1).
  destruct (shr_fexp prec emax mx ex lx) as [mrs' e'] eqn:S1. cbn [fst snd] in *.
  destruct (round_nearest_even_bound (shr_m mrs') (loc_of_shr_record mrs') M1) as [M2 D2].
  set (m' := round_nearest_even (shr_m mrs') (loc_of_shr_record mrs')) in *.
  assert (D2' : Zdigits2 m' + e' <= B + 1) by lia.
  destruct (shr_fexp_bound m' e' loc_Exact (B + 1) M2 D2') as (M3 & E3 & E3' & D3).
  destruct (shr_fexp prec emax m' e' loc_Exact) as [mrs'' e''] eqn:S2. cbn [fst snd] in *.
  destruct (shr_m mrs'') as [|m|m] eqn:Em; [now left | | lia].
  clearbody m'. right. assert (L : (e'' <=? emax - prec) = true).
  { apply Z.leb_le. change (emax - prec) with 971. clear - E E1' E3' Bl Bu. lia. }
  rewrite L. exists m, e''. split; trivial. cbn [Zdigits2] in D3. lia.
Qed.

(** Rounding a mantissa that is not negative never gives NaN, nor the other
    sign. *)
Lemma binary_round_aux_nonNegative mx ex lx :
  0 <= mx -> nonNegative (binary_round_aux prec emax false mx ex lx).
Proof.
  intros M. unfold binary_round_aux.
  destruct (shr_fexp_bound mx ex lx (Zdigits2 mx + ex) M (Z.le_refl _)) as (M1 & _).
  destruct (shr_fexp prec emax mx ex lx) as [mrs' e']. cbn [fst snd] in *.
  destruct (round_nearest_even_bound (shr_m mrs') (loc_of_shr_record mrs') M1) as [M2 _].
  destruct (shr_fexp_bound _ e' loc_Exact _ M2 (Z.le_refl _)) as (M3 & _).
  destruct (shr_fexp prec emax _ e' loc_Exact) as [mrs'' e'']. cbn [fst snd] in *.
  destruct (shr_m mrs'') as [|m|m]; [exact I | | lia].
  destruct (e'' <=? emax - prec); exact I.
Qed.

Lemma binary_round_nonNegative m e : nonNegative (binary_round prec emax false m e).
Proof.
  unfold binary_round. destruct (shl_align m e _) as [mz ez].
  apply binary_round_aux_nonNegative. lia.
Qed.

Lemma SFmul_nonNegative x y :
  finiteNonNegative x -> finiteNonNegative y -> nonNegative (SFmul prec emax x y).
Proof.
  destruct x as [[]|[]| |[] mx ex], y as [[]|[]| |[] my ey]; simpl; trivial; try tauto.
  intros _ _. apply binary_round_aux_nonNegative. lia.
Qed.

Lemma SFadd_nonNegative x y :
  nonNegative x -> nonNegative y -> nonNegative (SFadd prec emax x y).
Proof.
  destruct x as [[]|[]| |[] mx ex], y as [[]|[]| |[] my ey]; simpl; trivial; try tauto.
  intros _ _. apply binary_round_nonNegative.
Qed.

(** A positive integer below 2^63, as a double. *)
Lemma of_uint63_finite (k : Uint63.int) :
  Uint63.to_Z k <> 0 ->
  exists m e,
    Prim2SF (of_uint63 k) = S754_finite false m e
    /\ -52 <= e /\ Zpos (digits2_pos m) + e <= 64.
Proof.
  intros NZ. rewrite of_uint63_spec. pose proof (Uint63.to_Z_bounded k) as Bk.
  change Uint63.wB with (2 ^ 63) in Bk.
  destruct (Uint63.to_Z k) as [|p|p]; [contradiction | | lia].
  unfold binary_normalize, binary_round.
  assert (Dp : Zpos (digits2_pos p) <= 63).
  { apply (Zdigits2_le (Zpos p) 63); lia. }
  assert (Dp' : 1 <= Zpos (digits2_pos p)) by lia.
  destruct (shl_align p 0 (fexp prec emax (Zpos (digits2_pos p) + 0))) as [mz ez] eqn:Es.
  assert (Hz : -52 <= ez <= 0 /\ Zdigits2 (Zpos mz) + ez <= 63).
  { unfold shl_align in Es. rewrite fexp64 in Es.
    remember (Z.max (Zpos (digits2_pos p) + 0 - 53) (-1074)) as f eqn:Ef.
    destruct (f - 0) as [|d|d] eqn:Ed; injection Es as <- <-.
    - cbn [Zdigits2]. lia.
    - cbn [Zdigits2]. lia.
    - pose proof (Pos2Z.neg_is_neg d) as Nd. split; [lia|].
      assert (Zdigits2 (Zpos (Pos.iter xO p d)) <= 53); [|lia].
      apply Zdigits2_le; try lia. rewrite iter_xO.
      pose proof (digits2_bounds p) as [_ U].
      replace 53 with (Zpos (digits2_pos p) + Zpos d) by lia.
      rewrite Z.pow_add_r by lia.
      apply Z.mul_lt_mono_pos_r; [apply Z.pow_pos_nonneg; lia | exact U]. }
  destruct Hz as [Ez Dz].
  destruct (binary_round_aux_bound false (Zpos mz) ez loc_Exact 63)
    as [Z | (m & e & E & Le & Dm)]; try lia.
  - destruct (binary_round_aux_sign false mz ez loc_Exact) as [(m' & e' & E') | E'];
      [unfold emin64; lia | congruence | congruence].
  - exists m, e. split; trivial. lia.
Qed.

(** The quotient of two such doubles is a double: it neither overflows nor
    is NaN. *)
Lemma SFdiv_finite sx mx ex sy my ey :
  Zpos (digits2_pos mx) + ex <= 64 -> -52 <= ey ->
  SFdiv prec emax (S754_finite sx mx ex) (S754_finite sy my ey) = S754_zero (xorb sx sy)
  \/ exists m e,
       SFdiv prec emax (S754_finite sx mx ex) (S754_finite sy my ey)
       = S754_finite (xorb sx sy) m e.
Proof.
  intros Dx Ey. unfold SFdiv, SFdiv_core_binary. cbn [Zdigits2].
  set (d1 := Zpos (digits2_pos mx)) in *. set (d2 := Zpos (digits2_pos my)).
  assert (D2 : 1 <= d2) by (unfold d2; lia).
  assert (D1 : 1 <= d1) by (unfold d1; lia).
  set (e' := Z.min (fexp prec emax (d1 + ex - (d2 + ey))) (ex - ey)).
  assert (E' : e' <= 62 /\ e' <= ex - ey).
  { unfold e'. rewrite fexp64. lia. }
  set (s := ex - ey - e'). assert (S0 : 0 <= s) by (unfold s; lia).
  set (m' := match s with
             | 0 => Zpos mx
             | Zpos _ => Z.shiftl (Zpos mx) s
             | Zneg _ => 0
             end).
  assert (Hm : m' = Zpos mx * 2 ^ s).
  { unfold m'. destruct s as [|k|k] eqn:Ek; [simpl; lia | | lia].
    now rewrite Z.shiftl_mul_pow2 by lia. }
  pose proof (digits2_bounds mx) as [_ Ux]. fold d1 in Ux.
  pose proof (digits2_bounds my) as [Ly _]. fold d2 in Ly.
  assert (P2 : 0 < 2 ^ s) by (apply Z.pow_pos_nonneg; lia).
  assert (Um : 0 <= m' < 2 ^ (d1 + s)).
  { rewrite Hm, Z.pow_add_r by lia. split; [lia|].
    apply Z.mul_lt_mono_pos_r; trivial. }
  pose proof (Z_div_mod m' (Zpos my) ltac:(lia)) as Hd.
  destruct (Z.div_eucl m' (Zpos my)) as [q r]. destruct Hd as [Hq Hr].
  assert (Q0 : 0 <= q) by nia.
  assert (Dq : Zdigits2 q + e' <= 116).
  { destruct (Z_le_gt_dec (d1 + s) (d2 - 1)) as [C|C].
    - assert (2 ^ (d1 + s) <= 2 ^ (d2 - 1)) by (apply Z.pow_le_mono_r; lia).
      assert (q = 0) by nia. subst q. simpl. lia.
    - assert (Zdigits2 q <= d1 + s - d2 + 1); [|unfold s in *; lia].
      apply Zdigits2_le; try lia.
      assert (P : 0 < 2 ^ (d2 - 1)) by (apply Z.pow_pos_nonneg; lia).
      assert (Eq : 2 ^ (d1 + s) = 2 ^ (d1 + s - d2 + 1) * 2 ^ (d2 - 1)).
      { rewrite <- Z.pow_add_r by lia. f_equal. lia. }
      assert (q * 2 ^ (d2 - 1) < 2 ^ (d1 + s - d2 + 1) * 2 ^ (d2 - 1)) by nia.
      apply (Z.mul_lt_mono_pos_r (2 ^ (d2 - 1))); trivial. }
  destruct (binary_round_aux_bound (xorb sx sy) q e' (new_location (Zpos my) r) 116)
    as [Z | (m & e & E & _)]; try lia; eauto.
Qed.

Local Close Scope Z_scope.

(** ** Objects *)

Section ObjectFacts.
Context {V : Type}.
Implicit Types (o : object V) (k : string) (v : V).

Lemma hasOwnProperty_get k o :
  hasOwnProperty k o = true <-> exists v, get k o = Some v.
Proof.
  unfold hasOwnProperty. destruct (get k o); split; eauto.
  - discriminate.
  - intros [v E]. discriminate.
Qed.

Lemma hasOwnProperty_false k o : hasOwnProperty k o = false <-> get k o = None.
Proof.
  unfold hasOwnProperty. destruct (get k o); split; congruence.
Qed.

Lemma get_None_keys k o : get k o = None <-> ~ In k (keys o).
Proof.
  induction o as [|[k' v'] o IH]; simpl.
  - split; [intros _ [] | reflexivity].
  - destruct (String.eqb_spec k k') as [->|N].
    + split; [discriminate | intros H; exfalso; apply H; now left].
    + rewrite IH. split.
      * intros H [E|E]; [congruence | contradiction].
      * intros H E. apply H. now right.
Qed.

Lemma get_update_same k v o :
  hasOwnProperty k o = true -> get k (update k v o) = Some v.
Proof.
  unfold hasOwnProperty.
  induction o as [|[k' v'] o IH]; simpl; [discriminate|].
  destruct (String.eqb_spec k k') as [->|N]; simpl.
  - now rewrite String.eqb_refl.
  - destruct (String.eqb_spec k k'); [contradiction | exact IH].
Qed.

Lemma get_update_other k k' v o : k' <> k -> get k' (update k v o) = get k' o.
Proof.
  intros N. induction o as [|[k0 v0] o IH]; simpl; trivial.
  destruct (String.eqb_spec k k0) as [->|N0]; simpl.
  - destruct (String.eqb_spec k' k0); [contradiction | reflexivity].
  - destruct (String.eqb_spec k' k0); trivial.
Qed.

Lemma keys_update k v o : keys (update k v o) = keys o.
Proof.
  unfold keys. induction o as [|[k0 v0] o IH]; simpl; trivial.
  destruct (String.eqb_spec k k0) as [->|N0]; simpl; [reflexivity|].
  now rewrite IH.
Qed.

Lemma get_insertIndex_same i k v o :
  get k o = None -> get k (insertIndex i k v o) = Some v.
Proof.
  induction o as [|[k0 v0] o IH]; simpl.
  - now rewrite String.eqb_refl.
  - destruct (String.eqb_spec k k0) as [->|N0]; [discriminate|].
    intros H.
    destruct (arrayIndex k0) as [j|]; [destruct (j <? i)%N|]; simpl;
      rewrite ?String.eqb_refl; trivial.
    destruct (String.eqb_spec k k0); [contradiction | auto].
Qed.

Lemma get_insertIndex_other i k k' v o :
  k' <> k -> get k' (insertIndex i k v o) = get k' o.
Proof.
  intros N. induction o as [|[k0 v0] o IH]; simpl.
  - destruct (String.eqb_spec k' k); [contradiction | reflexivity].
  - destruct (arrayIndex k0) as [j|]; [destruct (j <? i)%N|]; simpl.
    + destruct (String.eqb_spec k' k0); trivial.
    + destruct (String.eqb_spec k' k); [contradiction | reflexivity].
    + destruct (String.eqb_spec k' k); [contradiction | reflexivity].
Qed.

Lemma keys_insertIndex i k v o : Permutation (keys (insertIndex i k v o)) (k :: keys o).
Proof.
  unfold keys. induction o as [|[k0 v0] o IH]; simpl; [reflexivity|].
  destruct (arrayIndex k0) as [j|]; [destruct (j <? i)%N|]; simpl; try reflexivity.
  rewrite IH. apply perm_swap.
Qed.

Lemma get_app k o o' :
  get k (o ++ o') = match get k o with Some v => Some v | None => get k o' end.
Proof.
  induction o as [|[k0 v0] o IH]; simpl; trivial.
  destruct (String.eqb k k0); trivial.
Qed.

Lemma get_set_same k v o : get k (set k v o) = Some v.
Proof.
  unfold set. destruct (hasOwnProperty k o) eqn:H.
  - now apply get_update_same.
  - apply hasOwnProperty_false in H.
    destruct (arrayIndex k).
    + now apply get_insertIndex_same.
    + rewrite get_app, H. simpl. now rewrite String.eqb_refl.
Qed.

Lemma get_set_other k k' v o : k' <> k -> get k' (set k v o) = get k' o.
Proof.
  intros N. unfold set. destruct (hasOwnProperty k o).
  - now apply get_update_other.
  - destruct (arrayIndex k).
    + now apply get_insertIndex_other.
    + rewrite get_app. simpl.
      destruct (String.eqb_spec k' k); [contradiction|].
      now destruct (get k' o).
Qed.

(** Assignment keeps the keys, or adds the new one. *)
Lemma keys_set k v o :
  Permutation (keys (set k v o))
              (if hasOwnProperty k o then keys o else k :: keys o).
Proof.
  unfold set. destruct (hasOwnProperty k o).
  - now rewrite keys_update.
  - destruct (arrayIndex k).
    + apply keys_insertIndex.
    + unfold keys. rewrite map_app. simpl.
      rewrite Permutation_app_comm. reflexivity.
Qed.

Lemma NoDup_keys_set k v o : NoDup (keys o) -> NoDup (keys (set k v o)).
Proof.
  intros H. eapply Permutation_NoDup; [symmetry; apply keys_set|].
  destruct (hasOwnProperty k o) eqn:E; trivial.
  constructor; trivial. now apply get_None_keys, hasOwnProperty_false.
Qed.

End ObjectFacts.

(** Totals of count distributions. *)

Lemma totalCount_cons k c (o : object N) :
  totalCount ((k, c) :: o) = (c + totalCount o)%N.
Proof. reflexivity. Qed.

Lemma totalCount_app (o o' : object N) :
  totalCount (o ++ o') = (totalCount o + totalCount o')%N.
Proof.
  induction o as [|[k c] o IH]; simpl; trivial.
  rewrite !totalCount_cons, IH. lia.
Qed.

Lemma totalCount_update k c c' (o : object N) :
  get k o = Some c ->
  (totalCount (update k c' o) + c = totalCount o + c')%N.
Proof.
  induction o as [|[k0 c0] o IH]; simpl; [discriminate|].
  destruct (String.eqb_spec k k0) as [->|N0].
  - intros [= ->]. rewrite !totalCount_cons. lia.
  - intros H. rewrite !totalCount_cons. specialize (IH H). lia.
Qed.

Lemma totalCount_insertIndex i k c (o : object N) :
  totalCount (insertIndex i k c o) = (totalCount o + c)%N.
Proof.
  induction o as [|[k0 c0] o IH]; simpl.
  - rewrite totalCount_cons. unfold totalCount. simpl. lia.
  - destruct (arrayIndex k0) as [j|]; [destruct (j <? i)%N|];
      rewrite ?totalCount_cons, ?IH; lia.
Qed.

(** [o[k] = c] changes the total by the difference to the old value. *)
Lemma totalCount_set k c (o : object N) :
  (totalCount (set k c o) + match get k o with Some old => old | None => 0 end
   = totalCount o + c)%N.
Proof.
  unfold set, hasOwnProperty. destruct (get k o) as [old|] eqn:E.
  - now apply totalCount_update.
  - destruct (arrayIndex k).
    + rewrite totalCount_insertIndex. lia.
    + rewrite totalCount_app, totalCount_cons. unfold totalCount at 2. simpl. lia.
Qed.

(** ** uniqueCounts *)

Lemma tally_total_from (rows : list row) (acc : object N) :
  totalCount
    (fold_left tallyRow rows acc)
  = (totalCount acc + N.of_nat (length rows))%N.
Proof.
  revert acc. induction rows as [|row rows IH]; intros acc; simpl fold_left.
  - simpl. lia.
  - rewrite IH. clear IH. unfold tallyRow. cbv zeta.
    set (r := toString (target row)).
    destruct (hasOwnProperty r acc) eqn:H; simpl negb; cbv iota.
    + apply hasOwnProperty_get in H. destruct H as [c Hc]. rewrite Hc.
      pose proof (totalCount_set r (c + 1) acc) as T. rewrite Hc in T.
      simpl length. lia.
    + apply hasOwnProperty_false in H.
      rewrite get_set_same.
      pose proof (totalCount_set r 0 acc) as T0. rewrite H in T0.
      pose proof (totalCount_set r (0 + 1) (set r 0%N acc)) as T1.
      rewrite get_set_same in T1.
      simpl length. lia.
Qed.

(** Every row is counted once. *)
Lemma tally_total (rows : list row) :
  totalCount (tally rows) = N.of_nat (length rows).
Proof.
  unfold tally. rewrite tally_total_from. reflexivity.
Qed.

Lemma length_pseudoRows (r : object N) :
  length (pseudoRows r) = N.to_nat (totalCount r).
Proof.
  unfold pseudoRows.
  unfold row. induction r as [|[v c] r IH]; [reflexivity|].
  cbn [flat_map]. rewrite length_app, repeat_length, IH, totalCount_cons. lia.
Qed.

(** A pseudo-row holds one cell, a key of the results. *)
Lemma pseudoRows_In (r : object N) (row : row) :
  In row (pseudoRows r) -> exists k, row = [Str k] /\ In k (keys r).
Proof.
  unfold pseudoRows. intros H. apply in_flat_map in H.
  destruct H as ([k c] & Hin & Hrow). apply repeat_spec in Hrow.
  exists k. split; trivial. apply in_map_iff. now exists (k, c).
Qed.

Lemma pseudoRows_label (r : object N) (row : row) :
  In row (pseudoRows r) -> In (toString (target row)) (keys r).
Proof.
  intros H. apply pseudoRows_In in H. now destruct H as (k & -> & Hk).
Qed.

Lemma tally_countOf_from (label : string) (rows : list row) (acc : object N) :
  countOf label
    (fold_left tallyRow rows acc)
  = (countOf label acc + N.of_nat (length (rowsLabelled label rows)))%N.
Proof.
  revert acc. induction rows as [|row rows IH]; intros acc; simpl fold_left.
  - simpl. lia.
  - rewrite IH. clear IH. simpl rowsLabelled.
    set (r := toString (target row)).
    assert (E : countOf label (tallyRow acc row)
                = (countOf label acc + if String.eqb r label then 1 else 0)%N).
    { unfold countOf, tallyRow. cbv zeta. fold r.
      destruct (hasOwnProperty r acc) eqn:H; simpl negb; cbv iota.
      - apply hasOwnProperty_get in H. destruct H as [c Hc]. rewrite Hc.
        destruct (String.eqb_spec r label) as [<- | Hne].
        + now rewrite get_set_same, Hc.
        + rewrite get_set_other by congruence. lia.
      - apply hasOwnProperty_false in H. rewrite get_set_same.
        destruct (String.eqb_spec r label) as [<- | Hne].
        + now rewrite get_set_same, H.
        + rewrite !get_set_other by congruence. lia. }
    rewrite E. destruct (String.eqb r label); simpl length; lia.
Qed.

(** The count of a label is the number of rows that carry it. *)
Lemma tally_countOf (label : string) (rows : list row) :
  countOf label (tally rows) = N.of_nat (length (rowsLabelled label rows)).
Proof.
  unfold tally. rewrite tally_countOf_from. reflexivity.
Qed.

Lemma rowsLabelled_divideSet (label : string) (rows : list row) (c : nat) (v : cell) :
  (length (rowsLabelled label (fst (divideSet rows c v)))
   + length (rowsLabelled label (snd (divideSet rows c v)))
   = length (rowsLabelled label rows))%nat.
Proof.
  unfold divideSet, rowsLabelled. simpl.
  induction rows as [|row rows IH]; simpl; trivial.
  destruct (splittingFunction c v row); simpl;
    destruct (String.eqb (toString (target row)) label); simpl; lia.
Qed.

(** *** The two special names *)

(** On a row whose label is an ordinary key, and while the method is in
    reach, the loop of [uniqueCounts] does what [tallyRow] says. *)
Lemma countRow_plain (results : object N) (row : row) :
  hasOwnProperty "hasOwnProperty" results = false ->
  toString (target row) <> "__proto__"%string ->
  countRow results row = OK (tallyRow results row).
Proof.
  intros Hm Hp. unfold countRow, tallyRow, callHasOwnProperty, assign.
  rewrite Hm. cbn [bind]. cbv zeta.
  apply String.eqb_neq in Hp. rewrite Hp. cbn [andb].
  destruct (get (toString (target row))
              (if negb (hasOwnProperty (toString (target row)) results)
               then set (toString (target row)) 0%N results else results));
    reflexivity.
Qed.

(** A row labelled [__proto__] leaves the counts as they are. *)
Lemma countRow_proto (results : object N) (row : row) :
  hasOwnProperty "hasOwnProperty" results = false ->
  get "__proto__" results = None ->
  toString (target row) = "__proto__"%string ->
  countRow results row = OK results.
Proof.
  intros Hm Hg Hp. unfold countRow, callHasOwnProperty, assign.
  rewrite Hm, Hp. cbn [bind]. cbv zeta.
  assert (Hh : hasOwnProperty "__proto__" results = false)
    by now apply hasOwnProperty_false.
  rewrite Hh. cbn [negb andb String.eqb Ascii.eqb Bool.eqb]. now rewrite Hg.
Qed.

(** Once a count is stored under [hasOwnProperty], the next row throws. *)
Lemma countRow_shadowed (results : object N) (row : row) :
  hasOwnProperty "hasOwnProperty" results = true ->
  countRow results row = Throw TypeError.
Proof.
  intros Hm. unfold countRow, callHasOwnProperty. now rewrite Hm.
Qed.

Lemma get_tallyRow_other (results : object N) (row : row) (k : string) :
  k <> toString (target row) ->
  get k (tallyRow results row) = get k results.
Proof.
  intros Hk. unfold tallyRow. cbv zeta.
  set (r := toString (target row)) in *.
  destruct (hasOwnProperty r results) eqn:H; simpl negb; cbv iota.
  - apply hasOwnProperty_get in H. destruct H as [c Hc]. rewrite Hc.
    now apply get_set_other.
  - rewrite get_set_same. rewrite !get_set_other by trivial. reflexivity.
Qed.

Lemma hasOwnProperty_tallyRow_same (results : object N) (row : row) :
  hasOwnProperty (toString (target row)) (tallyRow results row) = true.
Proof.
  unfold tallyRow. cbv zeta.
  set (r := toString (target row)).
  destruct (hasOwnProperty r results) eqn:H; simpl negb; cbv iota.
  - apply hasOwnProperty_get in H. destruct H as [c Hc]. rewrite Hc.
    apply hasOwnProperty_get. eexists. apply get_set_same.
  - rewrite get_set_same. apply hasOwnProperty_get. eexists. apply get_set_same.
Qed.

(** The loop of [uniqueCounts], from counts [acc] that hold neither special
    name: it throws when a row labelled [hasOwnProperty] is followed by
    another row, and otherwise counts the rows not labelled [__proto__]. *)
Lemma uniqueCounts_from (rows : list row) :
  forall acc : object N,
    hasOwnProperty "hasOwnProperty" acc = false ->
    get "__proto__" acc = None ->
    forEach countRow rows acc
    = if shadowed rows then Throw TypeError
      else OK (fold_left tallyRow (counted rows) acc).
Proof.
  induction rows as [|row rows IH]; intros acc Hm Hp; [reflexivity|].
  cbn [forEach shadowed counted filter].
  destruct (String.eqb_spec (toString (target row)) "__proto__") as [E|NE].
  - rewrite (countRow_proto _ _ Hm Hp E). cbn [bind negb].
    rewrite E. cbn [String.eqb Ascii.eqb Bool.eqb andb orb].
    now apply IH.
  - rewrite (countRow_plain _ _ Hm NE). cbn [bind negb fold_left].
    destruct (String.eqb_spec (toString (target row)) "hasOwnProperty") as [E|NE'].
    + cbn [andb]. destruct rows as [|row' rows]; [reflexivity|].
      cbn [length Nat.eqb negb orb forEach].
      rewrite countRow_shadowed; [reflexivity|].
      rewrite <- E. apply hasOwnProperty_tallyRow_same.
    + cbn [andb orb]. apply IH.
      * unfold hasOwnProperty in *. rewrite get_tallyRow_other; trivial.
        congruence.
      * rewrite get_tallyRow_other; trivial. congruence.
Qed.

(** What [uniqueCounts] returns. *)
Lemma uniqueCounts_eq (rows : list row) :
  uniqueCounts rows
  = if shadowed rows then Throw TypeError else OK (tally (counted rows)).
Proof.
  unfold uniqueCounts, tally. now apply uniqueCounts_from.
Qed.

Lemma uniqueCounts_OK (rows : list row) (counts : object N) :
  uniqueCounts rows = OK counts ->
  shadowed rows = false /\ counts = tally (counted rows).
Proof.
  rewrite uniqueCounts_eq. destruct (shadowed rows); [discriminate|].
  intros [= <-]. now split.
Qed.

(** [uniqueCounts] throws nothing but a TypeError. *)
Lemma uniqueCounts_Throw (rows : list row) (e : exn) :
  uniqueCounts rows = Throw e -> e = TypeError /\ shadowed rows = true.
Proof.
  rewrite uniqueCounts_eq. destruct (shadowed rows); [|discriminate].
  intros [= <-]. now split.
Qed.

Lemma counted_all (rows : list row) :
  (forall row, In row rows -> toString (target row) <> "__proto__"%string) ->
  counted rows = rows.
Proof.
  intros H. unfold counted. induction rows as [|row rows IH]; [reflexivity|].
  cbn [filter]. destruct (String.eqb_spec (toString (target row)) "__proto__") as [E|NE].
  - exfalso. apply (H row); [now left | exact E].
  - cbn [negb]. f_equal. apply IH. intros r Hr. apply H. now right.
Qed.

Lemma shadowed_false (rows : list row) :
  (forall row, In row rows -> toString (target row) <> "hasOwnProperty"%string) ->
  shadowed rows = false.
Proof.
  induction rows as [|row rows IH]; intros H; [reflexivity|].
  cbn [shadowed].
  destruct (String.eqb_spec (toString (target row)) "hasOwnProperty") as [E|NE].
  - exfalso. apply (H row); [now left | exact E].
  - cbn [andb orb]. apply IH. intros r Hr. apply H. now right.
Qed.

Lemma counted_length (rows : list row) :
  (length (counted rows) <= length rows)%nat.
Proof. apply filter_length_le. Qed.

Lemma rowsLabelled_counted (label : string) (rows : list row) :
  label <> "__proto__"%string ->
  rowsLabelled label (counted rows) = rowsLabelled label rows.
Proof.
  intros Hl. unfold rowsLabelled, counted.
  induction rows as [|row rows IH]; [reflexivity|]. cbn [filter].
  destruct (String.eqb_spec (toString (target row)) "__proto__") as [E|NE];
    cbn [negb filter].
  - rewrite IH. destruct (String.eqb_spec (toString (target row)) label); congruence.
  - now rewrite IH.
Qed.

Lemma rowsLabelled_counted_proto (rows : list row) :
  rowsLabelled "__proto__" (counted rows) = [].
Proof.
  unfold rowsLabelled, counted.
  induction rows as [|row rows IH]; [reflexivity|]. cbn [filter].
  destruct (String.eqb (toString (target row)) "__proto__") eqn:E;
    cbn [negb filter]; [exact IH|]. now rewrite E.
Qed.

(** ** divideSet *)

Lemma divideSet_length (rows : list row) (column : nat) (value : cell) :
  (length (fst (divideSet rows column value))
   + length (snd (divideSet rows column value)) = length rows)%nat.
Proof.
  unfold divideSet. simpl. apply filter_length.
Qed.

Lemma bothNonEmpty_lengths (rows : list row) (column : nat) (value : cell) :
  bothNonEmpty rows column value = true ->
  (length (fst (divideSet rows column value)) < length rows
   /\ length (snd (divideSet rows column value)) < length rows
   /\ fst (divideSet rows column value) <> []
   /\ snd (divideSet rows column value) <> [])%nat.
Proof.
  unfold bothNonEmpty. pose proof (divideSet_length rows column value) as L.
  destruct (divideSet rows column value) as [set1 set2]. simpl in *.
  rewrite andb_true_iff, !negb_true_iff, !Nat.eqb_neq. intros [H1 H2].
  repeat split; try lia; intros ->; simpl in *; lia.
Qed.

(** ** Loops *)

Lemma forEach_app {S A : Type} (body : S -> A -> result S) (l1 l2 : list A) (s : S) :
  forEach body (l1 ++ l2) s = (let* s' := forEach body l1 s in forEach body l2 s').
Proof.
  revert s. induction l1 as [|x l1 IH]; intros s; simpl; trivial.
  destruct (body s x); simpl; trivial.
Qed.

(** Two nested loops are one loop over the pairs. *)
Lemma forEach_nested {S A B : Type} (body : A -> S -> B -> result S)
    (inner : A -> list B) (outer : list A) (s : S) :
  forEach (fun s a => forEach (body a) (inner a) s) outer s
  = forEach (fun s '(a, b) => body a s b)
            (flat_map (fun a => map (fun b => (a, b)) (inner a)) outer) s.
Proof.
  revert s. induction outer as [|a outer IH]; intros s; simpl; trivial.
  rewrite forEach_app.
  assert (E : forall l s, forEach (body a) l s
              = forEach (fun s '(a, b) => body a s b) (map (fun b => (a, b)) l) s).
  { induction l as [|b l IHl]; intros s0; simpl; trivial.
    destruct (body a s0 b); simpl; trivial. }
  rewrite <- E. destruct (forEach (body a) (inner a) s); simpl; trivial.
Qed.

(** A loop invariant over the elements already visited. *)
Lemma forEach_invariant {S A : Type} (body : S -> A -> result S)
    (I : list A -> S -> Prop) (l : list A) (s0 s' : S) :
  I [] s0 ->
  (forall done x s s1, I done s -> body s x = OK s1 -> I (done ++ [x]) s1) ->
  forEach body l s0 = OK s' -> I l s'.
Proof.
  intros H0 Hstep.
  enough (G : forall done s, I done s -> forEach body l s = OK s' -> I (done ++ l) s').
  { intros H. exact (G [] s0 H0 H). }
  induction l as [|x l IH]; intros done s Hs; simpl.
  - intros [= <-]. now rewrite app_nil_r.
  - destruct (body s x) as [s1|e] eqn:E; simpl; [|discriminate].
    intros H. replace (done ++ x :: l) with ((done ++ [x]) ++ l)
      by (rewrite <- app_assoc; reflexivity).
    eapply IH; eauto.
Qed.

(** ** The search for the best split *)

Section SearchFacts.
Variable evaluationFunction : metric.
Variable rows : list row.
Variable currentScore : float.

Local Abbreviation gain := (gainOf evaluationFunction rows currentScore).

Lemma searchBest_candidates :
  searchBest evaluationFunction rows currentScore
  = forEach (fun best '(col, value) =>
               tryValue evaluationFunction rows currentScore col best value)
            (candidates rows) noBest.
Proof.
  unfold searchBest, tryColumn, candidates.
  apply (forEach_nested
           (fun col best value =>
              tryValue evaluationFunction rows currentScore col best value)).
Qed.

Lemma tryValue_eq (col : nat) (best : Best) (value : cell) :
  tryValue evaluationFunction rows currentScore col best value
  = (let* g := gain col value in
     if gtb g (bestGain best) && bothNonEmpty rows col value
     then OK {| bestGain := g;
                bestAttribute := Some (col, value);
                bestSets := Some (divideSet rows col value) |}
     else OK best).
Proof.
  unfold tryValue, bothNonEmpty.
  destruct (divideSet rows col value) as [set1 set2] eqn:D.
  destruct (gainOf evaluationFunction rows currentScore col value); simpl; trivial.

  now rewrite andb_assoc.
Qed.

Local Abbreviation searched := (searched evaluationFunction rows currentScore).

Lemma searched_start : searched [] noBest.
Proof.
  repeat split; simpl; intros; contradiction.
Qed.

Lemma searched_step done col value best best' :
  searched done best ->
  tryValue evaluationFunction rows currentScore col best value = OK best' ->
  searched (done ++ [(col, value)]) best'.
Proof.
  intros (Hall & Hmax & Hbest). rewrite tryValue_eq.
  destruct (gain col value) as [g|e] eqn:G; simpl; [|discriminate].
  assert (Hall' : forall c v, In (c, v) (done ++ [(col, value)]) ->
                              exists g, gain c v = OK g).
  { intros c v [H|[[= <- <-]|[]]]%in_app_or; eauto. }
  destruct (gtb g (bestGain best) && bothNonEmpty rows col value) eqn:T.
  - (* the candidate is accepted *)
    apply andb_true_iff in T. destruct T as [Tg Tn]. unfold gtb in Tg.
    intros [= <-]. split; [exact Hall'|]. simpl. split; [|repeat split; trivial].
    + intros c v g' [H|[[= <- <-]|[]]]%in_app_or Hn Hg; unfold gtb.
      * specialize (Hmax c v g' H Hn Hg). unfold gtb in Hmax.
        destruct (g <? g') eqn:E; trivial.
        rewrite (ltb_trans _ _ _ Tg E) in Hmax. discriminate.
      * assert (g' = g) by congruence. subst. apply ltb_irrefl.
    + unfold gtb. destruct (bestAttribute best) as [[c0 v0]|].
      * destruct Hbest as (_ & _ & Hpos & _). unfold gtb in Hpos.
        eapply ltb_trans; eauto.
      * destruct Hbest as [E _]. now rewrite E in Tg.
    + exists done, []. split; trivial.
      intros c v g' H Hn Hg. specialize (Hmax c v g' H Hn Hg). unfold gtb in Hmax.
      destruct (g' =? g) eqn:E; trivial.
      rewrite eqb_sym in E. rewrite (ltb_eqb_r _ _ _ Tg E) in Hmax. discriminate.
  - (* the candidate is passed over *)
    intros [= <-]. split; [exact Hall'|]. split.
    + intros c v g' [H|[[= <- <-]|[]]]%in_app_or Hn Hg; eauto.
      assert (g' = g) by congruence. subst. rewrite Hn, andb_true_r in T. exact T.
    + destruct (bestAttribute best) as [[c0 v0]|]; trivial.
      destruct Hbest as (Hs & Hg & Hpos & Hn & before & later & Hd & Hfirst).
      repeat split; trivial.
      exists before, (later ++ [(col, value)]). split; trivial.
      rewrite Hd, <- app_assoc. reflexivity.
Qed.

Lemma searchBest_searched best :
  searchBest evaluationFunction rows currentScore = OK best ->
  searched (candidates rows) best.
Proof.
  rewrite searchBest_candidates.
  apply (forEach_invariant _ searched).
  - exact searched_start.
  - intros done [col value] s s1. apply searched_step.
Qed.

End SearchFacts.

(** ** The builder *)

Section GrowFacts.
Variable evaluationFunction : metric.

Local Abbreviation growFrom := (growFrom evaluationFunction).

Local Abbreviation Grown := (Grown evaluationFunction).

Lemma list_eq_dec_nil {A : Type} (l : list A) : {l = []} + {l <> []}.
Proof. destruct l; [now left | now right]. Qed.

Lemma growFrom_empty fuel : growFrom fuel [] = Some (OK emptyDecisionTree).
Proof. destruct fuel; reflexivity. Qed.

Lemma searched_sets rows currentScore best c v :
  searchBest evaluationFunction rows currentScore = OK best ->
  bestAttribute best = Some (c, v) ->
  bestSets best = Some (divideSet rows c v)
  /\ bothNonEmpty rows c v = true.
Proof.
  intros H E. apply searchBest_searched in H. destruct H as (_ & _ & H).
  rewrite E in H. destruct H as (H1 & _ & _ & H2 & _). now split.
Qed.

Lemma searched_none rows currentScore best :
  searchBest evaluationFunction rows currentScore = OK best ->
  gtb (bestGain best) 0 = true ->
  exists c v, bestAttribute best = Some (c, v).
Proof.
  intros H G. apply searchBest_searched in H. destruct H as (_ & _ & H).
  destruct (bestAttribute best) as [[c v]|]; eauto.
  destruct H as [E _]. rewrite E in G. unfold gtb in G.
  now rewrite ltb_irrefl in G.
Qed.

(** The body of the builder on a row set that is not empty. *)
Lemma growFrom_step f rows :
  rows <> [] ->
  growFrom (S f) rows =
  match evaluationFunction rows with
  | Throw e => Some (Throw e)
  | OK currentScore =>
      if PrimFloat.is_nan currentScore then Some (Throw InvalidMetric)
      else
        match searchBest evaluationFunction rows currentScore with
        | Throw e => Some (Throw e)
        | OK best =>
            if gtb (bestGain best) 0 then
              match bestAttribute best, bestSets best with
              | Some (c, v), Some (set1, set2) =>
                  match growFrom f set1 with
                  | None => None
                  | Some (Throw e) => Some (Throw e)
                  | Some (OK tb) =>
                      match growFrom f set2 with
                      | None => None
                      | Some (Throw e) => Some (Throw e)
                      | Some (OK fb) =>
                          Some (OK (newDecisionTree
                                      (Some (Z.of_nat c)) (Some v)
                                      (Some tb) (Some fb) None
                                      (Some (dcY currentScore rows))))
                      end
                  end
              | _, _ => Some (Throw TypeError)
              end
            else
              match uniqueCounts rows with
              | Throw e => Some (Throw e)
              | OK counts =>
                  Some (OK (newDecisionTree None None None None
                              (Some counts) (Some (dcY currentScore rows))))
              end
        end
  end.
Proof.
  destruct rows; [contradiction | reflexivity].
Qed.

Lemma growFrom_Grown fuel rows t :
  growFrom (S fuel) rows = Some (OK t) -> Grown fuel rows t.
Proof.
  destruct (list_eq_dec_nil rows) as [->|NE].
  - simpl. intros [= <-]. now apply GrownEmpty.
  - rewrite growFrom_step by trivial.
    destruct (evaluationFunction rows) as [currentScore|e] eqn:Es; [|discriminate].
    destruct (PrimFloat.is_nan currentScore) eqn:Enan; [discriminate|].
    destruct (searchBest evaluationFunction rows currentScore) as [best|e] eqn:Eb;
      [|discriminate].
    destruct (gtb (bestGain best) 0) eqn:Eg.
    + destruct (searched_none _ _ _ Eb Eg) as (c & v & Ea). rewrite Ea.
      destruct (searched_sets _ _ _ _ _ Eb Ea) as [Esets _]. rewrite Esets.
      destruct (divideSet rows c v) as [set1 set2] eqn:D.
      destruct (growFrom fuel set1) as [[tb|e]|] eqn:G1; try discriminate.
      destruct (growFrom fuel set2) as [[fb|e]|] eqn:G2; try discriminate.
      intros [= <-].
      eapply GrownInternal with (c := c) (v := v); eauto; rewrite ?D; eauto.
    + destruct (uniqueCounts rows) as [counts|e] eqn:Ec; [|discriminate].
      intros [= <-]. eapply GrownLeaf; eauto.
Qed.

(** Fuel: as many units as rows are enough, and more change nothing. *)
Lemma growFrom_enough :
  forall fuel rows, (length rows <= fuel)%nat ->
    growFrom fuel rows <> None
    /\ forall fuel', (length rows <= fuel')%nat -> growFrom fuel' rows = growFrom fuel rows.
Proof.
  induction fuel as [|fuel IH]; intros rows L.
  - destruct rows; [|simpl in L; lia]. split; [discriminate|].
    intros fuel' _. now rewrite !growFrom_empty.
  - destruct rows as [|row0 rows'] eqn:R.
    { split; [discriminate|]. intros fuel' _. now rewrite !growFrom_empty. }
    rewrite <- R in *. assert (NE : rows <> []) by (rewrite R; discriminate).
    assert (Sub : forall currentScore best c v set1 set2,
               searchBest evaluationFunction rows currentScore = OK best ->
               bestAttribute best = Some (c, v) ->
               bestSets best = Some (set1, set2) ->
               (length set1 <= fuel /\ length set2 <= fuel)%nat).
    { intros cs best c v set1 set2 Hb Ha Hs.
      destruct (searched_sets _ _ _ _ _ Hb Ha) as [Hs' Hn].
      rewrite Hs' in Hs. apply bothNonEmpty_lengths in Hn.
      destruct (divideSet rows c v) as [s1 s2]. simpl in Hn.
      injection Hs as <- <-. lia. }
    split.
    + rewrite growFrom_step by trivial.
      destruct (evaluationFunction rows) as [cs|e]; [|discriminate].
      destruct (PrimFloat.is_nan cs); [discriminate|].
      destruct (searchBest evaluationFunction rows cs) as [best|e] eqn:Eb; [|discriminate].
      destruct (gtb (bestGain best) 0);
        [|destruct (uniqueCounts rows); discriminate].
      destruct (bestAttribute best) as [[c v]|] eqn:Ea; [|discriminate].
      destruct (bestSets best) as [[set1 set2]|] eqn:Esets; [|discriminate].
      destruct (Sub _ _ _ _ _ _ Eb Ea Esets) as [L1 L2].
      destruct (IH set1 L1) as [N1 _]. destruct (IH set2 L2) as [N2 _].
      destruct (growFrom fuel set1) as [[tb|e]|]; try discriminate; try congruence.
      destruct (growFrom fuel set2) as [[fb|e]|]; try discriminate; congruence.
    + intros fuel' L'. destruct fuel' as [|fuel']; [rewrite R in L'; simpl in L'; lia|].
      rewrite !growFrom_step by trivial.
      destruct (evaluationFunction rows) as [cs|e]; trivial.
      destruct (PrimFloat.is_nan cs); trivial.
      destruct (searchBest evaluationFunction rows cs) as [best|e] eqn:Eb; trivial.
      destruct (gtb (bestGain best) 0); trivial.
      destruct (bestAttribute best) as [[c v]|] eqn:Ea; trivial.
      destruct (bestSets best) as [[set1 set2]|] eqn:Esets; trivial.
      destruct (Sub _ _ _ _ _ _ Eb Ea Esets) as [L1 L2].
      assert (L1' : (length set1 <= fuel')%nat).
      { destruct (searched_sets _ _ _ _ _ Eb Ea) as [Hs' Hn].
        rewrite Hs' in Esets. apply bothNonEmpty_lengths in Hn.
        destruct (divideSet rows c v) as [s1 s2]. simpl in Hn.
        injection Esets as <- <-. lia. }
      assert (L2' : (length set2 <= fuel')%nat).
      { destruct (searched_sets _ _ _ _ _ Eb Ea) as [Hs' Hn].
        rewrite Hs' in Esets. apply bothNonEmpty_lengths in Hn.
        destruct (divideSet rows c v) as [s1 s2]. simpl in Hn.
        injection Esets as <- <-. lia. }
      destruct (IH set1 L1) as [_ E1]. destruct (IH set2 L2) as [_ E2].
      rewrite (E1 fuel' L1'), (E2 fuel' L2'). reflexivity.
Qed.

End GrowFacts.

Section GrowProperties.
Variable evaluationFunction : metric.

Local Abbreviation growFrom := (growFrom evaluationFunction).
Local Abbreviation Grown := (Grown evaluationFunction).

Lemma counted_divideSet (rows : list row) (c : nat) (v : cell) :
  (length (counted (fst (divideSet rows c v)))
   + length (counted (snd (divideSet rows c v)))
   = length (counted rows))%nat.
Proof.
  unfold divideSet, counted. simpl.
  induction rows as [|row rows IH]; simpl; trivial.
  destruct (splittingFunction c v row); simpl;
    destruct (String.eqb (toString (target row)) "__proto__"); simpl; lia.
Qed.

Lemma counted_fst_divideSet (rows : list row) (c : nat) (v : cell) :
  counted (fst (divideSet rows c v)) = fst (divideSet (counted rows) c v).
Proof.
  unfold divideSet, counted. simpl.
  induction rows as [|row rows IH]; simpl; trivial.
  destruct (splittingFunction c v row) eqn:E; simpl;
    destruct (String.eqb (toString (target row)) "__proto__"); simpl;
    rewrite ?E; simpl; now rewrite IH.
Qed.

Lemma counted_snd_divideSet (rows : list row) (c : nat) (v : cell) :
  counted (snd (divideSet rows c v)) = snd (divideSet (counted rows) c v).
Proof.
  unfold divideSet, counted. simpl.
  induction rows as [|row rows IH]; simpl; trivial.
  destruct (splittingFunction c v row) eqn:E; simpl;
    destruct (String.eqb (toString (target row)) "__proto__"); simpl;
    rewrite ?E; simpl; now rewrite IH.
Qed.

(** Every row that can be counted is counted in one leaf. *)
Lemma growFrom_leafTotal :
  forall fuel rows t,
    growFrom fuel rows = Some (OK t) ->
    leafTotal t = N.of_nat (length (counted rows)).
Proof.
  induction fuel as [|fuel IH]; intros rows t H.
  - destruct rows; [|discriminate]. simpl in H. injection H as <-. reflexivity.
  - apply growFrom_Grown in H.
    destruct H as [-> -> | cs best counts NE Es En Eb Eg Ec -> | cs best c v tb fb NE Es En Eb Eg Ea Esets G1 G2 ->].
    + reflexivity.
    + apply uniqueCounts_OK in Ec. destruct Ec as [_ ->].
      simpl. rewrite tally_total. lia.
    + simpl. rewrite (IH _ _ G1), (IH _ _ G2).
      pose proof (counted_divideSet rows c v). lia.
Qed.

(** Every label keeps the rows that can be counted. *)
Lemma growFrom_labelTotal (label : string) :
  forall fuel rows t,
    growFrom fuel rows = Some (OK t) ->
    labelTotal label t = N.of_nat (length (rowsLabelled label (counted rows))).
Proof.
  induction fuel as [|fuel IH]; intros rows t H.
  - destruct rows; [|discriminate]. simpl in H. injection H as <-. reflexivity.
  - apply growFrom_Grown in H.
    destruct H as [-> -> | cs best counts NE Es En Eb Eg Ec -> | cs best c v tb fb NE Es En Eb Eg Ea Esets G1 G2 ->].
    + reflexivity.
    + apply uniqueCounts_OK in Ec. destruct Ec as [_ ->].
      simpl. rewrite tally_countOf. lia.
    + simpl. rewrite (IH _ _ G1), (IH _ _ G2).
      rewrite counted_fst_divideSet, counted_snd_divideSet.
      pose proof (rowsLabelled_divideSet label (counted rows) c v). lia.
Qed.

(** The nodes built over rows are leaves or internal nodes. *)
Lemma growFrom_twoState :
  forall fuel rows t,
    rows <> [] -> growFrom fuel rows = Some (OK t) -> everyNode twoState t.
Proof.
  induction fuel as [|fuel IH]; intros rows t NE H.
  - destruct rows; [contradiction | discriminate].
  - apply growFrom_Grown in H.
    destruct H as [-> -> | cs best counts _ Es En Eb Eg Ec -> | cs best c v tb fb _ Es En Eb Eg Ea Esets G1 G2 ->].
    + contradiction.
    + simpl. unfold twoState. simpl. intuition congruence.
    + destruct (searched_sets _ _ _ _ _ _ Eb Ea) as [_ Hn].
      apply bothNonEmpty_lengths in Hn. destruct Hn as (_ & _ & N1 & N2).
      simpl. split; [|split; eauto].
      unfold twoState. simpl. intuition congruence.
Qed.

(** The split of every node with two children is the first best one over
    the rows that reach the node. *)
Lemma growFrom_firstBest :
  forall fuel rows t,
    growFrom fuel rows = Some (OK t) ->
    everySplit (firstBest evaluationFunction) rows t.
Proof.
  induction fuel as [|fuel IH]; intros rows t H.
  - destruct rows; [|discriminate]. simpl in H. injection H as <-. exact I.
  - apply growFrom_Grown in H.
    destruct H as [-> -> | cs best counts NE Es En Eb Eg Ec -> | cs best c v tb fb NE Es En Eb Eg Ea Esets G1 G2 ->].
    + exact I.
    + exact I.
    + simpl. exists c, v. repeat split; eauto.
      apply searchBest_searched in Eb.
      destruct Eb as (Hall & Hmax & Hbest). rewrite Ea in Hbest.
      destruct Hbest as (_ & Hg & Hpos & Hn & before & later & Hd & Hfirst).
      exists cs, (bestGain best), before, later.
      repeat split; trivial.
Qed.

(** An exception of the search is an exception of the metric. *)
Lemma gainOf_Throw rows currentScore c v e :
  gainOf evaluationFunction rows currentScore c v = Throw e ->
  exists r, evaluationFunction r = Throw e.
Proof.
  unfold gainOf. destruct (divideSet rows c v) as [set1 set2].
  destruct (evaluationFunction set1) as [s1|e1] eqn:E1; simpl.
  - destruct (evaluationFunction set2) as [s2|e2] eqn:E2; simpl; [discriminate|].
    intros [= <-]. eauto.
  - intros [= <-]. eauto.
Qed.

Lemma forEach_Throw {S A : Type} (body : S -> A -> result S) (l : list A) (s : S) e :
  forEach body l s = Throw e -> exists s' x, In x l /\ body s' x = Throw e.
Proof.
  revert s. induction l as [|x l IH]; intros s; simpl; [discriminate|].
  destruct (body s x) as [s1|e1] eqn:E; simpl.
  - intros H. destruct (IH _ H) as (s' & y & Hy & Hb). eauto.
  - intros [= <-]. eauto.
Qed.

Lemma searchBest_Throw rows currentScore e :
  searchBest evaluationFunction rows currentScore = Throw e ->
  exists r, evaluationFunction r = Throw e.
Proof.
  rewrite searchBest_candidates. intros H.
  apply forEach_Throw in H. destruct H as (best & [c v] & _ & H).
  rewrite tryValue_eq in H.
  destruct (gainOf evaluationFunction rows currentScore c v) as [g|e'] eqn:G;
    simpl in H.
  - destruct (gtb g (bestGain best) && bothNonEmpty rows c v); discriminate.
  - injection H as <-. eapply gainOf_Throw; eauto.
Qed.

(** A gain that is a number comes from two scores that are numbers. *)
Lemma gainOf_not_nan rows currentScore c v g :
  gainOf evaluationFunction rows currentScore c v = OK g ->
  PrimFloat.is_nan g = false ->
  exists s1 s2,
    evaluationFunction (fst (divideSet rows c v)) = OK s1
    /\ evaluationFunction (snd (divideSet rows c v)) = OK s2
    /\ PrimFloat.is_nan s1 = false /\ PrimFloat.is_nan s2 = false.
Proof.
  unfold gainOf. destruct (divideSet rows c v) as [set1 set2]. simpl.
  destruct (evaluationFunction set1) as [s1|e1]; simpl; [|discriminate].
  destruct (evaluationFunction set2) as [s2|e2]; simpl; [|discriminate].
  intros [= <-] N. exists s1, s2.
  apply sub_not_nan in N. destruct N as [N1 N2].
  apply sub_not_nan in N1. destruct N1 as [_ N1].
  apply mul_not_nan in N1. apply mul_not_nan in N2.
  destruct N1 as [_ N1]. destruct N2 as [_ N2]. now repeat split.
Qed.

(** Past the guard on the first score, the check never fires again. *)
Lemma growFrom_no_InvalidMetric :
  (forall r, evaluationFunction r <> Throw InvalidMetric) ->
  forall fuel rows s,
    evaluationFunction rows = OK s -> PrimFloat.is_nan s = false ->
    growFrom fuel rows <> Some (Throw InvalidMetric).
Proof.
  intros Hev. induction fuel as [|fuel IH]; intros rows s Es En.
  - destruct rows; discriminate.
  - destruct (list_eq_dec_nil rows) as [->|NE]; [discriminate|].
    rewrite growFrom_step by trivial. rewrite Es, En.
    destruct (searchBest evaluationFunction rows s) as [best|e] eqn:Eb.
    + destruct (gtb (bestGain best) 0) eqn:Eg.
      2:{ destruct (uniqueCounts rows) as [counts|e] eqn:Ec; [discriminate|].
          apply uniqueCounts_Throw in Ec. destruct Ec as [-> _]. discriminate. }
      destruct (searched_none _ _ _ _ Eb Eg) as (c & v & Ea). rewrite Ea.
      destruct (searched_sets _ _ _ _ _ _ Eb Ea) as [Esets _]. rewrite Esets.
      apply searchBest_searched in Eb. destruct Eb as (_ & _ & Hbest).
      rewrite Ea in Hbest. destruct Hbest as (_ & Hg & Hpos & _).
      unfold gtb in Hpos. apply ltb_not_nan in Hpos. destruct Hpos as [_ Hnn].
      destruct (gainOf_not_nan _ _ _ _ _ Hg Hnn) as (s1 & s2 & E1 & E2 & N1 & N2).
      destruct (divideSet rows c v) as [set1 set2]. simpl in E1, E2.
      pose proof (IH _ _ E1 N1) as I1. pose proof (IH _ _ E2 N2) as I2.
      destruct (growFrom fuel set1) as [[tb|e]|]; try discriminate; try congruence.
      destruct (growFrom fuel set2) as [[fb|e]|]; try discriminate; congruence.
    + apply searchBest_Throw in Eb. destruct Eb as [r Er].
      intros [= ->]. exact (Hev _ Er).
Qed.

Lemma growFrom_InvalidMetric fuel rows s :
  rows <> [] ->
  evaluationFunction rows = OK s -> PrimFloat.is_nan s = true ->
  growFrom (S fuel) rows = Some (Throw InvalidMetric).
Proof.
  intros NE Es En. rewrite growFrom_step by trivial.
  now rewrite Es, En.
Qed.

End GrowProperties.

(** ** The order of the distinct values *)

Lemma eqb_eqb_l (x y z : float) : (x =? z) = true -> (x =? y) = (z =? y).
Proof.
  intros H. apply eqb_rank in H. destruct H as (Nx & Nz & R).
  destruct (x =? y) eqn:E1, (z =? y) eqn:E2; trivial.
  - apply eqb_rank in E1. destruct E1 as (_ & Ny & R1).
    rewrite <- E2. symmetry. apply eqb_rank. repeat split; trivial. congruence.
  - apply eqb_rank in E2. destruct E2 as (_ & Ny & R2).
    rewrite <- E1. apply eqb_rank. repeat split; trivial. congruence.
Qed.

Lemma sameValueZero_sym (a b : cell) : sameValueZero a b = sameValueZero b a.
Proof.
  destruct a, b; simpl; trivial.
  - rewrite eqb_sym. f_equal. apply andb_comm.
  - apply String.eqb_sym.
Qed.

Lemma sameValueZero_setValue (a b : cell) :
  sameValueZero (setValue a) b = sameValueZero a b.
Proof.
  destruct a as [x| | |]; simpl; trivial.
  destruct (PrimFloat.is_zero x) eqn:Z; trivial.
  unfold PrimFloat.is_zero, zero in Z. destruct b as [y| | |]; simpl; trivial.
  rewrite (eqb_eqb_l _ y _ Z).
  apply eqb_not_nan in Z. destruct Z as [Nx _]. now rewrite Nx.
Qed.

Lemma isNumber_setValue (a : cell) : isNumber (setValue a) = isNumber a.
Proof.
  destruct a as [x| | |]; simpl; trivial.
  destruct (PrimFloat.is_zero x) eqn:Z; trivial.
  unfold PrimFloat.is_zero, zero in Z. apply eqb_not_nan in Z. destruct Z as [Nx N0].
  simpl. now rewrite Nx.
Qed.

(** The set holds values of the column, none twice. *)
Lemma setFrom_In (seen l : list cell) (z : cell) :
  In z (setFrom seen l) ->
  (exists x, In x l /\ z = setValue x)
  /\ forall s, In s seen -> sameValueZero z s = false.
Proof.
  revert seen. induction l as [|x l IH]; intros seen; simpl; [contradiction|].
  destruct (existsb (sameValueZero x) seen) eqn:E.
  - intros H. destruct (IH _ H) as [(x' & Hx' & ->) Hs]. split; eauto.
  - intros [<- | H].
    + split; [eauto|]. intros s Hs. rewrite sameValueZero_setValue.
      destruct (sameValueZero x s) eqn:S; trivial.
      assert (X : existsb (sameValueZero x) seen = true)
        by (apply existsb_exists; eauto).
      congruence.
    + destruct (IH _ H) as [(x' & Hx' & ->) Hs]. split; eauto.
      intros s Hin. apply Hs. now right.
Qed.

Lemma setFrom_distinct (seen l : list cell) :
  ForallOrdPairs (fun a b => sameValueZero a b = false) (setFrom seen l).
Proof.
  revert seen. induction l as [|x l IH]; intros seen; simpl; [constructor|].
  destruct (existsb (sameValueZero x) seen); [apply IH|].
  constructor; [|apply IH].
  apply Forall_forall. intros z Hz.
  destruct (setFrom_In _ _ _ Hz) as [_ Hs].
  rewrite sameValueZero_setValue, sameValueZero_sym. apply Hs. now left.
Qed.

(** Every value of the column is in the set, up to SameValueZero. *)
Lemma setFrom_complete (seen l : list cell) (x : cell) :
  In x l ->
  existsb (sameValueZero x) seen = true
  \/ exists z, In z (setFrom seen l) /\ sameValueZero x z = true.
Proof.
  revert seen. induction l as [|y l IH]; intros seen; simpl; [contradiction|].
  intros [-> | H].
  - destruct (existsb (sameValueZero x) seen) eqn:E; [now left|]. right.
    exists (setValue x). split; [now left|].
    rewrite sameValueZero_sym, sameValueZero_setValue.
    destruct x as [f| | |]; simpl; trivial.
    + destruct (PrimFloat.is_nan f) eqn:N; [now rewrite orb_true_r|].
      unfold PrimFloat.is_nan in N. apply negb_false_iff in N. now rewrite N.
    + apply String.eqb_refl.
  - destruct (existsb (sameValueZero y) seen) eqn:E; [now apply IH|].
    destruct (IH (y :: seen) H) as [S | (z & Hz & Sz)].
    + simpl in S. apply orb_true_iff in S. destruct S as [S | S]; [|now left].
      right. exists (setValue y). split; [now left|].
      now rewrite sameValueZero_sym, sameValueZero_setValue, sameValueZero_sym.
    + right. exists z. split; [now right | trivial].
Qed.

(** The sort moves values, it neither adds nor drops any. *)
Lemma insert_Permutation (x : cell) (l : list cell) :
  Permutation (insert x l) (x :: l).
Proof.
  induction l as [|y l IH]; simpl; [reflexivity|].
  destruct (sortsBefore y x); [|reflexivity].
  rewrite IH. apply perm_swap.
Qed.

Lemma stableSort_Permutation (l : list cell) : Permutation (stableSort l) l.
Proof.
  induction l as [|x l IH]; simpl; [reflexivity|].
  rewrite insert_Permutation. now constructor.
Qed.

Lemma insertAt_Permutation (place : nat) (x : cell) (l : list cell) :
  Permutation (insertAt place x l) (x :: l).
Proof.
  revert place. induction l as [|y l IH]; intros [|place]; simpl; try reflexivity.
  rewrite IH. apply perm_swap.
Qed.

Lemma arrange_Permutation (places : list nat) (l : list cell) :
  Permutation (arrange places l) l.
Proof.
  revert places. induction l as [|x l IH]; intros places; simpl; [reflexivity|].
  rewrite insertAt_Permutation. now constructor.
Qed.

(** Whatever the engine, the sort hands back the values it was given. *)
Lemma sort_Permutation (l : list cell) : Permutation (sort l) l.
Proof.
  unfold sort. destruct (consistent l).
  - apply stableSort_Permutation.
  - apply arrange_Permutation.
Qed.

(** The comparator orders numbers, and it orders strings that spell none. *)
Lemma consistent_numbers (l : list cell) :
  Forall (fun x => isNumber x = true) l -> consistent l = true.
Proof.
  intros H. unfold consistent. cbv zeta. apply orb_true_iff. left.
  apply orb_true_iff. right.
  apply forallb_forall. intros x Hx.
  apply in_map_iff in Hx. destruct Hx as (v & <- & Hv).
  apply filter_In in Hv. destruct Hv as [Hv _].
  rewrite Forall_forall in H. specialize (H v Hv).
  destruct v; simpl in *; try discriminate. exact H.
Qed.

Lemma consistent_strings (l : list cell) :
  (forall z, In z l ->
     exists s, z = Str s /\ PrimFloat.is_nan (stringToNumber s) = true) ->
  consistent l = true.
Proof.
  intros H. unfold consistent. cbv zeta. apply orb_true_iff. left.
  apply orb_true_iff. left.
  apply forallb_forall. intros x Hx.
  apply in_map_iff in Hx. destruct Hx as (v & <- & Hv).
  apply filter_In in Hv. destruct Hv as [Hv _].
  destruct (H v Hv) as (s & -> & N). exact N.
Qed.

(** Values that the comparator does not tell apart keep their order. *)
Lemma sort_unordered (l : list cell) :
  (forall x y, In x l -> In y l -> sortsBefore y x = false) -> stableSort l = l.
Proof.
  induction l as [|x l IH]; intros H; simpl; trivial.
  rewrite IH by (intros; apply H; now right).
  destruct l as [|y l]; simpl; trivial.
  rewrite H; trivial; [now left | now right; left].
Qed.

(** On numbers the comparator is the order of the numbers. *)
Lemma sortsBefore_numbers (a b : cell) :
  isNumber a = true -> isNumber b = true ->
  (sortsBefore a b = true <-> numLt a b).
Proof.
  destruct a as [x| | |], b as [y| | |]; simpl; try discriminate.
  intros Nx Ny. apply negb_true_iff in Nx, Ny.
  unfold comparefn. simpl. now rewrite sub_negative.
Qed.

Lemma numLt_trans (a b c : cell) : numLt a b -> numLt b c -> numLt a c.
Proof.
  destruct a, b, c; simpl; try contradiction. apply ltb_trans.
Qed.

Lemma numLt_total (a b : cell) :
  isNumber a = true -> isNumber b = true -> sameValueZero a b = false ->
  numLt a b \/ numLt b a.
Proof.
  destruct a as [x| | |], b as [y| | |]; simpl; try discriminate.
  intros Nx Ny S. apply negb_true_iff in Nx, Ny.
  apply orb_false_iff in S. destruct S as [S _].
  destruct (ltb_total x y Nx Ny) as [H | [H | H]]; auto. congruence.
Qed.

Lemma insert_ascending (x : cell) (l : list cell) :
  ascending l ->
  isNumber x = true ->
  Forall (fun y => isNumber y = true /\ sameValueZero x y = false) l ->
  ascending (insert x l).
Proof.
  unfold ascending. intros S Nx. induction S as [|y l S IH L]; intros F; simpl.
  - repeat constructor.
  - inversion F as [|? ? [Ny D] F']; subst.
    destruct (sortsBefore y x) eqn:B.
    + apply sortsBefore_numbers in B; trivial.
      constructor; [now apply IH|].
      apply Forall_forall. intros z Hz.
      apply (Permutation_in _ (insert_Permutation x l)) in Hz.
      destruct Hz as [<- | Hz]; trivial.
      rewrite Forall_forall in L. now apply L.
    + assert (Lxy : numLt x y).
      { destruct (numLt_total x y Nx Ny D) as [H | H]; trivial.
        apply sortsBefore_numbers in H; trivial. congruence. }
      constructor; [now constructor|].
      constructor; trivial.
      rewrite Forall_forall in *. intros z Hz.
      eapply numLt_trans; eauto.
Qed.

Lemma sort_ascending (l : list cell) :
  Forall (fun x => isNumber x = true) l ->
  ForallOrdPairs (fun a b => sameValueZero a b = false) l ->
  ascending (stableSort l).
Proof.
  intros N D. induction D as [|x l Hx D IH]; simpl.
  - constructor.
  - inversion N as [|? ? Nx N']; subst.
    apply insert_ascending; auto.
    rewrite Forall_forall in *. intros y Hy.
    apply (Permutation_in _ (stableSort_Permutation l)) in Hy. auto.
Qed.

(** A column of numbers is visited in ascending order. *)
Lemma lsUnique_numeric (rows : list row) (col : nat) :
  numericColumn rows col -> ascending (lsUnique rows col).
Proof.
  intros H. unfold lsUnique, sort.
  assert (N : Forall (fun x => isNumber x = true)
                (setFrom [] (map (fun row => at_ row col) rows))).
  { apply Forall_forall. intros z Hz.
    destruct (setFrom_In _ _ _ Hz) as [(x & Hx & ->) _].
    rewrite isNumber_setValue.
    apply in_map_iff in Hx. destruct Hx as (row & <- & Hrow). now apply H. }
  rewrite (consistent_numbers _ N).
  apply sort_ascending; [exact N | apply setFrom_distinct].
Qed.

(** A column of strings that spell no number is visited in the order of
    first occurrence. *)
Lemma lsUnique_strings (rows : list row) (col : nat) :
  stringColumn rows col ->
  lsUnique rows col = setFrom [] (map (fun row => at_ row col) rows).
Proof.
  intros H. unfold lsUnique, sort.
  assert (S : forall z, In z (setFrom [] (map (fun row => at_ row col) rows)) ->
                 exists s, z = Str s /\ PrimFloat.is_nan (stringToNumber s) = true).
  { intros z Hz. destruct (setFrom_In _ _ _ Hz) as [(x & Hx & ->) _].
    apply in_map_iff in Hx. destruct Hx as (row & <- & Hrow).
    destruct (H row Hrow) as (s & -> & N). simpl. eauto. }
  rewrite (consistent_strings _ S). apply sort_unordered.
  intros x y Hx Hy.
  destruct (S x Hx) as (sx & -> & Nx). destruct (S y Hy) as (sy & -> & Ny).
  simpl. unfold comparefn. simpl.
  apply ltb_nan_l. now apply sub_nan_l.
Qed.

(** The values visited in a column are its distinct values. *)
Lemma lsUnique_complete (rows : list row) (col : nat) (row : row) :
  In row rows ->
  exists value, In value (lsUnique rows col)
                /\ sameValueZero (at_ row col) value = true.
Proof.
  intros H. unfold lsUnique.
  destruct (setFrom_complete [] (map (fun row => at_ row col) rows) (at_ row col))
    as [S | (z & Hz & Sz)].
  - apply in_map_iff. eauto.
  - discriminate.
  - exists z. split; trivial.
    apply (Permutation_in _ (Permutation_sym (sort_Permutation _))). exact Hz.
Qed.

(** ** The pruner *)

Section PruneFacts.
Variable minGain : float.
Variable evaluationFunction : metric.
Variable notify : bool.

Local Abbreviation prune' t := (prune t minGain evaluationFunction notify).
Local Abbreviation pruneChild' t := (pruneChild t minGain evaluationFunction notify).

(** The body of [prune] on a node that has a true branch. *)
Lemma prune_unfold c v tb0 fb r s :
  prune' (mkDecisionTree c v (Some tb0) fb r s)
  = let call1 := pruneChild' tb0 in
    let tbNode := after call1 in
    match thrown call1 with
    | Some e =>
        mkPruned (mkDecisionTree c v (Some tbNode) fb r s) (logged call1) (Some e)
    | None =>
        match fb with
        | None =>
            mkPruned (mkDecisionTree c v (Some tbNode) None r s)
                     (logged call1) (Some TypeError)
        | Some fb0 =>
            let call2 := pruneChild' fb0 in
            let fbNode := after call2 in
            let log := logged call1 ++ logged call2 in
            let unchanged := mkDecisionTree c v (Some tbNode) (Some fbNode) r s in
            match thrown call2 with
            | Some e => mkPruned unchanged log (Some e)
            | None =>
                match results tbNode, results fbNode with
                | Some tResults, Some fResults =>
                    let tb := pseudoRows tResults in
                    let fb := pseudoRows fResults in
                    match pruneDelta evaluationFunction tb fb with
                    | Throw e => mkPruned unchanged log (Some e)
                    | OK delta =>
                        if delta <? minGain then
                          let log := log ++ (if notify then [delta] else []) in
                          match uniqueCounts (tb ++ fb) with
                          | OK counts =>
                              mkPruned
                                (mkDecisionTree c v None None (Some counts) s)
                                log None
                          | Throw e =>
                              mkPruned (mkDecisionTree c v None None r s)
                                       log (Some e)
                          end
                        else mkPruned unchanged log None
                    end
                | _, _ => mkPruned unchanged log None
                end
            end
        end
    end.
Proof. reflexivity. Qed.

(** A call that returns found both children in place. *)
Lemma prune_returns_children t :
  thrown (prune' t) = None ->
  exists tb0 fb0, trueBranch t = Some tb0 /\ falseBranch t = Some fb0.
Proof.
  destruct t as [c v [tb0|] fb r s]; [|discriminate].
  rewrite prune_unfold. cbv zeta.
  destruct (thrown (pruneChild' tb0)); [discriminate|].
  destruct fb as [fb0|]; [|discriminate]. simpl. eauto.
Qed.

(** [prune] keeps the two states apart. *)
Lemma twoState_same_shape (t t' : DecisionTree) :
  (results t = None <-> results t' = None) ->
  (trueBranch t = None <-> trueBranch t' = None) ->
  (falseBranch t = None <-> falseBranch t' = None) ->
  twoState t -> twoState t'.
Proof.
  clear. unfold twoState. tauto.
Qed.

(** The invariant says: a leaf or an internal node, and never both. *)
Lemma twoState_exactly_one (t : DecisionTree) :
  twoState t <-> exactlyOneState t.
Proof.
  clear. unfold twoState, exactlyOneState, isLeaf, isInternal.
  destruct (results t), (trueBranch t), (falseBranch t); intuition congruence.
Qed.

(** A gain that is below [minGain] is a number, and so is the score of the
    combined rows it was computed from. *)
Lemma pruneDelta_number (tb fb : list row) (delta : float) :
  pruneDelta evaluationFunction tb fb = OK delta ->
  (delta <? minGain) = true ->
  exists scoreAll,
    evaluationFunction (tb ++ fb) = OK scoreAll
    /\ PrimFloat.is_nan scoreAll = false.
Proof.
  unfold pruneDelta.
  destruct (evaluationFunction (tb ++ fb)) as [scoreAll|e]; [|discriminate].
  destruct (evaluationFunction tb) as [scoreT|e]; [|discriminate].
  destruct (evaluationFunction fb) as [scoreF|e]; [|discriminate].
  cbn [bind]. intros [= <-] L. exists scoreAll. split; trivial.
  apply ltb_not_nan in L. destruct L as [L _].
  apply sub_not_nan in L. destruct L as [L _].
  apply sub_not_nan in L. now destruct L as [L _].
Qed.

(** With a metric that counts first, a collapse finds counts to store. *)
Lemma collapse_counts (tb fb : list row) (delta : float) :
  countsFirst evaluationFunction ->
  pruneDelta evaluationFunction tb fb = OK delta ->
  (delta <? minGain) = true ->
  exists counts, uniqueCounts (tb ++ fb) = OK counts.
Proof.
  intros Hc D L. destruct (pruneDelta_number _ _ _ D L) as (scoreAll & E & N).
  exact (Hc _ _ E N).
Qed.

Lemma prune_twoState :
  countsFirst evaluationFunction ->
  forall t, everyNode twoState t -> everyNode twoState (after (prune' t)).
Proof.
  intros Hc.
  induction t as [c v tb IHtb fb IHfb r s].
  intros Ht. destruct tb as [tb0|]; [|exact Ht].
  rewrite prune_unfold. cbv zeta.
  destruct Ht as (Hroot & Htb & Hfb).
  assert (Htb' : everyNode twoState (after (pruneChild' tb0))).
  { unfold pruneChild. inversion IHtb as [? IH|]; subst.
    destruct (results tb0); [exact Htb | now apply IH]. }
  assert (Shape : forall tb1 fb1 : DecisionTree,
             match fb with Some _ => True | None => False end ->
             twoState (mkDecisionTree c v (Some tb1) (Some fb1) r s)).
  { intros tb1 fb1 F. revert Hroot. apply twoState_same_shape; simpl;
      try reflexivity; destruct fb; try contradiction; split; discriminate. }
  destruct (thrown (pruneChild' tb0)).
  { simpl. split; [|split; trivial].
    revert Hroot. apply twoState_same_shape; simpl; try reflexivity.
    split; discriminate. }
  destruct fb as [fb0|].
  2:{ simpl. split; [|split; trivial].
      revert Hroot. apply twoState_same_shape; simpl; try reflexivity.
      split; discriminate. }
  assert (Hfb' : everyNode twoState (after (pruneChild' fb0))).
  { unfold pruneChild. inversion IHfb as [? IH|]; subst.
    destruct (results fb0); [exact Hfb | now apply IH]. }
  assert (Keep : everyNode twoState
            (mkDecisionTree c v (Some (after (pruneChild' tb0)))
               (Some (after (pruneChild' fb0))) r s)).
  { simpl. split; [now apply Shape | now split]. }
  destruct (thrown (pruneChild' fb0)); [exact Keep|].
  destruct (results (after (pruneChild' tb0))) as [tr|]; [|exact Keep].
  destruct (results (after (pruneChild' fb0))) as [fr|]; [|exact Keep].
  destruct (pruneDelta evaluationFunction (pseudoRows tr) (pseudoRows fr))
    as [delta|e] eqn:D; [|exact Keep].
  destruct (delta <? minGain) eqn:L; [|exact Keep].
  destruct (collapse_counts _ _ _ Hc D L) as [counts ->].
  simpl. split; [|now split].
  unfold twoState. simpl. split; split; try discriminate; try (now split).
  - intros [H _]. now contradiction H.
Qed.

End PruneFacts.

Lemma everyNode_impl (P Q : DecisionTree -> Prop) :
  (forall n, P n -> Q n) -> forall t, everyNode P t -> everyNode Q t.
Proof.
  intros PQ. induction t as [c v tb IHtb fb IHfb r s].
  intros (Hroot & Htb & Hfb). simpl. split; [now apply PQ|]. split.
  - destruct tb as [tb0|]; trivial. inversion IHtb as [? IH|]; subst. now apply IH.
  - destruct fb as [fb0|]; trivial. inversion IHfb as [? IH|]; subst. now apply IH.
Qed.

(** A [prune] call anywhere in the tree, with a metric that counts first,
    keeps the invariant everywhere. *)
Lemma pruneCall_twoState (t t' : DecisionTree) :
  pruneCall countsFirst t t' -> everyNode twoState t -> everyNode twoState t'.
Proof.
  induction 1 as [t minGain ev notify Hc
                 | c v tb tb' fb r s _ IH
                 | c v tb fb fb' r s _ IH].
  - now apply prune_twoState.
  - intros (Hroot & Htb & Hfb). simpl. split; [|split; [now apply IH | exact Hfb]].
    revert Hroot. apply twoState_same_shape; simpl; try reflexivity.
    split; discriminate.
  - intros (Hroot & Htb & Hfb). simpl. split; [|split; [exact Htb | now apply IH]].
    revert Hroot. apply twoState_same_shape; simpl; try reflexivity.
    split; discriminate.
Qed.

(** [gini] and [entropy] count first: they call [uniqueCounts] before
    anything else. *)
Lemma gini_countsFirst : countsFirst GINI.
Proof.
  intros rows score. unfold GINI, gini.
  destruct (uniqueCounts rows) as [counts|e]; [eauto | discriminate].
Qed.

Lemma entropy_countsFirst (log2 : float -> float) : countsFirst (ENTROPY log2).
Proof.
  intros rows score. unfold ENTROPY, entropy.
  destruct (uniqueCounts rows) as [counts|e]; [eauto | discriminate].
Qed.

(** ** variance *)

Lemma variance_empty : variance [] = OK 0.
Proof. reflexivity. Qed.

(** [variance] throws exactly when the first target that is no number is
    truthy. *)
Lemma variance_throws_iff (rows : list row) (e : exn) :
  variance rows = Throw e
  <-> rows <> [] /\ e = InvalidTargetType
      /\ exists p, find (fun p => negb (isNumber p)) (map target rows) = Some p
                   /\ truthy p = true.
Proof.
  unfold variance. destruct rows as [|row rows]; simpl length; cbn [Nat.eqb].
  - split; [discriminate | intros [H _]; now contradiction H].
  - destruct (find (fun p => negb (isNumber p)) (map target (row :: rows))) as [p|].
    + destruct (truthy p) eqn:T.
      * split.
        -- intros [= <-]. repeat split; [discriminate | eauto].
        -- intros (_ & -> & _). reflexivity.
      * split; [discriminate|]. intros (_ & _ & q & [= <-] & Hq). congruence.
    + split; [discriminate|]. intros (_ & _ & q & H & _). discriminate.
Qed.

(** ** The classifiers *)

Lemma strictEq_Null v : strictEq v Null = true <-> v = Null.
Proof. destruct v; simpl; split; congruence. Qed.

(** Both classifiers stop at a node that has results. *)
Lemma classify_leaf observations t r dataMissing :
  results t = Some r -> classify observations t dataMissing = OK (distribution r).
Proof.
  destruct t as [c v tb fb r0 s]. simpl. intros ->.
  destruct dataMissing; reflexivity.
Qed.



(** Missing-data routing at a node without results, value missing. *)
Lemma classifyWithMissingData_merge observations t tb fb tr fr :
  results t = None ->
  observed observations (col t) = Null ->
  trueBranch t = Some tb -> falseBranch t = Some fb ->
  classifyWithMissingData observations tb = OK tr ->
  classifyWithMissingData observations fb = OK fr ->
  classifyWithMissingData observations t = merge tr fr.
Proof.
  destruct t as [c v tb0 fb0 r s]. simpl. intros -> -> -> -> Htr Hfr. simpl.
  rewrite Htr. simpl. rewrite Hfr. reflexivity.
Qed.

(** [sum] over numbers adds them up from 0, left to right. *)
Lemma sum_numbers (l : list float) (acc : float) :
  fold_left (fun acc value => plus acc value) (map Num l) (Num acc)
  = Num (fold_left PrimFloat.add l acc).
Proof.
  revert acc. induction l as [|x l IH]; intros acc; simpl; trivial.
Qed.

Lemma total_eq (o : object float) :
  total o = fold_left PrimFloat.add (values o) 0.
Proof.
  unfold total, sum. now rewrite sum_numbers.
Qed.

(** *** variance over rows whose labels cannot be counted *)

Lemma append_assoc (a b c : string) : ((a ++ b) ++ c = a ++ (b ++ c))%string.
Proof.
  induction a as [|x a IH]; simpl; [reflexivity | now rewrite IH].
Qed.

Lemma append_empty_r (a : string) : (a ++ EmptyString = a)%string.
Proof.
  induction a as [|x a IH]; simpl; [reflexivity | now rewrite IH].
Qed.

(** Once [sum] has met the string [hasOwnProperty], its result spells it. *)
Lemma sum_spellsTheMethod (array : list cell) :
  forall acc,
    spellsTheMethod acc \/ In (Str "hasOwnProperty") array ->
    spellsTheMethod (fold_left (fun acc value => plus acc value) array acc).
Proof.
  induction array as [|v array IH]; intros acc H.
  - destruct H as [H | []]. exact H.
  - cbn [fold_left]. apply IH.
    destruct H as [(a & b & ->) | [-> | H]].
    + left. exists a, (b ++ toString v)%string. cbn [plus toString].
      now rewrite !append_assoc.
    + left. exists (toString acc), EmptyString.
      destruct acc; cbn [plus toString]; now rewrite ?append_empty_r.
    + now right.
Qed.

(** A sum of numbers that holds a NaN is NaN. *)
Lemma fold_add_nan (l : list float) :
  forall acc,
    PrimFloat.is_nan acc = true \/ (l <> [] /\ Forall (fun x => PrimFloat.is_nan x = true) l) ->
    PrimFloat.is_nan (fold_left PrimFloat.add l acc) = true.
Proof.
  induction l as [|x l IH]; intros acc H.
  - destruct H as [H | [H _]]; [exact H | now contradiction H].
  - cbn [fold_left]. apply IH. left.
    destruct H as [H | [_ H]].
    + rewrite is_nan_spec in *. rewrite add_spec, H.
      now destruct (Prim2SF x) as [| | |[] ? ?].
    + inversion H as [|? ? Hx Hl]; subst. now apply add_nan_r.
Qed.

Section VarianceCounts.

(** Two facts about the host: no number is spelled [hasOwnProperty], and no
    string that holds that word spells a number. *)
Hypothesis numberToString_number :
  forall x, numberToString x <> "hasOwnProperty"%string.
Hypothesis stringToNumber_word :
  forall a b,
    PrimFloat.is_nan (stringToNumber (a ++ "hasOwnProperty" ++ b)) = true.

Lemma shadowed_label (rows : list row) :
  shadowed rows = true ->
  exists row, In row rows /\ toString (target row) = "hasOwnProperty"%string.
Proof using Type.
  induction rows as [|row rows IH]; [discriminate|].
  cbn [shadowed]. intros H. apply orb_true_iff in H. destruct H as [H | H].
  - apply andb_true_iff in H. destruct H as [H _]. apply String.eqb_eq in H.
    exists row. split; [now left | exact H].
  - destruct (IH H) as (r & Hr & E). exists r. split; [now right | exact E].
Qed.

(** Where the labels cannot be counted, [variance] throws or returns NaN. *)
Lemma variance_countsFirst : countsFirst VARIANCE.
Proof using numberToString_number stringToNumber_word.
  intros rows score E N. unfold VARIANCE in E.
  destruct (uniqueCounts rows) as [counts|e] eqn:Ec; [eauto|].
  exfalso. apply uniqueCounts_Throw in Ec. destruct Ec as [_ Hs].
  destruct (shadowed_label rows Hs) as (row & Hrow & Hl).
  assert (Ht : target row = Str "hasOwnProperty").
  { destruct (target row) as [x|s| |]; cbn [toString] in Hl.
    - now apply numberToString_number in Hl.
    - now subst s.
    - discriminate.
    - discriminate. }
  assert (Hin : In (Str "hasOwnProperty") (map target rows)).
  { rewrite <- Ht. now apply in_map. }
  unfold variance in E.
  destruct (length rows =? 0)%nat eqn:L.
  { apply Nat.eqb_eq, length_zero_iff_nil in L. subst rows. contradiction. }
  destruct (match find (fun p => negb (isNumber p)) (map target rows) with
            | Some p => truthy p
            | None => false
            end); [discriminate|].
  injection E as <-.
  assert (M : PrimFloat.is_nan
                (toNumber (sum (map target rows))
                 / ofNat (length (map target rows))) = true).
  { apply div_nan_l. unfold sum.
    destruct (sum_spellsTheMethod (map target rows) (Num 0) (or_intror Hin))
      as (a & b & ->).
    cbn [toNumber]. apply stringToNumber_word. }
  rewrite <- not_true_iff_false in N. apply N. apply div_nan_l.
  set (mean := toNumber (sum (map target rows))
               / ofNat (length (map target rows))) in *.
  replace (map (fun d => Num (square (toNumber d - mean))) (map target rows))
    with (map Num (map (fun d => square (toNumber d - mean)) (map target rows)))
    by (now rewrite map_map).
  unfold sum. rewrite sum_numbers. cbn [toNumber]. apply fold_add_nan. right. split.
  - destruct rows; [contradiction | discriminate].
  - apply Forall_forall. intros x Hx. apply in_map_iff in Hx.
    destruct Hx as (d & <- & _). unfold square. apply mul_nan_l. now apply sub_nan_r.
Qed.

End VarianceCounts.

(** The weight of a label after one of the two loops of the merge, on
    ordinary keys. *)
Lemma get_weigh (w : float) (entries result : object float) (k : string) :
  NoDup (keys entries) ->
  get k (weigh w entries result)
  = match get k entries with
    | Some v =>
        Some (match get k result with Some old => old | None => 0 end + v * w)
    | None => get k result
    end.
Proof.
  unfold weigh. revert result.
  induction entries as [|[k0 v0] entries IH]; intros result ND; simpl; trivial.
  inversion ND as [|? ? Hnotin ND']; subst.
  rewrite IH by trivial. clear IH.
  assert (Hnone : String.eqb k k0 = true -> get k entries = None).
  { intros E. apply String.eqb_eq in E. subst. now apply get_None_keys. }
  destruct (String.eqb_spec k k0) as [->|Hk].
  - rewrite (Hnone eq_refl).
    destruct (hasOwnProperty k0 result) eqn:H; simpl.
    + apply hasOwnProperty_get in H. destruct H as [old Hold]. rewrite Hold.
      now rewrite get_set_same.
    + apply hasOwnProperty_false in H. rewrite H.
      now rewrite !get_set_same.
  - assert (E : get k
       (match get k0 (if negb (hasOwnProperty k0 result) then set k0 0 result else result) with
        | Some old => set k0 (old + v0 * w)
                        (if negb (hasOwnProperty k0 result) then set k0 0 result else result)
        | None => if negb (hasOwnProperty k0 result) then set k0 0 result else result
        end) = get k result).
    { destruct (hasOwnProperty k0 result) eqn:H; simpl.
      - apply hasOwnProperty_get in H. destruct H as [old Hold]. rewrite Hold.
        now rewrite get_set_other.
      - rewrite get_set_same. now rewrite !get_set_other. }
    rewrite E. reflexivity.
Qed.

Lemma NoDup_weigh (w : float) (entries result : object float) :
  NoDup (keys result) -> NoDup (keys (weigh w entries result)).
Proof.
  unfold weigh. revert result.
  induction entries as [|[k0 v0] entries IH]; intros result ND; simpl; trivial.
  apply IH.
  destruct (hasOwnProperty k0 result) eqn:H; simpl.
  - apply hasOwnProperty_get in H. destruct H as [old Hold]. rewrite Hold.
    now apply NoDup_keys_set.
  - rewrite get_set_same. now apply NoDup_keys_set, NoDup_keys_set.
Qed.

Lemma get_weighEntry_other (w : float) (result : object float) (k k' : string)
    (v : float) :
  k' <> k -> get k' (weighEntry w result (k, v)) = get k' result.
Proof.
  intros Hk. unfold weighEntry.
  destruct (hasOwnProperty k result) eqn:H; simpl negb; cbv iota.
  - apply hasOwnProperty_get in H. destruct H as [old Hold]. rewrite Hold.
    now apply get_set_other.
  - rewrite get_set_same. now rewrite !get_set_other.
Qed.

Lemma hasOwnProperty_weighEntry (w : float) (result : object float) (k : string)
    (v : float) :
  hasOwnProperty k (weighEntry w result (k, v)) = true.
Proof.
  unfold weighEntry.
  destruct (hasOwnProperty k result) eqn:H; simpl negb; cbv iota.
  - apply hasOwnProperty_get in H. destruct H as [old Hold]. rewrite Hold.
    apply hasOwnProperty_get. eexists. apply get_set_same.
  - rewrite get_set_same. apply hasOwnProperty_get. eexists. apply get_set_same.
Qed.

(** While the method is in reach, an entry under another name than
    [__proto__] is weighed in. *)
Lemma addEntry_plain (w : float) (result : object float) (k : string) (v : float) :
  hasOwnProperty "hasOwnProperty" result = false ->
  k <> "__proto__"%string ->
  addEntry w result (k, v) = OK (weighEntry w result (k, v)).
Proof.
  intros Hm Hp. unfold addEntry, weighEntry, callHasOwnProperty, assign.
  rewrite Hm. cbn [bind].
  apply String.eqb_neq in Hp. rewrite Hp. cbn [andb].
  destruct (get k (if negb (hasOwnProperty k result) then set k 0 result else result));
    reflexivity.
Qed.

(** Once a weight is stored under [hasOwnProperty], the next entry throws. *)
Lemma addEntry_shadowed (w : float) (result : object float) (entry : string * float) :
  hasOwnProperty "hasOwnProperty" result = true ->
  addEntry w result entry = Throw TypeError.
Proof.
  intros Hm. destruct entry as [k v]. unfold addEntry, callHasOwnProperty.
  now rewrite Hm.
Qed.

(** On plain keys a loop of the merge returns, and weighs every entry in. *)
Lemma addWeighted_plain (w : float) (entries : object float) :
  forall result : object float,
    (forall k, In k (keys entries) -> plainKey k) ->
    hasOwnProperty "hasOwnProperty" result = false ->
    addWeighted w entries result = OK (weigh w entries result)
    /\ hasOwnProperty "hasOwnProperty" (weigh w entries result) = false.
Proof.
  unfold addWeighted, weigh.
  induction entries as [|[k v] entries IH]; intros result Hk Hm; [now split|].
  cbn [forEach fold_left].
  destruct (Hk k) as [Hk1 Hk2]; [now left|].
  rewrite (addEntry_plain _ _ _ _ Hm Hk2). cbn [bind].
  apply IH.
  - intros k' Hk'. apply Hk. now right.
  - unfold hasOwnProperty in *. rewrite get_weighEntry_other; trivial.
    congruence.
Qed.

(** The weight of every label in the merged distribution. *)
Lemma get_merge (tr fr : object float) :
  NoDup (keys tr) -> NoDup (keys fr) ->
  (forall k, In k (keys tr) -> plainKey k) ->
  (forall k, In k (keys fr) -> plainKey k) ->
  let tCount := total tr in
  let fCount := total fr in
  let tw := tCount / (tCount + fCount) in
  let fw := fCount / (tCount + fCount) in
  exists result,
    merge tr fr = OK result
    /\ NoDup (keys result)
    /\ forall k,
        get k result
        = match get k tr, get k fr with
          | Some a, Some b => Some (0 + a * tw + b * fw)
          | Some a, None => Some (0 + a * tw)
          | None, Some b => Some (0 + b * fw)
          | None, None => None
          end.
Proof.
  intros NDt NDf Pt Pf. cbv zeta. unfold merge.
  destruct (addWeighted_plain (total tr / (total tr + total fr)) tr [] Pt eq_refl)
    as [E1 H1].
  rewrite E1. cbn [bind].
  destruct (addWeighted_plain (total fr / (total tr + total fr)) fr _ Pf H1)
    as [E2 _].
  rewrite E2. eexists. split; [reflexivity|]. split.
  - apply NoDup_weigh, NoDup_weigh. constructor.
  - intros k. rewrite get_weigh by trivial. rewrite get_weigh by trivial. simpl.
    destruct (get k tr), (get k fr); reflexivity.
Qed.

(** A loop of the merge throws nothing but a TypeError. *)
Lemma addWeighted_Throw (w : float) (entries : object float) :
  forall (result : object float) (e : exn),
    addWeighted w entries result = Throw e -> e = TypeError.
Proof.
  unfold addWeighted.
  induction entries as [|[k v] entries IH]; intros result e; [discriminate|].
  cbn [forEach]. destruct (addEntry w result (k, v)) as [result'|e'] eqn:E.
  - cbn [bind]. apply IH.
  - cbn [bind]. intros [= <-]. unfold addEntry, callHasOwnProperty in E.
    destruct (hasOwnProperty "hasOwnProperty" result); cbn [bind] in E.
    + now injection E as <-.
    + destruct (get k _) in E; discriminate.
Qed.

Lemma merge_Throw (tr fr : object float) (e : exn) :
  merge tr fr = Throw e -> e = TypeError.
Proof.
  unfold merge.
  destruct (addWeighted (total tr / (total tr + total fr)) tr []) as [result|e']
    eqn:E; cbn [bind].
  - apply addWeighted_Throw.
  - intros [= <-]. eapply addWeighted_Throw; eauto.
Qed.

Lemma keys_distribution (r : object N) : keys (distribution r) = keys r.
Proof.
  unfold keys, distribution. rewrite map_map. apply map_ext. now intros [k c].
Qed.

Lemma In_keys_get {V : Type} (k : string) (o : object V) :
  In k (keys o) <-> exists v, get k o = Some v.
Proof.
  split.
  - intros H. destruct (get k o) as [v|] eqn:E; [eauto|].
    apply get_None_keys in E. contradiction.
  - intros [v E] . destruct (in_dec string_dec k (keys o)) as [H|H]; trivial.
    apply get_None_keys in H. congruence.
Qed.

(** Missing-data routing over plain results gives plain results. *)
Lemma classifyWithMissingData_plain observations :
  forall t d,
    everyNode plainResults t ->
    classifyWithMissingData observations t = OK d ->
    NoDup (keys d) /\ forall k, In k (keys d) -> plainKey k.
Proof.
  induction t as [c v tb IHtb fb IHfb r s]. intros d (Hroot & Htb & Hfb).
  destruct r as [r|].
  - simpl. intros [= <-]. rewrite keys_distribution. now apply Hroot.
  - simpl.
    assert (Branch : forall b : option DecisionTree,
               b = tb \/ b = fb ->
               match b with
               | Some branch => classifyWithMissingData observations branch
               | None => Throw TypeError
               end = OK d ->
               NoDup (keys d) /\ forall k, In k (keys d) -> plainKey k).
    { intros b [-> | ->].
      - destruct tb as [tb0|]; [|discriminate].
        inversion IHtb as [? IH|]; subst. intros H. eapply IH; eauto.
      - destruct fb as [fb0|]; [|discriminate].
        inversion IHfb as [? IH|]; subst. intros H. eapply IH; eauto. }
    destruct (strictEq (observed observations c) Null).
    + destruct tb as [tb0|]; [|discriminate].
      destruct (classifyWithMissingData observations tb0) as [tr|] eqn:Etr;
        [|discriminate].
      destruct fb as [fb0|]; [|discriminate]. simpl.
      destruct (classifyWithMissingData observations fb0) as [fr|] eqn:Efr;
        [|discriminate].
      simpl. intros Hm.
      inversion IHtb as [? IH1|]; subst. inversion IHfb as [? IH2|]; subst.
      destruct (IH1 _ Htb Etr) as [ND1 P1].
      destruct (IH2 _ Hfb Efr) as [ND2 P2].
      destruct (get_merge tr fr ND1 ND2 P1 P2) as (result & Em & NDm & Gm).
      rewrite Em in Hm. injection Hm as <-. split; trivial.
      intros k Hk. apply In_keys_get in Hk. destruct Hk as [x Hx].
      rewrite Gm in Hx.
      destruct (get k tr) as [a|] eqn:Ga.
      * apply P1. apply In_keys_get. eauto.
      * destruct (get k fr) as [b|] eqn:Gb; [|discriminate].
        apply P2. apply In_keys_get. eauto.
    + destruct (isNumber (observed observations c)).
      * destruct (geq (observed observations c) v); apply Branch; auto.
      * destruct (strictEq (observed observations c) v); apply Branch; auto.
Qed.

(** * The claims *)

Section Claims.
Variable evaluationFunction : metric.

Local Abbreviation grow := (growDecisionTreeFrom evaluationFunction).

(** The builder always comes back: with a tree or with an exception. *)
Lemma growDecisionTreeFrom_total (rows : list row) : grow rows <> None.
Proof.
  unfold growDecisionTreeFrom.
  now destruct (growFrom_enough evaluationFunction (length rows) rows (le_n _)).
Qed.

(** C1, as amended.  In a tree [growDecisionTreeFrom] returns, the split of
    every node with two children is the first best candidate over the rows
    that reach the node: its gain is above 0, both sides are inhabited, no
    candidate with two inhabited sides has a larger gain, and no such
    candidate visited earlier has an equal gain.  The node holds the column
    and the value of that candidate (the value [null] when the candidate's is
    [undefined]).  Candidates are visited by increasing column index and,
    within a column, in the order the sort leaves the distinct values in:
    ascending on a column of numbers, the order of first occurrence on a
    column of strings that spell no number, and some order of the distinct
    values, which the engine chooses, on any other column. *)
Theorem grown_splits_are_first_best (rows : list row) (t : DecisionTree) :
  grow rows = Some (OK t) ->
  everySplit (firstBest evaluationFunction) rows t
  /\ (forall rows,
        candidates rows
        = flat_map (fun col => map (fun value => (col, value)) (lsUnique rows col))
                   (seq 0 (columnCount rows)))
  /\ (forall rows col, numericColumn rows col -> ascending (lsUnique rows col))
  /\ (forall rows col,
        stringColumn rows col ->
        lsUnique rows col = setFrom [] (map (fun row => at_ row col) rows))
  /\ (forall rows col,
        Permutation (lsUnique rows col)
                    (setFrom [] (map (fun row => at_ row col) rows)))
  /\ (forall rows col row,
        In row rows ->
        exists value,
          In value (lsUnique rows col)
          /\ sameValueZero (at_ row col) value = true).
Proof.
  intros H. split; [exact (growFrom_firstBest _ _ _ _ H)|].
  split; [reflexivity|].
  split; [apply lsUnique_numeric|].
  split; [apply lsUnique_strings|].
  split; [intros; apply sort_Permutation | apply lsUnique_complete].
Qed.

(** C6, as amended.  Over a dataset that is not empty, every node of the tree
    [growDecisionTreeFrom] returns satisfies the two-state invariant, and so
    is in exactly one of the two states; this stays so after any sequence of
    [prune] calls, on the root or below it, returning or throwing, with
    metrics that count first: metrics that score with a number only rows
    whose labels [uniqueCounts] can count.  [gini] and [entropy] are such
    metrics ([gini_countsFirst], [entropy_countsFirst]), and so is [variance]
    where the conversions between numbers and strings are JavaScript's
    ([variance_countsFirst]). *)
Theorem grown_nodes_two_state (rows : list row) (t t' : DecisionTree) :
  rows <> [] ->
  grow rows = Some (OK t) ->
  afterPrunes countsFirst t t' ->
  everyNode (fun node => twoState node /\ exactlyOneState node) t
  /\ everyNode (fun node => twoState node /\ exactlyOneState node) t'.
Proof.
  intros NE H P.
  assert (Ht : everyNode twoState t) by (eapply growFrom_twoState; eauto).
  assert (Ht' : everyNode twoState t').
  { induction P as [|t' t'' P IH C]; trivial.
    now apply (pruneCall_twoState t' t''). }
  split; (eapply everyNode_impl; [|eassumption]);
    intros node Hn; (split; [exact Hn | now apply twoState_exactly_one]).
Qed.

(** C9, as amended.  On an empty dataset the builder throws nothing and
    returns the node of [new DecisionTree]: no results, no children, and the
    empty summary, which records neither a sample count nor an impurity. *)
Theorem grow_empty_dataset :
  grow [] = Some (OK emptyDecisionTree)
  /\ results emptyDecisionTree = None
  /\ trueBranch emptyDecisionTree = None
  /\ falseBranch emptyDecisionTree = None
  /\ summary emptyDecisionTree = emptySummary
  /\ samples emptySummary = None
  /\ impurity emptySummary = None.
Proof.
  repeat split.
Qed.

(** C8, as amended.  On a dataset that is not empty the builder throws
    InvalidMetric when the metric's score of the full row set is NaN; and for
    a metric that does not throw that error itself, it throws InvalidMetric
    only then: once the first score is a number (infinite or not), the check
    fires nowhere in the recursion. *)
Theorem invalid_metric_iff_nan (rows : list row) :
  rows <> [] ->
  (forall score,
      evaluationFunction rows = OK score -> PrimFloat.is_nan score = true ->
      grow rows = Some (Throw InvalidMetric))
  /\ ((forall r, evaluationFunction r <> Throw InvalidMetric) ->
      (grow rows = Some (Throw InvalidMetric)
       <-> exists score,
            evaluationFunction rows = OK score /\ PrimFloat.is_nan score = true)).
Proof.
  intros NE.
  assert (A : forall score,
             evaluationFunction rows = OK score -> PrimFloat.is_nan score = true ->
             grow rows = Some (Throw InvalidMetric)).
  { intros score Es En. unfold growDecisionTreeFrom.
    destruct rows as [|row0 rows']; [contradiction|].
    simpl length. eapply growFrom_InvalidMetric; eauto. }
  split; [exact A|].
  intros Hev. split.
  - intros H. destruct (evaluationFunction rows) as [score|e] eqn:Es.
    + exists score. split; trivial.
      destruct (PrimFloat.is_nan score) eqn:En; trivial.
      exfalso. revert H. unfold growDecisionTreeFrom.
      eapply growFrom_no_InvalidMetric; eauto.
    + exfalso. unfold growDecisionTreeFrom in H.
      destruct rows as [|row0 rows']; [contradiction|].
      simpl in H. rewrite Es in H. injection H as ->. exact (Hev _ Es).
  - intros (score & Es & En). eauto.
Qed.

End Claims.



(** C7, at the failing input.  A target that is the empty string is no number,
    yet [variance] returns a score instead of throwing: [find] hands back the
    empty string, which [if] reads as false. *)
Theorem variance_empty_string_target :
  isNumber (target [Str EmptyString]) = false
  /\ exists score, variance [[Str EmptyString]] = OK score.
Proof.
  split; [reflexivity|]. eexists. reflexivity.
Qed.

(** C2, at the failing input.  The one row of [protoRows] carries the label
    [__proto__].  On the object [uniqueCounts] fills, an assignment under that
    name reaches the setter of [Object.prototype], which ignores a number: no
    count is stored.  The leaf the builder returns has empty results, whose
    counts add up to 0, for a dataset of one row, which the summary of the
    leaf does count. *)
Theorem proto_row_is_not_counted :
  uniqueCounts protoRows = OK []
  /\ growDecisionTreeFrom GINI protoRows = Some (OK protoTree)
  /\ results protoTree = Some []
  /\ leafTotal protoTree = 0%N
  /\ length protoRows = 1%nat
  /\ samples (summary protoTree) = Some 1%nat.
Proof.
  repeat split; vm_compute; reflexivity.
Qed.

(** C3.  The end-to-end example: with Gini the root of [exampleRows] has
    impurity 0.5 and splits on [column 0 >= 3] with gain 0.5, into the leaves
    [{B: 2}] and [{A: 2}]; exact routing of [[3, x]] gives [{B: 2}], and
    missing-data routing of [[null, x]] gives weight 1 to A and to B. *)
Theorem end_to_end_example (x : cell) :
  GINI exampleRows = OK 0.5
  /\ gainOf GINI exampleRows 0.5 0 (Num 3) = OK 0.5
  /\ growDecisionTreeFrom GINI exampleRows = Some (OK exampleTree)
  /\ classify [Num 3; x] exampleTree false = OK [("B"%string, 2)]
  /\ exists result,
      classify [Null; x] exampleTree true = OK result
      /\ get "A" result = Some 1
      /\ get "B" result = Some 1
      /\ length result = 2%nat.
Proof.
  repeat split; try (vm_compute; reflexivity).
  eexists. repeat split; vm_compute; reflexivity.
Qed.

(** C10.  [prune] needs a root with both children: on a node without a true
    branch it throws a TypeError and leaves the tree as it was, a call that
    returns found both children, and so every call on a root that
    [growDecisionTreeFrom] returned with results, or for an empty dataset,
    throws. *)
Theorem prune_needs_children :
  (forall t minGain evaluationFunction notify,
      trueBranch t = None ->
      prune t minGain evaluationFunction notify = mkPruned t [] (Some TypeError))
  /\ (forall t minGain evaluationFunction notify,
        thrown (prune t minGain evaluationFunction notify) = None ->
        exists tb fb, trueBranch t = Some tb /\ falseBranch t = Some fb)
  /\ (forall growMetric rows t minGain evaluationFunction notify,
        growDecisionTreeFrom growMetric rows = Some (OK t) ->
        rows = [] \/ results t <> None ->
        prune t minGain evaluationFunction notify = mkPruned t [] (Some TypeError)).
Proof.
  assert (A : forall t minGain evaluationFunction notify,
             trueBranch t = None ->
             prune t minGain evaluationFunction notify
             = mkPruned t [] (Some TypeError)).
  { intros [c v tb fb r s] minGain ev notify. simpl. intros ->. reflexivity. }
  split; [exact A|]. split; [intros; eapply prune_returns_children; eauto|].
  intros growMetric rows t minGain ev notify H Hleaf. apply A.
  destruct Hleaf as [-> | Hr].
  - injection H as <-. reflexivity.
  - destruct (list_eq_dec_nil rows) as [-> | NE].
    + injection H as <-. reflexivity.
    + pose proof (growFrom_twoState growMetric _ _ _ NE H) as Hts.
      destruct t as [c v tb fb r s]. destruct Hts as [[H1 _] _].
      now apply H1.
Qed.

(** * Further properties *)

(** ** divideSet *)

Lemma filter_partition_Permutation {A : Type} (f : A -> bool) (l : list A) :
  Permutation (filter f l ++ filter (fun x => negb (f x)) l) l.
Proof.
  induction l as [|x l IH]; simpl; [constructor|].
  destruct (f x); simpl.
  - now constructor.
  - rewrite <- Permutation_middle. now constructor.
Qed.

(** X1.  [divideSet] splits the rows in two without losing, adding or
    duplicating any: the two lists together are a rearrangement of [rows],
    [list1] holds exactly the rows the splitting function accepts and
    [list2] exactly those it rejects, so no row is in both. *)
Theorem divideSet_partitions (rows : list row) (column : nat) (value : cell) :
  let list1 := fst (divideSet rows column value) in
  let list2 := snd (divideSet rows column value) in
  Permutation (list1 ++ list2) rows
  /\ (length list1 + length list2 = length rows)%nat
  /\ (forall row,
        In row list1 <-> In row rows /\ splittingFunction column value row = true)
  /\ (forall row,
        In row list2 <-> In row rows /\ splittingFunction column value row = false)
  /\ (forall row, In row list1 -> In row list2 -> False).
Proof.
  cbv zeta. unfold divideSet. cbn [fst snd].
  assert (M1 : forall row,
             In row (filter (fun row => splittingFunction column value row) rows)
             <-> In row rows /\ splittingFunction column value row = true).
  { intros row. apply filter_In. }
  assert (M2 : forall row,
             In row (filter (fun row => negb (splittingFunction column value row)) rows)
             <-> In row rows /\ splittingFunction column value row = false).
  { intros row. rewrite filter_In, negb_true_iff. reflexivity. }
  split; [apply filter_partition_Permutation|].
  split; [apply filter_length|].
  split; [exact M1|]. split; [exact M2|].
  intros row H1 H2. apply M1 in H1. apply M2 in H2.
  destruct H1 as [_ H1]. destruct H2 as [_ H2]. congruence.
Qed.

(** X2.  NaN equals nothing, itself included: splitting on a NaN value sends
    every row to [list2] and leaves [list1] empty. *)
Theorem divideSet_on_nan (rows : list row) (column : nat) (x : float) :
  PrimFloat.is_nan x = true ->
  divideSet rows column (Num x) = ([], rows).
Proof.
  intros N. unfold divideSet, splittingFunction. simpl. rewrite N. simpl.
  assert (E : forall row, strictEq (at_ row column) (Num x) = false).
  { intros row. destruct (at_ row column) as [y| | |]; simpl; trivial.
    destruct (y =? x) eqn:E; trivial.
    apply eqb_not_nan in E. destruct E as [_ E]. congruence. }
  f_equal.
  - induction rows as [|row rows IH]; simpl; trivial. now rewrite E.
  - induction rows as [|row rows IH]; simpl; trivial. rewrite E. simpl. now f_equal.
Qed.

(** ** uniqueCounts *)

Lemma get_tallyRow (label : string) (acc : object N) (row : row) :
  get label (tallyRow acc row)
  = if String.eqb (toString (target row)) label
    then Some (countOf label acc + 1)%N
    else get label acc.
Proof.
  unfold tallyRow, countOf. cbv zeta.
  set (r := toString (target row)).
  destruct (String.eqb_spec r label) as [<- | Hne].
  - destruct (hasOwnProperty r acc) eqn:H; simpl.
    + apply hasOwnProperty_get in H. destruct H as [c Hc]. rewrite Hc.
      now rewrite get_set_same.
    + apply hasOwnProperty_false in H. rewrite H.
      now rewrite !get_set_same.
  - assert (Hne' : label <> r) by congruence.
    destruct (hasOwnProperty r acc) eqn:H; simpl.
    + apply hasOwnProperty_get in H. destruct H as [c Hc]. rewrite Hc.
      now rewrite get_set_other.
    + rewrite get_set_same. now rewrite !get_set_other.
Qed.

Lemma NoDup_tallyRow (acc : object N) (row : row) :
  NoDup (keys acc) -> NoDup (keys (tallyRow acc row)).
Proof.
  intros ND. unfold tallyRow. cbv zeta.
  destruct (hasOwnProperty (toString (target row)) acc) eqn:H; simpl.
  - apply hasOwnProperty_get in H. destruct H as [c Hc]. rewrite Hc.
    now apply NoDup_keys_set.
  - rewrite get_set_same. now apply NoDup_keys_set, NoDup_keys_set.
Qed.

Lemma get_fold_tallyRow (label : string) (rows : list row) (acc : object N) :
  get label (fold_left tallyRow rows acc)
  = if labelOccurs label rows
    then Some (countOf label acc + N.of_nat (length (rowsLabelled label rows)))%N
    else get label acc.
Proof.
  revert acc. induction rows as [|row rows IH]; intros acc; simpl; trivial.
  rewrite IH. unfold countOf at 1. rewrite get_tallyRow.
  unfold labelOccurs, rowsLabelled in *.
  destruct (String.eqb (toString (target row)) label); simpl.
  - destruct (existsb _ rows) eqn:E.
    + f_equal. lia.
    + f_equal. 
      assert (L : filter (fun row => String.eqb (toString (target row)) label) rows = []).
      { clear IH. induction rows as [|r rs IHr]; trivial. simpl in *.
        apply orb_false_iff in E. destruct E as [E1 E2]. rewrite E1. auto. }
      rewrite L. simpl. lia.
  - destruct (existsb _ rows); trivial.
Qed.

Lemma NoDup_fold_tallyRow (rows : list row) (acc : object N) :
  NoDup (keys acc) -> NoDup (keys (fold_left tallyRow rows acc)).
Proof.
  revert acc. induction rows as [|row rows IH]; intros acc ND; simpl; trivial.
  now apply IH, NoDup_tallyRow.
Qed.

Lemma NoDup_tally (rows : list row) : NoDup (keys (tally rows)).
Proof.
  apply NoDup_fold_tallyRow. constructor.
Qed.

Lemma get_tally (label : string) (rows : list row) :
  get label (tally rows)
  = if labelOccurs label rows
    then Some (N.of_nat (length (rowsLabelled label rows)))
    else None.
Proof.
  unfold tally. rewrite get_fold_tallyRow. reflexivity.
Qed.

Lemma labelOccurs_rowsLabelled (label : string) (rows : list row) :
  labelOccurs label rows = true <-> (1 <= length (rowsLabelled label rows))%nat.
Proof.
  unfold labelOccurs, rowsLabelled. induction rows as [|row rows IH]; simpl.
  - split; [discriminate | lia].
  - destruct (String.eqb (toString (target row)) label); simpl; [|exact IH].
    split; [lia | reflexivity].
Qed.

Lemma labelOccurs_counted_proto (rows : list row) :
  labelOccurs "__proto__" (counted rows) = false.
Proof.
  destruct (labelOccurs "__proto__" (counted rows)) eqn:E; trivial.
  apply labelOccurs_rowsLabelled in E.
  rewrite rowsLabelled_counted_proto in E. simpl in E. lia.
Qed.

(** Counts never hold the name [__proto__]. *)
Lemma uniqueCounts_no_proto (rows : list row) (counts : object N) :
  uniqueCounts rows = OK counts -> ~ In "__proto__"%string (keys counts).
Proof.
  intros H. apply uniqueCounts_OK in H. destruct H as [_ ->].
  apply get_None_keys. rewrite get_tally. now rewrite labelOccurs_counted_proto.
Qed.

(** X3.  [uniqueCounts] counts the rows by label, all but the rows labelled
    [__proto__], which it passes over: the object it returns has each label
    once, a label is a key exactly when some counted row carries it, its
    count is the number of counted rows that carry it (so no count is 0), and
    the counts add up to the number of counted rows.  It throws, a TypeError,
    exactly when a row labelled [hasOwnProperty] is followed by another row.
    Without these two labels every row is counted and nothing is thrown. *)
Theorem uniqueCounts_counts_rows (rows : list row) :
  match uniqueCounts rows with
  | Throw e => e = TypeError /\ shadowed rows = true
  | OK counts =>
      shadowed rows = false
      /\ NoDup (keys counts)
      /\ totalCount counts = N.of_nat (length (counted rows))
      /\ (forall label,
            get label counts
            = if labelOccurs label (counted rows)
              then Some (N.of_nat (length (rowsLabelled label (counted rows))))
              else None)
      /\ (forall label c, get label counts = Some c -> (1 <= c)%N)
  end
  /\ ((forall row, In row rows -> toString (target row) <> "__proto__"%string) ->
      counted rows = rows)
  /\ ((forall row, In row rows -> toString (target row) <> "hasOwnProperty"%string) ->
      shadowed rows = false)
  /\ (forall row, In row (counted rows)
                  <-> In row rows /\ toString (target row) <> "__proto__"%string).
Proof.
  split; [|split; [apply counted_all | split; [apply shadowed_false|]]].
  - rewrite uniqueCounts_eq. destruct (shadowed rows); [now split|].
    split; trivial.
    split; [apply NoDup_tally|].
    split; [apply tally_total|].
    split; [intros label; apply get_tally|].
    intros label c. rewrite get_tally.
    destruct (labelOccurs label (counted rows)) eqn:E; [|discriminate].
    apply labelOccurs_rowsLabelled in E. intros [= <-]. lia.
  - intros row. unfold counted. rewrite filter_In, negb_true_iff, String.eqb_neq.
    reflexivity.
Qed.

(** ** sum *)

Lemma plus_isString (a b : cell) :
  isString (plus a b) = isString a || isString b.
Proof.
  destruct a, b; reflexivity.
Qed.

Lemma plus_kind (a b : cell) :
  (exists x, plus a b = Num x) \/ (exists s, plus a b = Str s).
Proof.
  destruct a, b; simpl; eauto.
Qed.

Lemma fold_plus_isString (array : list cell) (acc : cell) :
  isString (fold_left (fun acc value => plus acc value) array acc)
  = isString acc || existsb isString array.
Proof.
  revert acc. induction array as [|v array IH]; intros acc; simpl.
  - now rewrite orb_false_r.
  - rewrite IH, plus_isString. now rewrite orb_assoc.
Qed.

(** X4.  [sum] adds numbers from 0, left to right; as soon as one element is
    a string the result is a string (the concatenation [+] makes), and it is
    a number otherwise, whatever else the array holds. *)
Theorem sum_number_or_string (array : list cell) :
  (forall l : list float,
      array = map Num l -> sum array = Num (fold_left PrimFloat.add l 0))
  /\ (existsb isString array = true -> exists s, sum array = Str s)
  /\ (existsb isString array = false -> exists x, sum array = Num x).
Proof.
  split; [|split].
  - intros l ->. unfold sum. apply sum_numbers.
  - intros H. pose proof (fold_plus_isString array (Num 0)) as E.
    rewrite H in E. unfold sum.
    destruct (fold_left (fun acc value => plus acc value) array (Num 0));
      try discriminate. eauto.
  - intros H. pose proof (fold_plus_isString array (Num 0)) as E.
    rewrite H in E. unfold sum.
    assert (K : forall (l : list cell) (acc : cell),
               (exists x, acc = Num x) \/ (exists s, acc = Str s) ->
               (exists x, fold_left (fun acc value => plus acc value) l acc = Num x)
               \/ (exists s, fold_left (fun acc value => plus acc value) l acc = Str s)).
    { induction l as [|v l IH]; intros acc Hacc; simpl; trivial.
      apply IH. apply plus_kind. }
    destruct (K array (Num 0)) as [[x Hx] | [s Hs]]; [left; eauto | eauto |].
    rewrite Hs in E. discriminate.
Qed.

(** ** variance *)

Lemma find_none_all {A : Type} (f : A -> bool) (l : list A) :
  (forall x, In x l -> f x = false) -> find f l = None.
Proof.
  induction l as [|x l IH]; intros H; simpl; trivial.
  rewrite H by now left. apply IH. intros y Hy. apply H. now right.
Qed.

(** X5.  [variance] throws nothing but InvalidTargetType, and only when some
    target is no number; it returns a score when every target is a number;
    it throws when the first target that is no number is a string that is
    not empty. *)
Theorem variance_throws_only_on_bad_target (rows : list row) :
  (forall e, variance rows = Throw e ->
      e = InvalidTargetType
      /\ exists row, In row rows /\ isNumber (target row) = false)
  /\ ((forall row, In row rows -> isNumber (target row) = true) ->
      exists score, variance rows = OK score)
  /\ (forall before row after s,
        rows = before ++ row :: after ->
        (forall r, In r before -> isNumber (target r) = true) ->
        target row = Str s -> s <> EmptyString ->
        variance rows = Throw InvalidTargetType).
Proof.
  split; [|split].
  - intros e H. apply variance_throws_iff in H.
    destruct H as (_ & -> & p & Hp & _). split; trivial.
    apply find_some in Hp. destruct Hp as [Hin Hn].
    apply in_map_iff in Hin. destruct Hin as (row & <- & Hrow).
    exists row. split; trivial. now apply negb_true_iff.
  - intros H. destruct (variance rows) as [score|e] eqn:E; eauto.
    apply variance_throws_iff in E. destruct E as (_ & _ & p & Hp & _).
    rewrite find_none_all in Hp; [discriminate|].
    intros x Hx. apply in_map_iff in Hx. destruct Hx as (row & <- & Hrow).
    now rewrite H.
  - intros before row after s -> Hb Ht Hs.
    apply variance_throws_iff. split; [now destruct before|]. split; trivial.
    exists (Str s). split.
    + rewrite map_app. simpl. rewrite Ht.
      induction before as [|r before IH]; simpl; trivial.
      rewrite Hb by now left. simpl. apply IH. intros r' Hr'. apply Hb. now right.
    + simpl. destruct (String.eqb_spec s EmptyString); [contradiction | reflexivity].
Qed.

(** ** gini *)

Lemma filter_all {A : Type} (f : A -> bool) (l : list A) :
  (forall x, In x l -> f x = true) -> filter f l = l.
Proof.
  induction l as [|x l IH]; intros H; simpl; trivial.
  rewrite H by now left. f_equal. apply IH. intros y Hy. apply H. now right.
Qed.

Lemma filter_none {A : Type} (f : A -> bool) (l : list A) :
  (forall x, In x l -> f x = false) -> filter f l = [].
Proof.
  induction l as [|x l IH]; intros H; simpl; trivial.
  rewrite H by now left. apply IH. intros y Hy. apply H. now right.
Qed.


Lemma fold_tallyRow_pure (label : string) (rows : list row) (c : N) :
  pure label rows ->
  fold_left tallyRow rows [(label, c)] = [(label, (c + N.of_nat (length rows))%N)].
Proof.
  revert c. induction rows as [|row rows IH]; intros c P.
  - simpl. now rewrite N.add_0_r.
  - cbn [fold_left].
    assert (E : tallyRow [(label, c)] row = [(label, (c + 1)%N)]).
    { unfold tallyRow. rewrite (P row) by now left.
      unfold hasOwnProperty, set, hasOwnProperty. simpl.
      rewrite String.eqb_refl. simpl. now rewrite String.eqb_refl. }
    rewrite E, IH by (intros r Hr; apply P; now right).
    f_equal. f_equal. simpl length. lia.
Qed.

Lemma tally_pure (label : string) (rows : list row) :
  rows <> [] -> pure label rows ->
  tally rows = [(label, N.of_nat (length rows))].
Proof.
  intros NE P. unfold tally.
  destruct rows as [|row rows]; [contradiction|]. cbn [fold_left].
  assert (E : tallyRow [] row = [(label, 1%N)]).
  { unfold tallyRow. rewrite (P row) by now left.
    assert (S0 : set label 0%N [] = [(label, 0%N)]).
    { unfold set. simpl. now destruct (arrayIndex label). }
    simpl. rewrite S0. simpl. rewrite String.eqb_refl.
    unfold set, hasOwnProperty. simpl. now rewrite String.eqb_refl. }
  rewrite E, fold_tallyRow_pure by (intros r Hr; apply P; now right).
  f_equal. f_equal. simpl length. lia.
Qed.

(** Rows with one label: what is counted, and whether counting throws. *)
Lemma counted_pure (label : string) (rows : list row) :
  pure label rows ->
  counted rows = if String.eqb label "__proto__" then [] else rows.
Proof.
  intros P. unfold counted.
  destruct (String.eqb label "__proto__") eqn:E.
  - apply filter_none. intros row Hrow. now rewrite (P row Hrow), E.
  - apply filter_all. intros row Hrow. now rewrite (P row Hrow), E.
Qed.

Lemma shadowed_pure (label : string) (rows : list row) :
  pure label rows ->
  shadowed rows = String.eqb label "hasOwnProperty" && (2 <=? length rows)%nat.
Proof.
  induction rows as [|row rows IH]; intros P.
  - now rewrite andb_false_r.
  - cbn [shadowed]. rewrite (P row) by now left.
    rewrite IH by (intros r Hr; apply P; now right).
    destruct (String.eqb label "hasOwnProperty"); [|reflexivity].
    cbn [andb]. destruct rows as [|row' rows]; [reflexivity|].
    destruct rows; reflexivity.
Qed.

Lemma uniqueCounts_pure (label : string) (rows : list row) :
  rows <> [] -> pure label rows ->
  uniqueCounts rows
  = if String.eqb label "hasOwnProperty" && (2 <=? length rows)%nat
    then Throw TypeError
    else OK (if String.eqb label "__proto__" then []
             else [(label, N.of_nat (length rows))]).
Proof.
  intros NE P. rewrite uniqueCounts_eq, (shadowed_pure label) by trivial.
  destruct (String.eqb label "hasOwnProperty" && (2 <=? length rows)%nat); trivial.
  f_equal. rewrite (counted_pure label) by trivial.
  destruct (String.eqb label "__proto__"); [reflexivity|].
  now apply tally_pure.
Qed.

Lemma gini_pure (label : string) (rows : list row) :
  pure label rows ->
  gini rows
  = if String.eqb label "hasOwnProperty" && (2 <=? length rows)%nat
    then Throw TypeError
    else OK 0.
Proof.
  intros P. destruct (list_eq_dec_nil rows) as [-> | NE].
  - now rewrite andb_false_r.
  - unfold gini. rewrite (uniqueCounts_pure label) by trivial.
    destruct (String.eqb label "hasOwnProperty" && (2 <=? length rows)%nat);
      [reflexivity|].
    destruct (String.eqb label "__proto__"); [reflexivity|].
    simpl. now rewrite String.eqb_refl.
Qed.

(** X6.  The Gini impurity of rows that all carry one label is 0, and so is
    the impurity of no rows at all; except that [gini] throws a TypeError
    when the one label is [hasOwnProperty] and there are two rows or more. *)
Theorem gini_pure_is_zero (label : string) (rows : list row) :
  pure label rows ->
  gini rows
  = if String.eqb label "hasOwnProperty" && (2 <=? length rows)%nat
    then Throw TypeError
    else OK 0.
Proof.
  intros P. destruct rows as [|row rows'] eqn:R.
  - now rewrite andb_false_r.
  - rewrite <- R in *. now apply (gini_pure label).
Qed.

(** ** growDecisionTreeFrom *)

Lemma zero_gain_not_positive (p q : float) : (0 <? 0 - p * 0 - q * 0) = false.
Proof.
  rewrite ltb_spec, !sub_spec, !mul_spec.
  change (Prim2SF 0) with (S754_zero false).
  destruct (Prim2SF p) as [[]|[]| |[] mp ep], (Prim2SF q) as [[]|[]| |[] mq eq];
    reflexivity.
Qed.

Lemma candidates_In (rows : list row) (c : nat) (v : cell) :
  In (c, v) (candidates rows) <->
  (c < columnCount rows)%nat /\ In v (lsUnique rows c).
Proof.
  unfold candidates. rewrite in_flat_map. split.
  - intros (col & Hcol & H). apply in_map_iff in H.
    destruct H as (value & [= <- <-] & Hv). apply in_seq in Hcol. split; [lia | trivial].
  - intros [Hc Hv]. exists c. split; [apply in_seq; lia|].
    apply in_map_iff. eauto.
Qed.

Section LeafFacts.
Variable evaluationFunction : metric.

(** The builder makes a leaf when the search ends without a positive gain. *)
Lemma growFrom_leaf fuel rows currentScore best :
  rows <> [] ->
  evaluationFunction rows = OK currentScore ->
  PrimFloat.is_nan currentScore = false ->
  searchBest evaluationFunction rows currentScore = OK best ->
  gtb (bestGain best) 0 = false ->
  growFrom evaluationFunction (S fuel) rows
  = match uniqueCounts rows with
    | OK counts => Some (OK (leafOver currentScore rows counts))
    | Throw e => Some (Throw e)
    end.
Proof.
  intros NE Es En Eb Eg. rewrite growFrom_step by trivial.
  rewrite Es, En, Eb, Eg. now destruct (uniqueCounts rows).
Qed.

(** The search throws only what a gain throws. *)
Lemma searchBest_Throw_gain rows currentScore e :
  searchBest evaluationFunction rows currentScore = Throw e ->
  exists c v, In (c, v) (candidates rows)
              /\ gainOf evaluationFunction rows currentScore c v = Throw e.
Proof.
  rewrite searchBest_candidates. intros H.
  apply forEach_Throw in H. destruct H as (best & [c v] & Hin & H).
  rewrite tryValue_eq in H. exists c, v. split; trivial.
  destruct (gainOf evaluationFunction rows currentScore c v) as [g|e'];
    simpl in H.
  - destruct (gtb g (bestGain best) && bothNonEmpty rows c v); discriminate.
  - congruence.
Qed.

(** Without a candidate that has two inhabited sides and a positive gain, the
    search keeps its initial gain of 0. *)
Lemma searchBest_nothing rows currentScore best :
  searchBest evaluationFunction rows currentScore = OK best ->
  (forall c v g,
      In (c, v) (candidates rows) ->
      bothNonEmpty rows c v = true ->
      gainOf evaluationFunction rows currentScore c v = OK g ->
      gtb g 0 = false) ->
  gtb (bestGain best) 0 = false.
Proof.
  intros Eb H. apply searchBest_searched in Eb. destruct Eb as (_ & _ & Hbest).
  destruct (bestAttribute best) as [[c v]|].
  - destruct Hbest as (_ & Hg & Hpos & Hn & before & later & Hd & _).
    assert (Hin : In (c, v) (candidates rows))
      by (rewrite Hd; apply in_or_app; right; now left).
    rewrite (H c v _ Hin Hn Hg) in Hpos. discriminate.
  - destruct Hbest as [-> _]. unfold gtb. apply ltb_irrefl.
Qed.

(** X7.  Rows that agree on every feature column cannot be split: whatever
    the metric, as long as it scores the rows (with a score that is not NaN)
    and the empty row set, the builder ends with [uniqueCounts(rows)]: it
    returns a single leaf that holds these counts, or throws what
    [uniqueCounts] throws. *)
Theorem identical_features_grow_a_leaf (rows : list row) (currentScore emptyScore : float) :
  rows <> [] ->
  sameFeatures rows ->
  evaluationFunction rows = OK currentScore ->
  PrimFloat.is_nan currentScore = false ->
  evaluationFunction [] = OK emptyScore ->
  growDecisionTreeFrom evaluationFunction rows
  = match uniqueCounts rows with
    | OK counts => Some (OK (leafOver currentScore rows counts))
    | Throw e => Some (Throw e)
    end.
Proof.
  intros NE SF Es En E0.
  assert (Sides : forall c v, In (c, v) (candidates rows) ->
             divideSet rows c v = (rows, []) \/ divideSet rows c v = ([], rows)).
  { intros c v Hin. apply candidates_In in Hin. destruct Hin as [Hc _].
    destruct rows as [|row0 rows'] eqn:R; [contradiction|]. rewrite <- R in *.
    assert (H0 : In row0 rows) by (rewrite R; now left).
    assert (Same : forall row, In row rows ->
               splittingFunction c v row = splittingFunction c v row0).
    { intros row Hrow. unfold splittingFunction.
      destruct (isNumber v); now rewrite (SF row row0 c Hrow H0 Hc). }
    unfold divideSet. destruct (splittingFunction c v row0) eqn:S0.
    - left. f_equal.
      + apply filter_all. intros row Hrow. now rewrite Same.
      + apply filter_none. intros row Hrow. now rewrite Same.
    - right. f_equal.
      + apply filter_none. intros row Hrow. now rewrite Same.
      + apply filter_all. intros row Hrow. now rewrite Same. }
  assert (Empty : forall c v, In (c, v) (candidates rows) ->
             bothNonEmpty rows c v = false).
  { intros c v Hin. unfold bothNonEmpty.
    destruct (Sides c v Hin) as [-> | ->]; simpl.
    - apply andb_false_r.
    - reflexivity. }
  unfold growDecisionTreeFrom.
  destruct rows as [|row0 rows'] eqn:R; [contradiction|]. rewrite <- R in *.
  replace (length rows) with (S (length rows')) by (rewrite R; reflexivity).
  destruct (searchBest evaluationFunction rows currentScore) as [best|e] eqn:Eb.
  - apply (growFrom_leaf _ _ _ best); trivial.
    apply (searchBest_nothing _ _ _ Eb).
    intros c v g Hin Hn. rewrite (Empty c v Hin) in Hn. discriminate.
  - exfalso. apply searchBest_Throw_gain in Eb.
    destruct Eb as (c & v & Hin & Hg). unfold gainOf in Hg.
    destruct (Sides c v Hin) as [D | D]; rewrite D in Hg;
      rewrite Es, E0 in Hg; discriminate.
Qed.

(** Every tree the builder returns over rows has at most two nodes per row,
    less one. *)
Lemma growFrom_size :
  forall fuel rows t,
    rows <> [] ->
    growFrom evaluationFunction fuel rows = Some (OK t) ->
    (size t + 1 <= 2 * length rows)%nat.
Proof.
  induction fuel as [|fuel IH]; intros rows t NE H.
  - destruct rows; [contradiction | discriminate].
  - apply growFrom_Grown in H.
    destruct H as [-> -> | cs best counts _ Es En Eb Eg Ec -> | cs best c v tb fb _ Es En Eb Eg Ea Esets G1 G2 ->].
    + contradiction.
    + simpl. destruct rows; [contradiction | simpl; lia].
    + destruct (searched_sets _ _ _ _ _ _ Eb Ea) as [_ Hn].
      apply bothNonEmpty_lengths in Hn. destruct Hn as (_ & _ & N1 & N2).
      pose proof (IH _ _ N1 G1). pose proof (IH _ _ N2 G2).
      pose proof (divideSet_length rows c v). simpl. lia.
Qed.

(** The two sides of a split hold rows of the row set. *)
Lemma divideSet_incl (rows : list row) (c : nat) (v : cell) (row : row) :
  In row (fst (divideSet rows c v)) \/ In row (snd (divideSet rows c v)) ->
  In row rows.
Proof.
  unfold divideSet. simpl. intros [H|H]; apply filter_In in H; tauto.
Qed.

(** Where no row is labelled [__proto__], every node records as its sample
    count the rows counted below it. *)
Lemma growFrom_samplesCounted :
  forall fuel rows t,
    rows <> [] ->
    (forall row, In row rows -> toString (target row) <> "__proto__"%string) ->
    growFrom evaluationFunction fuel rows = Some (OK t) ->
    everyNode samplesCounted t.
Proof.
  induction fuel as [|fuel IH]; intros rows t NE Hp H.
  - destruct rows; [contradiction | discriminate].
  - pose proof (growFrom_leafTotal _ _ _ _ H) as Total.
    rewrite (counted_all _ Hp) in Total.
    apply growFrom_Grown in H.
    destruct H as [-> -> | cs best counts _ Es En Eb Eg Ec -> | cs best c v tb fb _ Es En Eb Eg Ea Esets G1 G2 ->].
    + contradiction.
    + unfold newDecisionTree in *. cbn [everyNode]. split; [|tauto].
      exists (length rows). split; [reflexivity | now rewrite Total].
    + destruct (searched_sets _ _ _ _ _ _ Eb Ea) as [_ Hn].
      apply bothNonEmpty_lengths in Hn. destruct Hn as (_ & _ & N1 & N2).
      unfold newDecisionTree in *. cbn [everyNode].
      assert (Hp1 : forall row, In row (fst (divideSet rows c v)) ->
                      toString (target row) <> "__proto__"%string)
        by (intros row Hrow; apply Hp; eapply divideSet_incl; eauto).
      assert (Hp2 : forall row, In row (snd (divideSet rows c v)) ->
                      toString (target row) <> "__proto__"%string)
        by (intros row Hrow; apply Hp; eapply divideSet_incl; eauto).
      split; [|split; [exact (IH _ _ N1 Hp1 G1) | exact (IH _ _ N2 Hp2 G2)]].
      exists (length rows). split; [reflexivity | now rewrite Total].
Qed.

(** Where no row is labelled [__proto__], every results object of a tree
    grown over rows counts a row. *)
Lemma growFrom_inhabited :
  forall fuel rows t,
    rows <> [] ->
    (forall row, In row rows -> toString (target row) <> "__proto__"%string) ->
    growFrom evaluationFunction fuel rows = Some (OK t) ->
    everyNode (fun node => forall r, results node = Some r -> (1 <= totalCount r)%N) t.
Proof.
  induction fuel as [|fuel IH]; intros rows t NE Hp H.
  - destruct rows; [contradiction | discriminate].
  - apply growFrom_Grown in H.
    destruct H as [-> -> | cs best counts _ Es En Eb Eg Ec -> | cs best c v tb fb _ Es En Eb Eg Ea Esets G1 G2 ->].
    + contradiction.
    + unfold newDecisionTree. cbn [everyNode results]. split; [|tauto].
      intros r [= <-]. apply uniqueCounts_OK in Ec. destruct Ec as [_ ->].
      rewrite tally_total, (counted_all _ Hp).
      destruct rows; [contradiction | simpl length; lia].
    + destruct (searched_sets _ _ _ _ _ _ Eb Ea) as [_ Hn].
      apply bothNonEmpty_lengths in Hn. destruct Hn as (_ & _ & N1 & N2).
      unfold newDecisionTree. cbn [everyNode results].
      assert (Hp1 : forall row, In row (fst (divideSet rows c v)) ->
                      toString (target row) <> "__proto__"%string)
        by (intros row Hrow; apply Hp; eapply divideSet_incl; eauto).
      assert (Hp2 : forall row, In row (snd (divideSet rows c v)) ->
                      toString (target row) <> "__proto__"%string)
        by (intros row Hrow; apply Hp; eapply divideSet_incl; eauto).
      split; [intros r; discriminate|].
      split; [exact (IH _ _ N1 Hp1 G1) | exact (IH _ _ N2 Hp2 G2)].
Qed.

End LeafFacts.

(** A metric that scores rows with one label 0 grows them into one leaf. *)
Lemma zero_metric_grows_a_leaf (evaluationFunction : metric) (label : string)
    (rows : list row) :
  rows <> [] ->
  pure label rows ->
  (forall set, pure label set -> (length set <= length rows)%nat ->
               evaluationFunction set = OK 0) ->
  growDecisionTreeFrom evaluationFunction rows
  = match uniqueCounts rows with
    | OK counts => Some (OK (leafOver 0 rows counts))
    | Throw e => Some (Throw e)
    end.
Proof.
  intros NE P Hzero.
  assert (Sub : forall c v, pure label (fst (divideSet rows c v))
                            /\ pure label (snd (divideSet rows c v))).
  { intros c v. unfold divideSet. simpl.
    split; intros row Hrow; apply filter_In in Hrow; apply P; tauto. }
  unfold growDecisionTreeFrom.
  destruct (length rows) as [|n] eqn:L; [destruct rows; [contradiction | discriminate]|].
  assert (E0 : evaluationFunction rows = OK 0) by (apply Hzero; trivial; lia).
  destruct (searchBest evaluationFunction rows 0) as [best|e] eqn:Eb.
  - apply (growFrom_leaf evaluationFunction _ _ _ best); trivial.
    apply (searchBest_nothing _ _ _ _ Eb).
    intros c v g _ _. unfold gainOf.
    destruct (Sub c v) as [P1 P2].
    pose proof (divideSet_length rows c v) as DL.
    destruct (divideSet rows c v) as [set1 set2]. simpl in P1, P2, DL. simpl.
    rewrite (Hzero set1 P1), (Hzero set2 P2) by lia.
    intros [= <-]. unfold gtb. apply zero_gain_not_positive.
  - exfalso. apply searchBest_Throw_gain in Eb.
    destruct Eb as (c & v & _ & Hg). unfold gainOf in Hg.
    destruct (Sub c v) as [P1 P2].
    pose proof (divideSet_length rows c v) as DL.
    destruct (divideSet rows c v) as [set1 set2]. simpl in P1, P2, DL.
    rewrite (Hzero set1 P1), (Hzero set2 P2) in Hg by lia. discriminate.
Qed.

(** X8.  With the Gini metric, a dataset whose rows all carry one label, which
    is not [hasOwnProperty], grows a single leaf with impurity 0: no split
    has a positive gain.  The leaf is [{label: rows.length}], or [{}] when
    the label is [__proto__]. *)
Theorem pure_rows_grow_a_gini_leaf (label : string) (rows : list row) :
  rows <> [] ->
  pure label rows ->
  label <> "hasOwnProperty"%string ->
  growDecisionTreeFrom GINI rows
  = Some (OK (newDecisionTree None None None None
                (Some (if String.eqb label "__proto__" then []
                       else [(label, N.of_nat (length rows))]))
                (Some (dcY 0 rows)))).
Proof.
  intros NE P Hl. apply String.eqb_neq in Hl.
  rewrite (zero_metric_grows_a_leaf GINI label) by
    (trivial; intros set Ps _; unfold GINI; rewrite (gini_pure label) by trivial;
     now rewrite Hl).
  rewrite (uniqueCounts_pure label) by trivial. now rewrite Hl.
Qed.

(** X9.  A tree grown over [n] rows ([n > 0]) has at most [2 n - 1] nodes:
    every split leaves rows on both sides.  Where no row is labelled
    [__proto__], none of its results objects is empty: every leaf counts at
    least one row. *)
Theorem grown_tree_size_bound (evaluationFunction : metric) (rows : list row)
    (t : DecisionTree) :
  rows <> [] ->
  growDecisionTreeFrom evaluationFunction rows = Some (OK t) ->
  (size t + 1 <= 2 * length rows)%nat
  /\ ((forall row, In row rows -> toString (target row) <> "__proto__"%string) ->
      everyNode (fun node => forall r, results node = Some r -> (1 <= totalCount r)%N) t).
Proof.
  intros NE H. split; [eapply growFrom_size; eauto|].
  intros Hp. eapply growFrom_inhabited; eauto.
Qed.

(** X26.  No node of a grown tree holds [undefined] as its value: a split on
    [undefined] (the value of a cell that is missing) is stored as [null],
    by the default of the constructor, and a leaf holds [null] too. *)
Theorem grown_values_are_defined (evaluationFunction : metric) (rows : list row)
    (t : DecisionTree) :
  growDecisionTreeFrom evaluationFunction rows = Some (OK t) ->
  everyNode (fun node => value node <> Undefined) t.
Proof.
  unfold growDecisionTreeFrom. generalize (length rows) as fuel.
  intros fuel. revert rows t.
  induction fuel as [|fuel IH]; intros rows t H.
  - destruct rows; [|discriminate]. injection H as <-.
    cbn. repeat split; discriminate.
  - apply growFrom_Grown in H.
    destruct H as [-> -> | cs best counts _ Es En Eb Eg Ec -> | cs best c v tb fb _ Es En Eb Eg Ea Esets G1 G2 ->].
    + cbn. repeat split; discriminate.
    + cbn. repeat split; discriminate.
    + pose proof (IH _ _ G1) as V1. pose proof (IH _ _ G2) as V2.
      cbn. split; [now destruct v | now split].
Qed.

(** ** The distinct values of a column *)

Lemma distinct_Permutation (l l' : list cell) :
  Permutation l l' ->
  ForallOrdPairs (fun a b => sameValueZero a b = false) l ->
  ForallOrdPairs (fun a b => sameValueZero a b = false) l'.
Proof.
  induction 1 as [|x l l' P IH|x y l|l l' l'' P1 IH1 P2 IH2]; intros H; auto.
  - inversion H as [|? ? Hx Hl]; subst. constructor; [|now apply IH].
    apply Forall_forall. intros z Hz. rewrite Forall_forall in Hx.
    apply Hx. apply (Permutation_in _ (Permutation_sym P)). exact Hz.
  - inversion H as [|? ? Hy Hl]; subst. inversion Hl as [|? ? Hx Hl']; subst.
    inversion Hy as [|? ? Hyx Hy']; subst.
    constructor; [constructor; trivial; now rewrite sameValueZero_sym|].
    constructor; trivial.
Qed.

(** X20.  The values tried in a column are its distinct values, each once:
    every one is a cell of the column, no two are the same value (NaN counts
    as one value; so do -0 and +0, tried as +0), and the sort only reorders
    them. *)
Theorem lsUnique_holds_each_value_once (rows : list row) (col : nat) :
  Permutation (lsUnique rows col) (setFrom [] (map (fun row => at_ row col) rows))
  /\ ForallOrdPairs (fun a b => sameValueZero a b = false) (lsUnique rows col)
  /\ (forall value,
        In value (lsUnique rows col) ->
        exists row, In row rows /\ value = setValue (at_ row col))
  /\ (forall x, In (Num x) (lsUnique rows col) -> PrimFloat.is_zero x = true -> x = 0).
Proof.
  assert (P : Permutation (lsUnique rows col)
                (setFrom [] (map (fun row => at_ row col) rows)))
    by apply sort_Permutation.
  assert (From : forall value,
             In value (lsUnique rows col) ->
             exists row, In row rows /\ value = setValue (at_ row col)).
  { intros value Hv. apply (Permutation_in _ P) in Hv.
    destruct (setFrom_In _ _ _ Hv) as [(x & Hx & ->) _].
    apply in_map_iff in Hx. destruct Hx as (row & <- & Hrow). eauto. }
  split; [exact P|]. split; [|split; [exact From|]].
  - apply (distinct_Permutation _ _ (Permutation_sym P)). apply setFrom_distinct.
  - intros x Hx Z. destruct (From _ Hx) as (row & _ & E).
    destruct (at_ row col) as [y| | |]; simpl in E; try discriminate.
    destruct (PrimFloat.is_zero y) eqn:Zy; injection E as ->; trivial.
    congruence.
Qed.

(** ** classify *)

Lemma twoState_internal (c : Z) (v : cell) (tb fb : option DecisionTree) (s : Summary) :
  twoState (mkDecisionTree c v tb fb None s) ->
  exists tb0 fb0, tb = Some tb0 /\ fb = Some fb0.
Proof.
  clear. intros [_ [_ H]]. simpl in H. destruct (H eq_refl) as [Ht Hf].
  destruct tb as [tb0|]; [|now contradiction Ht].
  destruct fb as [fb0|]; [|now contradiction Hf]. eauto.
Qed.

Lemma get_distribution (label : string) (r : object N) :
  get label (distribution r)
  = match get label r with Some c => Some (ofCount c) | None => None end.
Proof.
  induction r as [|[k c] r IH]; simpl; trivial.
  destruct (String.eqb label k); trivial.
Qed.

Lemma observed_of_nat (observations : row) (c : nat) :
  observed observations (Z.of_nat c) = at_ observations c.
Proof.
  unfold observed. destruct (Z.of_nat c <? 0)%Z eqn:E.
  - apply Z.ltb_lt in E. lia.
  - now rewrite Nat2Z.id.
Qed.

Lemma observed_not_Null (observations : row) (c : Z) :
  ~ In Null observations -> strictEq (observed observations c) Null = false.
Proof.
  intros H. destruct (strictEq (observed observations c) Null) eqn:E; trivial.
  apply strictEq_Null in E. exfalso. apply H. unfold observed, at_ in E.
  destruct (c <? 0)%Z; [discriminate|].
  destruct (nth_in_or_default (Z.to_nat c) observations Undefined) as [Hin | Hd].
  - now rewrite E in Hin.
  - rewrite E in Hd. discriminate.
Qed.

(** Exact routing on a tree whose nodes are leaves or internal nodes ends in
    the results of one of its nodes. *)
Lemma classifyWithoutMissingData_total (observations : row) :
  forall t,
    everyNode twoState t ->
    exists r, classifyWithoutMissingData observations t = OK (distribution r)
              /\ In r (resultsIn t).
Proof.
  induction t as [c v tb IHtb fb IHfb r s]. intros (Hroot & Htb & Hfb).
  destruct r as [r|].
  - exists r. split; [reflexivity | now left].
  - destruct (twoState_internal _ _ _ _ _ Hroot) as (tb0 & fb0 & -> & ->).
    inversion IHtb as [? IHt|]; subst. inversion IHfb as [? IHf|]; subst.
    destruct (IHt Htb) as (rt & Et & It). destruct (IHf Hfb) as (rf & Ef & If).
    cbn [classifyWithoutMissingData resultsIn]. simpl app.
    destruct (isNumber (observed observations c)).
    + destruct (geq (observed observations c) v).
      * exists rt. split; trivial. apply in_or_app. now left.
      * exists rf. split; trivial. apply in_or_app. now right.
    + destruct (strictEq (observed observations c) v).
      * exists rt. split; trivial. apply in_or_app. now left.
      * exists rf. split; trivial. apply in_or_app. now right.
Qed.

Lemma classifyWithMissingData_total (observations : row) :
  forall t,
    everyNode twoState t ->
    everyNode plainResults t ->
    exists d, classifyWithMissingData observations t = OK d.
Proof.
  induction t as [c v tb IHtb fb IHfb r s].
  intros (Hroot & Htb & Hfb) (Proot & Ptb & Pfb).
  destruct r as [r|].
  - eexists. reflexivity.
  - destruct (twoState_internal _ _ _ _ _ Hroot) as (tb0 & fb0 & -> & ->).
    inversion IHtb as [? IHt|]; subst. inversion IHfb as [? IHf|]; subst.
    destruct (IHt Htb Ptb) as (dt & Et). destruct (IHf Hfb Pfb) as (df & Ef).
    cbn [classifyWithMissingData].
    destruct (strictEq (observed observations c) Null).
    + rewrite Et. cbn [bind]. rewrite Ef. cbn [bind].
      destruct (classifyWithMissingData_plain _ _ _ Ptb Et) as [ND1 P1].
      destruct (classifyWithMissingData_plain _ _ _ Pfb Ef) as [ND2 P2].
      destruct (get_merge dt df ND1 ND2 P1 P2) as (result & Em & _).
      eauto.
    + destruct (isNumber (observed observations c)).
      * destruct (geq (observed observations c) v); eauto.
      * destruct (strictEq (observed observations c) v); eauto.
Qed.

(** Missing-data routing throws nothing but a TypeError. *)
Lemma classifyWithMissingData_Throw (observations : row) :
  forall t e, classifyWithMissingData observations t = Throw e -> e = TypeError.
Proof.
  induction t as [c v tb IHtb fb IHfb r s]. intros e.
  destruct r as [r|]; [discriminate|].
  cbn [classifyWithMissingData].
  assert (B : forall b : option DecisionTree,
             b = tb \/ b = fb ->
             match b with
             | Some branch => classifyWithMissingData observations branch
             | None => Throw TypeError
             end = Throw e -> e = TypeError).
  { intros b [-> | ->].
    - destruct tb as [tb0|]; [|congruence].
      inversion IHtb as [? IH|]; subst. apply IH.
    - destruct fb as [fb0|]; [|congruence].
      inversion IHfb as [? IH|]; subst. apply IH. }
  destruct (strictEq (observed observations c) Null).
  - destruct tb as [tb0|]; [|congruence].
    inversion IHtb as [? IHt|]; subst.
    destruct (classifyWithMissingData observations tb0) as [tr|e1] eqn:E1;
      cbn [bind]; [|intros [= <-]; now apply IHt].
    destruct fb as [fb0|]; [|congruence].
    inversion IHfb as [? IHf|]; subst.
    destruct (classifyWithMissingData observations fb0) as [fr|e2] eqn:E2;
      cbn [bind]; [|intros [= <-]; now apply IHf].
    apply merge_Throw.
  - destruct (isNumber (observed observations c)).
    + destruct (geq (observed observations c) v); apply B; auto.
    + destruct (strictEq (observed observations c) v); apply B; auto.
Qed.

(** X10.  On a tree whose nodes all are leaves or internal nodes, as the
    builder makes them over rows, exact routing throws nothing: it returns
    the results of one of the tree's nodes.  Missing-data routing returns a
    distribution too when no label of the tree is [hasOwnProperty] or
    [__proto__]; whatever the labels, it throws nothing but a TypeError. *)
Theorem classify_returns_on_two_state_trees (observations : row) (t : DecisionTree) :
  everyNode twoState t ->
  (exists r, classify observations t false = OK (distribution r)
             /\ In r (resultsIn t))
  /\ (everyNode plainResults t -> exists d, classify observations t true = OK d)
  /\ (forall e, classify observations t true = Throw e -> e = TypeError).
Proof.
  intros H. split; [|split].
  - now apply classifyWithoutMissingData_total.
  - intros P. now apply classifyWithMissingData_total.
  - apply classifyWithMissingData_Throw.
Qed.

(** X11.  An observation that holds no [null] is classified the same with
    and without [dataMissing], on every tree: both throw, or both return the
    same distribution. *)
Theorem classify_modes_agree_without_null (observations : row) (t : DecisionTree) :
  ~ In Null observations ->
  classify observations t true = classify observations t false.
Proof.
  intros H. unfold classify. induction t as [c v tb IHtb fb IHfb r s].
  destruct r as [r|]; [reflexivity|].
  cbn [classifyWithMissingData classifyWithoutMissingData].
  rewrite (observed_not_Null _ _ H).
  assert (B : forall b : option DecisionTree,
             b = tb \/ b = fb ->
             match b with
             | Some branch => classifyWithMissingData observations branch
             | None => Throw TypeError
             end
             = match b with
               | Some branch => classifyWithoutMissingData observations branch
               | None => Throw TypeError
               end).
  { intros b [-> | ->].
    - destruct tb as [tb0|]; trivial. now inversion IHtb.
    - destruct fb as [fb0|]; trivial. now inversion IHfb. }
  destruct (isNumber (observed observations c)).
  - destruct (geq (observed observations c) v); apply B; auto.
  - destruct (strictEq (observed observations c) v); apply B; auto.
Qed.

Section TrainingRows.
Variable evaluationFunction : metric.

Lemma sameKinds_filter (f : row -> bool) (rows : list row) :
  sameKinds rows -> sameKinds (filter f rows).
Proof.
  intros H row row' col Hr Hr'. apply filter_In in Hr, Hr'.
  apply H; tauto.
Qed.

(** The split value of a node is of the kind of its column. *)
Lemma sameKinds_candidate (rows : list row) (c : nat) (v : cell) (row : row) :
  sameKinds rows -> In (c, v) (candidates rows) -> In row rows ->
  isNumber (at_ row c) = isNumber v.
Proof.
  intros SK Hin Hrow. apply candidates_In in Hin. destruct Hin as [Hc Hv].
  unfold lsUnique in Hv.
  apply (Permutation_in _ (sort_Permutation _)) in Hv.
  destruct (setFrom_In _ _ _ Hv) as [(x & Hx & ->) _].
  apply in_map_iff in Hx. destruct Hx as (rowx & <- & Hrowx).
  rewrite isNumber_setValue.
  destruct rows as [|row0 rows'] eqn:R; [contradiction|]. rewrite <- R in *.
  assert (H0 : In row0 rows) by (rewrite R; now left).
  assert (Hc0 : (c < length row0 - 1)%nat) by (rewrite R in Hc; exact Hc).
  rewrite (SK row row0 c Hrow H0 Hc0). symmetry. now apply SK.
Qed.

Lemma noUndefined_filter (f : row -> bool) (rows : list row) :
  noUndefined rows -> noUndefined (filter f rows).
Proof.
  intros H row row' col Hr Hr'. apply filter_In in Hr, Hr'.
  apply H; tauto.
Qed.

(** Where no cell is [undefined], the value a node stores is the one the
    builder split on. *)
Lemma noUndefined_candidate (rows : list row) (c : nat) (v : cell) :
  noUndefined rows -> In (c, v) (candidates rows) -> stored v = v.
Proof.
  intros NU Hin. apply candidates_In in Hin. destruct Hin as [Hc Hv].
  unfold lsUnique in Hv.
  apply (Permutation_in _ (sort_Permutation _)) in Hv.
  destruct (setFrom_In _ _ _ Hv) as [(x & Hx & ->) _].
  apply in_map_iff in Hx. destruct Hx as (rowx & <- & Hrowx).
  destruct rows as [|row0 rows'] eqn:R; [contradiction|]. rewrite <- R in *.
  assert (H0 : In row0 rows) by (rewrite R; now left).
  assert (Hc0 : (c < length row0 - 1)%nat) by (rewrite R in Hc; exact Hc).
  pose proof (NU rowx row0 c Hrowx H0 Hc0) as U.
  destruct (at_ rowx c) as [x| | |]; try reflexivity; [|contradiction].
  simpl. now destruct (PrimFloat.is_zero x).
Qed.

Lemma growFrom_training_row :
  forall fuel rows t row,
    sameKinds rows ->
    noUndefined rows ->
    growFrom evaluationFunction fuel rows = Some (OK t) ->
    In row rows ->
    exists leafRows counts,
      In row leafRows
      /\ uniqueCounts leafRows = OK counts
      /\ classifyWithoutMissingData row t = OK (distribution counts).
Proof.
  induction fuel as [|fuel IH]; intros rows t row SK NU H Hrow.
  - destruct rows; [contradiction | discriminate].
  - apply growFrom_Grown in H.
    destruct H as [-> -> | cs best counts _ Es En Eb Eg Ec -> | cs best c v tb fb _ Es En Eb Eg Ea Esets G1 G2 ->].
    + contradiction.
    + exists rows, counts. now repeat split.
    + assert (Hin : In (c, v) (candidates rows)).
      { apply searchBest_searched in Eb. destruct Eb as (_ & _ & Hbest).
        rewrite Ea in Hbest.
        destruct Hbest as (_ & _ & _ & _ & before & later & Hd & _).
        rewrite Hd. apply in_or_app. right. now left. }
      pose proof (sameKinds_candidate _ _ _ _ SK Hin Hrow) as K.
      unfold newDecisionTree. rewrite (noUndefined_candidate _ _ _ NU Hin).
      cbn [classifyWithoutMissingData].
      rewrite observed_of_nat.
      assert (R : (if isNumber (at_ row c)
                   then if geq (at_ row c) v then Some tb else Some fb
                   else if strictEq (at_ row c) v then Some tb else Some fb)
                  = if splittingFunction c v row then Some tb else Some fb).
      { unfold splittingFunction. rewrite K. destruct (isNumber v); reflexivity. }
      rewrite R. unfold divideSet in G1, G2. cbn [fst snd] in G1, G2.
      destruct (splittingFunction c v row) eqn:S.
      * apply (IH _ _ row (sameKinds_filter _ _ SK) (noUndefined_filter _ _ NU) G1).
        apply filter_In. now split.
      * apply (IH _ _ row (sameKinds_filter _ _ SK) (noUndefined_filter _ _ NU) G2).
        apply filter_In. split; trivial. now rewrite S.
Qed.

(** X12.  A tree grown from rows whose feature columns each hold numbers only
    or no number at all, and no [undefined], classifies every one of these
    rows, with exact routing, into a leaf that was built from that row among
    others: unless the row's label is [__proto__], the returned distribution
    counts the row's own label at least once. *)
Theorem training_row_reaches_its_label (rows : list row) (t : DecisionTree) (row : row) :
  sameKinds rows ->
  noUndefined rows ->
  growDecisionTreeFrom evaluationFunction rows = Some (OK t) ->
  In row rows ->
  toString (target row) <> "__proto__"%string ->
  exists result c,
    classify row t false = OK result
    /\ get (toString (target row)) result = Some (ofCount c)
    /\ (1 <= c)%N.
Proof.
  intros SK NU H Hrow Hp.
  destruct (growFrom_training_row _ _ _ _ SK NU H Hrow)
    as (leafRows & counts & Hin & Ec & E).
  apply uniqueCounts_OK in Ec. destruct Ec as [_ ->].
  exists (distribution (tally (counted leafRows))),
         (N.of_nat (length (rowsLabelled (toString (target row))
                              (counted leafRows)))).
  split; [exact E|].
  assert (L : (1 <= length (rowsLabelled (toString (target row))
                              (counted leafRows)))%nat).
  { apply labelOccurs_rowsLabelled. unfold labelOccurs. apply existsb_exists.
    exists row. split; [|apply String.eqb_refl].
    unfold counted. apply filter_In. split; trivial.
    apply negb_true_iff. now apply String.eqb_neq. }
  split; [|lia].
  rewrite get_distribution, get_tally.
  apply labelOccurs_rowsLabelled in L. now rewrite L.
Qed.

End TrainingRows.

(** ** classify and the label hasOwnProperty *)

(** While the method is in reach an entry is taken in, and the method stays
    in reach unless the entry's label is [hasOwnProperty]. *)
Lemma addEntry_OK (w : float) (result : object float) (k : string) (v : float) :
  hasOwnProperty "hasOwnProperty" result = false ->
  exists result',
    addEntry w result (k, v) = OK result'
    /\ hasOwnProperty "hasOwnProperty" result' = String.eqb "hasOwnProperty" k.
Proof.
  intros Hm. unfold addEntry, callHasOwnProperty. rewrite Hm. cbn [bind].
  destruct (String.eqb_spec "hasOwnProperty" k) as [<- | Hne].
  - rewrite Hm. cbn [negb]. unfold assign. cbn [String.eqb Ascii.eqb Bool.eqb andb].
    rewrite get_set_same. eexists. split; [reflexivity|].
    unfold hasOwnProperty. now rewrite get_set_same.
  - assert (Keep : forall (o : object float) x,
               hasOwnProperty "hasOwnProperty" o = false ->
               hasOwnProperty "hasOwnProperty" (assign k x o) = false).
    { intros o x Ho. unfold assign.
      destruct (String.eqb k "__proto__" && negb (hasOwnProperty k o)); trivial.
      unfold hasOwnProperty in *. now rewrite get_set_other. }
    destruct (hasOwnProperty k result) eqn:H; cbn [negb].
    + destruct (get k result) as [old|]; eexists; (split; [reflexivity|]); auto.
    + destruct (get k (assign k 0 result)) as [old|];
        eexists; (split; [reflexivity|]); auto.
Qed.

(** A loop of the merge that meets the label [hasOwnProperty], or starts
    with it in [result], ends with it in [result] or throws. *)
Lemma addWeighted_shadow (w : float) (entries : object float) :
  forall result : object float,
    hasOwnProperty "hasOwnProperty" result = true
    \/ In "hasOwnProperty"%string (keys entries) ->
    match addWeighted w entries result with
    | OK out => hasOwnProperty "hasOwnProperty" out = true
    | Throw e => e = TypeError
    end.
Proof.
  unfold addWeighted.
  induction entries as [|[k v] entries IH]; intros result H.
  - destruct H as [H | []]. exact H.
  - cbn [forEach]. destruct (hasOwnProperty "hasOwnProperty" result) eqn:Hm.
    + now rewrite addEntry_shadowed.
    + destruct H as [H | H]; [discriminate|].
      destruct (addEntry_OK w result k v Hm) as (result' & -> & Hr).
      cbn [bind]. apply IH.
      destruct (String.eqb_spec "hasOwnProperty" k) as [<- | Hne]; [now left|].
      right. destruct H as [H | H]; [now contradiction Hne | exact H].
Qed.

(** X25.  The label [hasOwnProperty] breaks the merge of missing-data
    routing.  At a node without results where the observation holds [null],
    when the distribution of the true side holds that label and the one of
    the false side is not empty, [classify] throws a TypeError: the merged
    object has a weight under the name of the method it is then asked
    for. *)
Theorem missing_data_merge_throws_on_hasOwnProperty (observations : row)
    (t tb fb : DecisionTree) (trueResult falseResult : object float) :
  results t = None ->
  observed observations (col t) = Null ->
  trueBranch t = Some tb -> falseBranch t = Some fb ->
  classify observations tb true = OK trueResult ->
  classify observations fb true = OK falseResult ->
  In "hasOwnProperty"%string (keys trueResult) ->
  falseResult <> [] ->
  classify observations t true = Throw TypeError.
Proof.
  unfold classify. intros Hr Hv Htb Hfb Et Ef Hin NE.
  rewrite (classifyWithMissingData_merge _ _ _ _ _ _ Hr Hv Htb Hfb Et Ef).
  unfold merge.
  pose proof (addWeighted_shadow
                (total trueResult / (total trueResult + total falseResult))
                trueResult [] (or_intror Hin)) as S.
  destruct (addWeighted _ trueResult []) as [result|e]; cbn [bind].
  - destruct falseResult as [|entry rest]; [contradiction|].
    unfold addWeighted. cbn [forEach]. now rewrite addEntry_shadowed.
  - now subst e.
Qed.

(** ** plot *)

Lemma plot_total (dcHeadings : object string) :
  forall t indent,
    everyNode twoState t -> exists s, plot t dcHeadings indent = OK s.
Proof.
  induction t as [c v tb IHtb fb IHfb r s]. intros indent (Hroot & Htb & Hfb).
  destruct r as [r|].
  - eexists. reflexivity.
  - destruct (twoState_internal _ _ _ _ _ Hroot) as (tb0 & fb0 & -> & ->).
    inversion IHtb as [? IHt|]; subst. inversion IHfb as [? IHf|]; subst.
    destruct (IHt (indent ++ tab ++ tab)%string Htb) as (yes & Et).
    destruct (IHf (indent ++ tab ++ tab)%string Hfb) as (no & Ef).
    cbn [plot]. rewrite Et. cbn [bind]. rewrite Ef. cbn [bind]. eauto.
Qed.

(** X13.  [plot] throws nothing on a tree whose nodes all are leaves or
    internal nodes: it returns a string whatever the headings and the
    indentation. *)
Theorem plot_returns_on_two_state_trees (t : DecisionTree) (dcHeadings : object string)
    (indent : string) :
  everyNode twoState t -> exists s, plot t dcHeadings indent = OK s.
Proof.
  intros H. now apply plot_total.
Qed.

(** X14.  The node the builder returns for an empty dataset can be neither
    classified against nor plotted: with no results and no branch to follow,
    [classify] (in both modes) and [plot] throw a TypeError. *)
Theorem empty_dataset_tree_is_unusable (evaluationFunction : metric)
    (observations : row) (dataMissing : bool) (dcHeadings : object string)
    (indent : string) :
  exists t,
    growDecisionTreeFrom evaluationFunction [] = Some (OK t)
    /\ classify observations t dataMissing = Throw TypeError
    /\ plot t dcHeadings indent = Throw TypeError.
Proof.
  exists emptyDecisionTree. split; [reflexivity|]. split; [|reflexivity].
  unfold classify, emptyDecisionTree, newDecisionTree.
  cbn [classifyWithMissingData classifyWithoutMissingData observed].
  destruct dataMissing; reflexivity.
Qed.

(** ** prune *)

Lemma twoState_leaf (c : Z) (v : cell) (tb fb : option DecisionTree)
    (r : object N) (s : Summary) :
  twoState (mkDecisionTree c v tb fb (Some r) s) -> tb = None /\ fb = None.
Proof.
  clear. intros [[H _] _]. simpl in H. apply H. discriminate.
Qed.

Lemma filter_repeat {A : Type} (f : A -> bool) (x : A) (n : nat) :
  filter f (repeat x n) = if f x then repeat x n else [].
Proof.
  induction n as [|n IH]; simpl; [now destruct (f x)|].
  rewrite IH. now destruct (f x).
Qed.

(** The pseudo-rows of a results object carry each label as often as the
    object counts it. *)
Lemma rowsLabelled_pseudoRows (label : string) (r : object N) :
  NoDup (keys r) ->
  length (rowsLabelled label (pseudoRows r)) = N.to_nat (countOf label r).
Proof.
  unfold rowsLabelled, pseudoRows, countOf. unfold row.
  induction r as [|[k c] r IH]; intros ND; [reflexivity|].
  inversion ND as [|? ? Hnotin ND']; subst.
  cbn [flat_map]. rewrite filter_app, length_app, IH by trivial.
  rewrite filter_repeat. cbn [get target at_ length nth Nat.sub toString].
  rewrite String.eqb_sym.
  destruct (String.eqb_spec label k) as [-> | Hne].
  - apply get_None_keys in Hnotin. rewrite Hnotin, repeat_length. lia.
  - simpl. reflexivity.
Qed.

(** The counts of a collapse are those of the two leaves together. *)
Lemma collapse_eq (tr fr counts : object N) :
  ~ In "__proto__"%string (keys tr) -> ~ In "__proto__"%string (keys fr) ->
  uniqueCounts (pseudoRows tr ++ pseudoRows fr) = OK counts ->
  counts = tally (pseudoRows tr ++ pseudoRows fr).
Proof.
  intros Pt Pf Ec. apply uniqueCounts_OK in Ec. destruct Ec as [_ ->].
  rewrite counted_all; trivial.
  intros row Hrow E. apply in_app_or in Hrow.
  destruct Hrow as [Hrow|Hrow]; apply pseudoRows_label in Hrow;
    rewrite E in Hrow; contradiction.
Qed.

Lemma countOf_collapse (label : string) (tr fr counts : object N) :
  NoDup (keys tr) -> NoDup (keys fr) ->
  ~ In "__proto__"%string (keys tr) -> ~ In "__proto__"%string (keys fr) ->
  uniqueCounts (pseudoRows tr ++ pseudoRows fr) = OK counts ->
  countOf label counts = (countOf label tr + countOf label fr)%N.
Proof.
  intros Ht Hf Pt Pf Ec. rewrite (collapse_eq _ _ _ Pt Pf Ec), tally_countOf.
  unfold rowsLabelled. rewrite filter_app, length_app.
  fold (rowsLabelled label (pseudoRows tr)). fold (rowsLabelled label (pseudoRows fr)).
  rewrite !rowsLabelled_pseudoRows by trivial. lia.
Qed.

Lemma totalCount_collapse (tr fr counts : object N) :
  ~ In "__proto__"%string (keys tr) -> ~ In "__proto__"%string (keys fr) ->
  uniqueCounts (pseudoRows tr ++ pseudoRows fr) = OK counts ->
  totalCount counts = (totalCount tr + totalCount fr)%N.
Proof.
  intros Pt Pf Ec. rewrite (collapse_eq _ _ _ Pt Pf Ec).
  rewrite tally_total, length_app, !length_pseudoRows. lia.
Qed.

Lemma uniqueCounts_countedResults (rows : list row) (counts : object N) :
  uniqueCounts rows = OK counts ->
  NoDup (keys counts) /\ ~ In "__proto__"%string (keys counts).
Proof.
  intros Ec. split; [|now apply (uniqueCounts_no_proto rows)].
  apply uniqueCounts_OK in Ec. destruct Ec as [_ ->]. apply NoDup_tally.
Qed.

Lemma kept_refl (t : DecisionTree) :
  everyNode twoState t -> everyNode countedResults t -> kept t t.
Proof.
  clear. unfold kept. tauto.
Qed.

Section PruneKeeps.
Variable minGain : float.
Variable evaluationFunction : metric.
Variable notify : bool.

Local Abbreviation prune' t := (prune t minGain evaluationFunction notify).
Local Abbreviation pruneChild' t := (pruneChild t minGain evaluationFunction notify).

(** A node that keeps its own fields while its two children are replaced by
    children that keep everything, keeps everything. *)
Lemma kept_node (c : Z) (v : cell) (tb tb' fb fb' : DecisionTree)
    (r : option (object N)) (s : Summary) :
  everyNode twoState (mkDecisionTree c v (Some tb) (Some fb) r s) ->
  everyNode countedResults (mkDecisionTree c v (Some tb) (Some fb) r s) ->
  kept tb tb' -> kept fb fb' ->
  kept (mkDecisionTree c v (Some tb) (Some fb) r s)
       (mkDecisionTree c v (Some tb') (Some fb') r s).
Proof.
  clear. intros (Hroot & _ & _) (Proot & _ & _) (T1 & L1 & S1 & P1 & C1) (T2 & L2 & S2 & P2 & C2).
  unfold kept. cbn [leafTotal labelTotal everyNode].
  split; [now rewrite T1, T2|]. split; [intros label; now rewrite L1, L2|].
  split; [split; [|now split]|].
  { revert Hroot. apply twoState_same_shape; simpl; try reflexivity;
      split; discriminate. }
  split; [split; [exact Proot | now split]|].
  intros ((n & Hn & Hc) & Ct & Cf). split; [|split; auto].
  exists n. split; trivial. cbn [leafTotal] in Hc |- *. now rewrite T1, T2.
Qed.

Lemma kept_true_only (c : Z) (v : cell) (tb tb' : DecisionTree)
    (fb : option DecisionTree) (r : option (object N)) (s : Summary) :
  everyNode twoState (mkDecisionTree c v (Some tb) fb r s) ->
  everyNode countedResults (mkDecisionTree c v (Some tb) fb r s) ->
  kept tb tb' ->
  kept (mkDecisionTree c v (Some tb) fb r s) (mkDecisionTree c v (Some tb') fb r s).
Proof.
  clear. intros (Hroot & _ & Hf) (Proot & _ & Pf) (T1 & L1 & S1 & P1 & C1).
  unfold kept. cbn [leafTotal labelTotal everyNode].
  split; [now rewrite T1|]. split; [intros label; now rewrite L1|].
  split; [split; [|now split]|].
  { revert Hroot. apply twoState_same_shape; simpl; try reflexivity;
      split; discriminate. }
  split; [split; [exact Proot | now split]|].
  intros ((n & Hn & Hc) & Ct & Cf). split; [|split; auto].
  exists n. split; trivial. cbn [leafTotal] in Hc |- *. now rewrite T1.
Qed.

Lemma prune_kept :
  countsFirst evaluationFunction ->
  forall t,
    everyNode twoState t -> everyNode countedResults t -> kept t (after (prune' t)).
Proof.
  intros Hcf.
  induction t as [c v tb IHtb fb IHfb r s]. intros Ht Pt.
  destruct tb as [tb0|]; [|now apply kept_refl].
  rewrite prune_unfold. cbv zeta.
  pose proof Ht as (Hroot & Htb & Hfb). pose proof Pt as (Proot & Ptb & Pfb).
  assert (K1 : kept tb0 (after (pruneChild' tb0))).
  { unfold pruneChild. inversion IHtb as [? IH|]; subst.
    destruct (results tb0); [now apply kept_refl | now apply IH]. }
  destruct (thrown (pruneChild' tb0)); [now apply kept_true_only|].
  destruct fb as [fb0|]; [|now apply kept_true_only].
  assert (K2 : kept fb0 (after (pruneChild' fb0))).
  { unfold pruneChild. inversion IHfb as [? IH|]; subst.
    destruct (results fb0); [now apply kept_refl | now apply IH]. }
  pose proof (kept_node c v _ _ _ _ r s Ht Pt K1 K2) as Keep.
  destruct (thrown (pruneChild' fb0)); [exact Keep|].
  destruct (after (pruneChild' tb0)) as [c1 v1 tb1 fb1 [tr|] s1] eqn:E1;
    cbn [results]; [|exact Keep].
  destruct (after (pruneChild' fb0)) as [c2 v2 tb2 fb2 [fr|] s2] eqn:E2;
    cbn [results]; [|exact Keep].
  destruct (pruneDelta evaluationFunction (pseudoRows tr) (pseudoRows fr))
    as [delta|e] eqn:D; [|exact Keep].
  destruct (delta <? minGain) eqn:L; [|exact Keep].
  destruct (collapse_counts _ _ _ _ _ Hcf D L) as [counts Ec]. rewrite Ec.
  cbn [after].
  (* the collapse *)
  destruct K1 as (T1 & L1 & S1 & P1 & C1). destruct K2 as (T2 & L2 & S2 & P2 & C2).
  destruct S1 as (S1 & _). destruct S2 as (S2 & _).
  destruct (twoState_leaf _ _ _ _ _ _ S1) as [-> ->].
  destruct (twoState_leaf _ _ _ _ _ _ S2) as [-> ->].
  destruct P1 as (P1 & _). destruct P2 as (P2 & _).
  destruct (P1 tr eq_refl) as [ND1 NP1]. destruct (P2 fr eq_refl) as [ND2 NP2].
  assert (R : r = None).
  { destruct r as [r0|]; trivial.
    destruct (twoState_leaf _ _ _ _ _ _ Hroot) as [X _]. discriminate. }
  subst r. cbn [leafTotal labelTotal] in *.
  unfold kept. cbn [leafTotal labelTotal everyNode].
  split; [rewrite (totalCount_collapse tr fr) by trivial; lia|].
  split; [intros label; rewrite (countOf_collapse label tr fr) by trivial;
          specialize (L1 label); specialize (L2 label); lia|].
  split.
  { split; [|tauto]. unfold twoState. simpl. split; split; try discriminate; tauto. }
  split.
  { split; [|tauto]. intros r0 [= <-].
    now apply (uniqueCounts_countedResults (pseudoRows tr ++ pseudoRows fr)). }
  intros ((n & Hn & Hc) & _ & _). split; [|tauto].
  exists n. split; trivial. cbn [leafTotal] in Hc |- *.
  rewrite (totalCount_collapse tr fr) by trivial. lia.
Qed.

End PruneKeeps.

Lemma kept_trans (t t' t'' : DecisionTree) : kept t t' -> kept t' t'' -> kept t t''.
Proof.
  clear. intros (T1 & L1 & S1 & P1 & C1) (T2 & L2 & S2 & P2 & C2). unfold kept.
  split; [congruence|]. split; [intros label; now rewrite L2|]. tauto.
Qed.

Lemma pruneCall_kept (t t' : DecisionTree) :
  pruneCall countsFirst t t' ->
  everyNode twoState t -> everyNode countedResults t -> kept t t'.
Proof.
  induction 1 as [t minGain ev notify Hcf
                 | c v tb tb' fb r s _ IH
                 | c v tb fb fb' r s _ IH]; intros Ht Pt.
  - now apply prune_kept.
  - apply kept_true_only; trivial. apply IH; [apply Ht | apply Pt].
  - pose proof Ht as (Hroot & Htb & Hfb). pose proof Pt as (Proot & Ptb & Pfb).
    destruct (IH Hfb Pfb) as (T1 & L1 & S1 & P1 & C1).
    unfold kept. cbn [leafTotal labelTotal everyNode].
    split; [now rewrite T1|]. split; [intros label; now rewrite L1|].
    split; [split; [|now split]|].
    { revert Hroot. apply twoState_same_shape; simpl; try reflexivity;
        split; discriminate. }
    split; [split; [exact Proot | now split]|].
    intros ((n & Hn & Hc) & Ct & Cf). split; [|split; auto].
    exists n. split; trivial. cbn [leafTotal] in Hc |- *. now rewrite T1.
Qed.

Lemma afterPrunes_kept (t t' : DecisionTree) :
  afterPrunes countsFirst t t' ->
  everyNode twoState t -> everyNode countedResults t -> kept t t'.
Proof.
  induction 1 as [|t' t'' _ IH C]; intros Ht Pt; [now apply kept_refl|].
  specialize (IH Ht Pt). apply (kept_trans _ t'); trivial.
  destruct IH as (_ & _ & S & P & _). now apply pruneCall_kept.
Qed.

Lemma growFrom_countedResults (evaluationFunction : metric) :
  forall fuel rows t,
    growFrom evaluationFunction fuel rows = Some (OK t) -> everyNode countedResults t.
Proof.
  induction fuel as [|fuel IH]; intros rows t H.
  - destruct rows; [|discriminate]. simpl in H. injection H as <-.
    split; [|simpl; tauto]. intros r. discriminate.
  - apply growFrom_Grown in H.
    destruct H as [-> -> | cs best counts _ Es En Eb Eg Ec -> | cs best c v tb fb _ Es En Eb Eg Ea Esets G1 G2 ->].
    + split; [|simpl; tauto]. intros r. discriminate.
    + split; [|simpl; tauto]. intros r [= <-].
      now apply (uniqueCounts_countedResults rows).
    + split; [|simpl; split; eauto]. intros r. discriminate.
Qed.

(** X15.  Neither the builder nor the pruner loses or invents a counted
    row.  In a tree grown from rows, and after any sequence of [prune] calls
    on it (on its root or below, returning or throwing) with metrics that
    count first, as [gini] and [entropy] do, the counts in the leaves add up
    to the number of rows that are not labelled [__proto__], label by label;
    and where no row is labelled [__proto__], every node's [summary.samples]
    is the number of rows counted at or below it. *)
Theorem pruning_keeps_the_counts (evaluationFunction : metric) (rows : list row)
    (t t' : DecisionTree) :
  rows <> [] ->
  growDecisionTreeFrom evaluationFunction rows = Some (OK t) ->
  afterPrunes countsFirst t t' ->
  leafTotal t' = N.of_nat (length (counted rows))
  /\ (forall label,
        labelTotal label t'
        = N.of_nat (length (rowsLabelled label (counted rows))))
  /\ ((forall row, In row rows -> toString (target row) <> "__proto__"%string) ->
      leafTotal t' = N.of_nat (length rows)
      /\ (forall label,
            labelTotal label t' = N.of_nat (length (rowsLabelled label rows)))
      /\ everyNode samplesCounted t').
Proof.
  intros NE H A.
  pose proof (growFrom_twoState _ _ _ _ NE H) as Ht.
  pose proof (growFrom_countedResults _ _ _ _ H) as Pt.
  destruct (afterPrunes_kept _ _ A Ht Pt) as (T & L & _ & _ & C).
  assert (T' : leafTotal t' = N.of_nat (length (counted rows)))
    by (rewrite T; eapply growFrom_leafTotal; eauto).
  assert (L' : forall label,
             labelTotal label t'
             = N.of_nat (length (rowsLabelled label (counted rows))))
    by (intros label; rewrite L; eapply growFrom_labelTotal; eauto).
  split; [exact T'|]. split; [exact L'|].
  intros Hp. rewrite (counted_all _ Hp) in T', L'.
  split; [exact T'|]. split; [exact L'|].
  apply C. eapply growFrom_samplesCounted; eauto.
Qed.
Section PruneReturns.
Variable minGain : float.
Variable evaluationFunction : metric.
Variable notify : bool.

Local Abbreviation prune' t := (prune t minGain evaluationFunction notify).
Local Abbreviation pruneChild' t := (pruneChild t minGain evaluationFunction notify).

(** The labels of pseudo-rows can be counted when none is [hasOwnProperty],
    and the counts hold no other label. *)
Lemma uniqueCounts_pseudoRows (tr fr : object N) :
  ~ In "hasOwnProperty"%string (keys tr) ->
  ~ In "hasOwnProperty"%string (keys fr) ->
  exists counts,
    uniqueCounts (pseudoRows tr ++ pseudoRows fr) = OK counts
    /\ ~ In "hasOwnProperty"%string (keys counts).
Proof.
  intros Ht Hf.
  assert (L : forall row, In row (pseudoRows tr ++ pseudoRows fr) ->
                toString (target row) <> "hasOwnProperty"%string).
  { intros row Hrow E. apply in_app_or in Hrow.
    destruct Hrow as [Hrow|Hrow]; apply pseudoRows_label in Hrow;
      rewrite E in Hrow; contradiction. }
  rewrite uniqueCounts_eq, (shadowed_false _ L).
  eexists. split; [reflexivity|].
  intros Hin. apply In_keys_get in Hin. destruct Hin as [c Hc].
  rewrite get_tally in Hc.
  destruct (labelOccurs "hasOwnProperty" (counted (pseudoRows tr ++ pseudoRows fr)))
    eqn:O; [|discriminate].
  unfold labelOccurs in O. apply existsb_exists in O.
  destruct O as (row & Hrow & E). apply String.eqb_eq in E.
  unfold counted in Hrow. apply filter_In in Hrow. destruct Hrow as [Hrow _].
  exact (L row Hrow E).
Qed.

Lemma pruneDelta_scoresCounted (tr fr : object N) :
  scoresCounted evaluationFunction ->
  ~ In "hasOwnProperty"%string (keys tr) ->
  ~ In "hasOwnProperty"%string (keys fr) ->
  exists delta,
    pruneDelta evaluationFunction (pseudoRows tr) (pseudoRows fr) = OK delta.
Proof.
  intros H Ht Hf. unfold pruneDelta.
  assert (E : forall a b : object N,
             ~ In "hasOwnProperty"%string (keys a) ->
             ~ In "hasOwnProperty"%string (keys b) ->
             exists score,
               evaluationFunction (pseudoRows a ++ pseudoRows b) = OK score).
  { intros a b Ha Hb.
    destruct (uniqueCounts_pseudoRows a b Ha Hb) as (counts & Ec & _).
    exact (H _ _ Ec). }
  destruct (E tr fr Ht Hf) as [sa ->].
  destruct (E tr [] Ht (fun x => x)) as [st Est].
  cbn [pseudoRows flat_map] in Est. rewrite app_nil_r in Est.
  fold (pseudoRows tr) in Est. rewrite Est.
  destruct (E [] fr (fun x => x) Hf) as [sf Esf].
  cbn [pseudoRows flat_map app] in Esf. fold (pseudoRows fr) in Esf. rewrite Esf.
  simpl. eauto.
Qed.

(** On a tree without the label [hasOwnProperty], [prune] returns from an
    internal root and leaves no such label behind. *)
Lemma prune_returns :
  scoresCounted evaluationFunction ->
  forall t,
    everyNode twoState t -> everyNode unshadowedResults t ->
    everyNode unshadowedResults (after (prune' t))
    /\ (results t = None -> thrown (prune' t) = None).
Proof.
  intros Hev. induction t as [c v tb IHtb fb IHfb r s].
  intros (Hroot & Htb & Hfb) (Uroot & Utb & Ufb).
  destruct r as [r|].
  { destruct (twoState_leaf _ _ _ _ _ _ Hroot) as [-> ->].
    split; [|discriminate]. cbn [prune after]. now repeat split. }
  destruct (twoState_internal _ _ _ _ _ Hroot) as (tb0 & fb0 & -> & ->).
  inversion IHtb as [? IHt|]; subst. inversion IHfb as [? IHf|]; subst.
  rewrite prune_unfold. cbv zeta.
  assert (T1 : thrown (pruneChild' tb0) = None
               /\ everyNode unshadowedResults (after (pruneChild' tb0))).
  { unfold pruneChild. destruct (results tb0) eqn:R; [now split|].
    destruct (IHt Htb Utb) as [U T]. split; [now apply T | exact U]. }
  assert (T2 : thrown (pruneChild' fb0) = None
               /\ everyNode unshadowedResults (after (pruneChild' fb0))).
  { unfold pruneChild. destruct (results fb0) eqn:R; [now split|].
    destruct (IHf Hfb Ufb) as [U T]. split; [now apply T | exact U]. }
  destruct T1 as [T1 U1]. destruct T2 as [T2 U2]. rewrite T1, T2.
  assert (Keep : everyNode unshadowedResults
            (mkDecisionTree c v (Some (after (pruneChild' tb0)))
               (Some (after (pruneChild' fb0))) None s)).
  { cbn [everyNode]. split; [intros r; discriminate | now split]. }
  destruct (results (after (pruneChild' tb0))) as [tr|] eqn:Rt; [|now split].
  destruct (results (after (pruneChild' fb0))) as [fr|] eqn:Rf; [|now split].
  assert (Ut : ~ In "hasOwnProperty"%string (keys tr)).
  { destruct (after (pruneChild' tb0)); cbn [results] in Rt. subst.
    destruct U1 as [U1 _]. now apply U1. }
  assert (Uf : ~ In "hasOwnProperty"%string (keys fr)).
  { destruct (after (pruneChild' fb0)); cbn [results] in Rf. subst.
    destruct U2 as [U2 _]. now apply U2. }
  destruct (pruneDelta_scoresCounted tr fr Hev Ut Uf) as [delta ->].
  destruct (delta <? minGain); [|now split].
  destruct (uniqueCounts_pseudoRows tr fr Ut Uf) as (counts & -> & Uc).
  split; [|reflexivity]. cbn [after everyNode]. split; [|tauto].
  now intros r [= <-].
Qed.

End PruneReturns.

Lemma gini_scoresCounted : scoresCounted GINI.
Proof.
  intros rows counts E. unfold GINI, gini. rewrite E. simpl. eauto.
Qed.

Lemma entropy_scoresCounted (log2 : float -> float) : scoresCounted (ENTROPY log2).
Proof.
  intros rows counts E. unfold ENTROPY, entropy. rewrite E. simpl. eauto.
Qed.

(** X16.  On a tree whose nodes all are leaves or internal nodes and hold no
    label [hasOwnProperty], and with a metric that scores every row set
    whose labels can be counted (as [gini] and [entropy] do), [prune]
    returns exactly when the root is an internal node; on a leaf it
    throws. *)
Theorem prune_returns_iff_root_is_internal (t : DecisionTree) (minGain : float)
    (evaluationFunction : metric) (notify : bool) :
  everyNode twoState t ->
  everyNode unshadowedResults t ->
  scoresCounted evaluationFunction ->
  (thrown (prune t minGain evaluationFunction notify) = None <-> results t = None).
Proof.
  intros Ht Ut Hev. split.
  - intros H. apply prune_returns_children in H.
    destruct H as (tb0 & fb0 & Htb & Hfb).
    destruct t as [c v tb fb r s]. simpl in *. subst.
    destruct r as [r|]; trivial.
    destruct Ht as (Hroot & _). apply twoState_leaf in Hroot.
    destruct Hroot as [X _]. discriminate.
  - now apply prune_returns.
Qed.

(** ** prune with the variance metric *)

Lemma everyNode_root (P : DecisionTree -> Prop) (t : DecisionTree) :
  everyNode P t -> P t.
Proof.
  destruct t. simpl. tauto.
Qed.

Lemma variance_pseudoRows (r : object N) (rest : list row) :
  r <> [] ->
  (forall k c, get k r = Some c -> k <> EmptyString /\ (1 <= c)%N) ->
  variance (pseudoRows r ++ rest) = Throw InvalidTargetType.
Proof.
  intros NE H. destruct r as [|[k c] r]; [contradiction|].
  destruct (H k c) as [Hk Hc]; [simpl; now rewrite String.eqb_refl|].
  unfold pseudoRows. cbn [flat_map].
  destruct (N.to_nat c) as [|n] eqn:E; [lia|].
  apply variance_throws_iff. split; [discriminate|]. split; trivial.
  exists (Str k). split; [reflexivity|].
  simpl. destruct (String.eqb_spec k EmptyString); [contradiction | reflexivity].
Qed.

Lemma prune_variance_throws (minGain : float) (notify : bool) :
  forall t,
    everyNode twoState t -> everyNode namedResults t -> results t = None ->
    prune t minGain VARIANCE notify = mkPruned t [] (Some InvalidTargetType).
Proof.
  induction t as [c v tb IHtb fb IHfb r s].
  intros (Hroot & Htb & Hfb) (Nroot & Ntb & Nfb). cbn [results]. intros ->.
  destruct (twoState_internal _ _ _ _ _ Hroot) as (tb0 & fb0 & -> & ->).
  inversion IHtb as [? IHt|]; subst. inversion IHfb as [? IHf|]; subst.
  rewrite prune_unfold. cbv zeta. unfold pruneChild.
  destruct (results tb0) as [tr|] eqn:Rt.
  2:{ rewrite (IHt Htb Ntb eq_refl). reflexivity. }
  cbn [thrown after logged].
  destruct (results fb0) as [fr|] eqn:Rf.
  2:{ rewrite (IHf Hfb Nfb eq_refl). reflexivity. }
  cbn [thrown after logged]. rewrite Rt, Rf.
  destruct (everyNode_root _ _ Ntb tr Rt) as [NE Hk].
  unfold pruneDelta, VARIANCE. rewrite variance_pseudoRows by trivial.
  reflexivity.
Qed.

Lemma growFrom_namedResults (evaluationFunction : metric) :
  forall fuel rows t,
    rows <> [] ->
    (forall row, In row rows ->
       toString (target row) <> EmptyString
       /\ toString (target row) <> "__proto__"%string) ->
    growFrom evaluationFunction fuel rows = Some (OK t) ->
    everyNode namedResults t.
Proof.
  induction fuel as [|fuel IH]; intros rows t NE Hl H.
  - destruct rows; [contradiction | discriminate].
  - apply growFrom_Grown in H.
    destruct H as [-> -> | cs best counts _ Es En Eb Eg Ec -> | cs best c v tb fb _ Es En Eb Eg Ea Esets G1 G2 ->].
    + contradiction.
    + apply uniqueCounts_OK in Ec. destruct Ec as [_ ->].
      rewrite counted_all by (intros row Hrow; now apply Hl).
      split; [|simpl; tauto]. intros r [= <-]. split.
      * intros E. pose proof (tally_total rows) as T. rewrite E in T.
        destruct rows; [contradiction | discriminate].
      * intros k n. rewrite get_tally.
        destruct (labelOccurs k rows) eqn:O; [|discriminate].
        intros [= <-]. split.
        -- unfold labelOccurs in O. apply existsb_exists in O.
           destruct O as (row & Hrow & E). apply String.eqb_eq in E. subst k.
           now apply Hl.
        -- apply labelOccurs_rowsLabelled in O. lia.
    + destruct (searched_sets _ _ _ _ _ _ Eb Ea) as [_ Hn].
      apply bothNonEmpty_lengths in Hn. destruct Hn as (_ & _ & N1 & N2).
      assert (Sub : forall row, In row (fst (divideSet rows c v))
                                \/ In row (snd (divideSet rows c v)) -> In row rows).
      { unfold divideSet. simpl. intros row [H | H]; apply filter_In in H; tauto. }
      split; [intros r; discriminate|]. simpl. split.
      * apply (IH _ _ N1); trivial. intros row Hrow. apply Hl, Sub. now left.
      * apply (IH _ _ N2); trivial. intros row Hrow. apply Hl, Sub. now right.
Qed.

(** X17.  A tree grown by the builder cannot be pruned with the variance
    metric.  The pruner rebuilds the rows of a leaf from the keys of its
    results, which are strings, so as soon as no label is the empty string
    (or [__proto__], which leaves no key) [variance] rejects them: [prune]
    on an internal root throws InvalidTargetType, logs nothing and leaves
    the tree as it was. *)
Theorem prune_with_variance_throws (evaluationFunction : metric) (rows : list row)
    (t : DecisionTree) (minGain : float) (notify : bool) :
  rows <> [] ->
  (forall row, In row rows ->
     toString (target row) <> EmptyString
     /\ toString (target row) <> "__proto__"%string) ->
  growDecisionTreeFrom evaluationFunction rows = Some (OK t) ->
  results t = None ->
  prune t minGain VARIANCE notify = mkPruned t [] (Some InvalidTargetType).
Proof.
  intros NE Hl H R. apply prune_variance_throws; trivial.
  - eapply growFrom_twoState; eauto.
  - eapply growFrom_namedResults; eauto.
Qed.

(** ** prune, called again *)

Section PruneTwice.
Variable minGain : float.
Variable evaluationFunction : metric.
Variable notify : bool.

Local Abbreviation prune' t := (prune t minGain evaluationFunction notify).
Local Abbreviation pruneChild' t := (pruneChild t minGain evaluationFunction notify).

(** A call that throws has not touched the results of the node. *)
Lemma prune_thrown_results (t : DecisionTree) (e : exn) :
  thrown (prune' t) = Some e -> results (after (prune' t)) = results t.
Proof.
  destruct t as [c v [tb0|] fb r s]; [|reflexivity].
  rewrite prune_unfold. cbv zeta.
  destruct (thrown (pruneChild' tb0)); [reflexivity|].
  destruct fb as [fb0|]; [|reflexivity].
  destruct (thrown (pruneChild' fb0)); [reflexivity|].
  destruct (results (after (pruneChild' tb0))); [|discriminate].
  destruct (results (after (pruneChild' fb0))); [|discriminate].
  destruct (pruneDelta evaluationFunction _ _); [|reflexivity].
  destruct (_ <? minGain); [|discriminate].
  destruct (uniqueCounts _); [discriminate | reflexivity].
Qed.

Lemma pruneChild_twice (x : DecisionTree) :
  secondCall x minGain evaluationFunction notify ->
  pruneChild' (after (pruneChild' x))
  = mkPruned (after (pruneChild' x)) [] (thrown (pruneChild' x)).
Proof.
  intros (Ha & Hl & Ht). unfold pruneChild.
  destruct (results x) eqn:R.
  - cbn [after thrown]. now rewrite R.
  - destruct (results (after (prune' x))) eqn:R2.
    + f_equal. destruct (thrown (prune' x)) as [e|] eqn:T; trivial.
      apply prune_thrown_results in T. congruence.
    + destruct Ht as [Ht | (Hn & _)]; [|now contradiction Hn].
      destruct (prune' (after (prune' x))) as [a l th]. simpl in *. congruence.
Qed.

Lemma prune_twice : forall t, secondCall t minGain evaluationFunction notify.
Proof.
  induction t as [c v tb IHtb fb IHfb r s]. unfold secondCall. cbv zeta.
  destruct tb as [tb0|].
  2:{ cbn. repeat split. now left. }
  inversion IHtb as [? IHt|]; subst.
  pose proof (pruneChild_twice tb0 IHt) as Tw1.
  rewrite prune_unfold. cbv zeta.
  destruct (thrown (pruneChild' tb0)) as [e1|] eqn:T1.
  { cbn [after thrown logged]. rewrite prune_unfold. cbv zeta.
    rewrite Tw1. cbn [after thrown logged]. repeat split. now left. }
  destruct fb as [fb0|].
  2:{ cbn [after thrown logged]. rewrite prune_unfold. cbv zeta.
      rewrite Tw1. cbn [after thrown logged]. repeat split. now left. }
  inversion IHfb as [? IHf|]; subst.
  pose proof (pruneChild_twice fb0 IHf) as Tw2.
  assert (Again : forall th,
             thrown (pruneChild' fb0) = th ->
             (th = None ->
              match results (after (pruneChild' tb0)),
                    results (after (pruneChild' fb0)) with
              | Some tr, Some fr =>
                  match pruneDelta evaluationFunction (pseudoRows tr) (pseudoRows fr) with
                  | OK delta => (delta <? minGain) = false
                  | Throw _ => True
                  end
              | _, _ => True
              end) ->
             prune' (mkDecisionTree c v (Some (after (pruneChild' tb0)))
                       (Some (after (pruneChild' fb0))) r s)
             = mkPruned (mkDecisionTree c v (Some (after (pruneChild' tb0)))
                           (Some (after (pruneChild' fb0))) r s)
                        []
                        (match th with
                         | Some e => Some e
                         | None =>
                             match results (after (pruneChild' tb0)),
                                   results (after (pruneChild' fb0)) with
                             | Some tr, Some fr =>
                                 match pruneDelta evaluationFunction
                                         (pseudoRows tr) (pseudoRows fr) with
                                 | OK _ => None
                                 | Throw e => Some e
                                 end
                             | _, _ => None
                             end
                         end)).
  { intros th T2 Hd. rewrite prune_unfold. cbv zeta. rewrite Tw1, Tw2.
    cbn [after thrown logged]. rewrite T2. destruct th as [e2|]; [reflexivity|].
    specialize (Hd eq_refl).
    destruct (results (after (pruneChild' tb0))) as [tr|]; [|reflexivity].
    destruct (results (after (pruneChild' fb0))) as [fr|]; [|reflexivity].
    destruct (pruneDelta evaluationFunction (pseudoRows tr) (pseudoRows fr))
      as [delta|e]; [|reflexivity].
    now rewrite Hd. }
  destruct (thrown (pruneChild' fb0)) as [e2|] eqn:T2.
  { cbn [after thrown logged]. rewrite (Again (Some e2)) by (trivial; discriminate).
    cbn [after thrown logged]. repeat split. now left. }
  destruct (results (after (pruneChild' tb0))) as [tr|] eqn:Rt.
  2:{ cbn [after thrown logged]. rewrite (Again None) by trivial.
      cbn [after thrown logged]. repeat split. now left. }
  destruct (results (after (pruneChild' fb0))) as [fr|] eqn:Rf.
  2:{ cbn [after thrown logged]. rewrite (Again None) by trivial.
      cbn [after thrown logged]. repeat split. now left. }
  destruct (pruneDelta evaluationFunction (pseudoRows tr) (pseudoRows fr))
    as [delta|e] eqn:D.
  2:{ cbn [after thrown logged]. rewrite (Again None) by trivial.
      cbn [after thrown logged]. repeat split. now left. }
  destruct (delta <? minGain) eqn:L.
  - destruct (uniqueCounts (pseudoRows tr ++ pseudoRows fr)) as [counts|e] eqn:Ec.
    + cbn [after thrown logged results]. cbn. repeat split.
      right. repeat split. discriminate.
    + apply uniqueCounts_Throw in Ec. destruct Ec as [-> _].
      cbn. repeat split. now left.
  - cbn [after thrown logged]. rewrite (Again None) by trivial.
    cbn [after thrown logged]. repeat split. now left.
Qed.

End PruneTwice.

(** X18.  Pruning twice with the same arguments is pruning once: the second
    call leaves the tree exactly as the first left it and logs nothing.  It
    throws what the first call threw, except when the first call turned the
    root itself into a leaf: the second call then throws a TypeError.  (So
    it does after a first call that threw in the middle of a collapse: the
    root has lost its children, and both calls throw a TypeError.) *)
Theorem pruning_twice_is_pruning_once (t : DecisionTree) (minGain : float)
    (evaluationFunction : metric) (notify : bool) :
  let first := prune t minGain evaluationFunction notify in
  let second := prune (after first) minGain evaluationFunction notify in
  after second = after first
  /\ logged second = []
  /\ (thrown second = thrown first
      \/ (results (after first) <> None
          /\ thrown first = None /\ thrown second = Some TypeError)).
Proof.
  apply prune_twice.
Qed.

(** ** prune and its notifications *)

Section PruneNotify.
Variable minGain : float.
Variable evaluationFunction : metric.

Local Abbreviation loud t := (prune t minGain evaluationFunction true).
Local Abbreviation quiet t := (prune t minGain evaluationFunction false).

Lemma prune_notify :
  forall t,
    after (loud t) = after (quiet t)
    /\ thrown (loud t) = thrown (quiet t)
    /\ logged (quiet t) = [].
Proof.
  induction t as [c v tb IHtb fb IHfb r s].
  destruct tb as [tb0|]; [|now repeat split].
  rewrite !prune_unfold. cbv zeta.
  assert (H1 : after (pruneChild tb0 minGain evaluationFunction true)
               = after (pruneChild tb0 minGain evaluationFunction false)
               /\ thrown (pruneChild tb0 minGain evaluationFunction true)
                  = thrown (pruneChild tb0 minGain evaluationFunction false)
               /\ logged (pruneChild tb0 minGain evaluationFunction false) = []).
  { unfold pruneChild. destruct (results tb0); [now repeat split|].
    now inversion IHtb. }
  destruct H1 as (Ea1 & Et1 & El1). rewrite Ea1, Et1, El1.
  destruct (thrown (pruneChild tb0 minGain evaluationFunction false));
    [now repeat split|].
  destruct fb as [fb0|]; [|now repeat split].
  assert (H2 : after (pruneChild fb0 minGain evaluationFunction true)
               = after (pruneChild fb0 minGain evaluationFunction false)
               /\ thrown (pruneChild fb0 minGain evaluationFunction true)
                  = thrown (pruneChild fb0 minGain evaluationFunction false)
               /\ logged (pruneChild fb0 minGain evaluationFunction false) = []).
  { unfold pruneChild. destruct (results fb0); [now repeat split|].
    now inversion IHfb. }
  destruct H2 as (Ea2 & Et2 & El2). rewrite Ea2, Et2, El2.
  destruct (thrown (pruneChild fb0 minGain evaluationFunction false));
    [now repeat split|].
  destruct (results (after (pruneChild tb0 minGain evaluationFunction false)));
    [|now repeat split].
  destruct (results (after (pruneChild fb0 minGain evaluationFunction false)));
    [|now repeat split].
  destruct (pruneDelta evaluationFunction _ _); [|now repeat split].
  destruct (_ <? minGain); [|now repeat split].
  destruct (uniqueCounts _); now repeat split.
Qed.

Lemma prune_logged_below :
  forall t, Forall (fun delta => (delta <? minGain) = true) (logged (loud t)).
Proof.
  induction t as [c v tb IHtb fb IHfb r s].
  destruct tb as [tb0|]; [|constructor].
  rewrite prune_unfold. cbv zeta.
  assert (H1 : Forall (fun delta => (delta <? minGain) = true)
                 (logged (pruneChild tb0 minGain evaluationFunction true))).
  { unfold pruneChild. destruct (results tb0); [constructor | now inversion IHtb]. }
  destruct (thrown (pruneChild tb0 minGain evaluationFunction true)); [exact H1|].
  destruct fb as [fb0|]; [|exact H1].
  assert (H2 : Forall (fun delta => (delta <? minGain) = true)
                 (logged (pruneChild fb0 minGain evaluationFunction true))).
  { unfold pruneChild. destruct (results fb0); [constructor | now inversion IHfb]. }
  assert (H12 : Forall (fun delta => (delta <? minGain) = true)
                  (logged (pruneChild tb0 minGain evaluationFunction true)
                   ++ logged (pruneChild fb0 minGain evaluationFunction true))).
  { apply Forall_app. now split. }
  destruct (thrown (pruneChild fb0 minGain evaluationFunction true)); [exact H12|].
  destruct (results (after (pruneChild tb0 minGain evaluationFunction true)));
    [|exact H12].
  destruct (results (after (pruneChild fb0 minGain evaluationFunction true)));
    [|exact H12].
  destruct (pruneDelta evaluationFunction _ _) as [delta|e]; [|exact H12].
  destruct (delta <? minGain) eqn:L; [|exact H12].
  destruct (uniqueCounts _); cbn [logged]; apply Forall_app; split; trivial;
    now repeat constructor.
Qed.

(** A node with results keeps no child, whatever [prune] does. *)
Lemma prune_leafShape :
  forall t,
    everyNode leafShape t -> everyNode leafShape (after (loud t)).
Proof.
  induction t as [c v tb IHtb fb IHfb r s]. intros Ht.
  destruct tb as [tb0|]; [|exact Ht].
  rewrite prune_unfold. cbv zeta.
  destruct Ht as (Hroot & Htb & Hfb).
  assert (Htb' : everyNode leafShape
                   (after (pruneChild tb0 minGain evaluationFunction true))).
  { unfold pruneChild. inversion IHtb as [? IH|]; subst.
    destruct (results tb0); [exact Htb | now apply IH]. }
  assert (R : r = None).
  { destruct r as [r0|]; trivial. unfold leafShape in Hroot. simpl in Hroot.
    destruct Hroot as [X _]; discriminate. }
  subst r.
  assert (Root : forall a b, leafShape (mkDecisionTree c v a b None s)).
  { intros a b X. now contradiction X. }
  destruct (thrown (pruneChild tb0 minGain evaluationFunction true)).
  { simpl. split; [apply Root | now split]. }
  destruct fb as [fb0|].
  2:{ simpl. split; [apply Root | now split]. }
  assert (Hfb' : everyNode leafShape
                   (after (pruneChild fb0 minGain evaluationFunction true))).
  { unfold pruneChild. inversion IHfb as [? IH|]; subst.
    destruct (results fb0); [exact Hfb | now apply IH]. }
  assert (Keep : everyNode leafShape
            (mkDecisionTree c v
               (Some (after (pruneChild tb0 minGain evaluationFunction true)))
               (Some (after (pruneChild fb0 minGain evaluationFunction true)))
               None s)).
  { simpl. split; [apply Root | now split]. }
  destruct (thrown (pruneChild fb0 minGain evaluationFunction true)); [exact Keep|].
  destruct (results (after (pruneChild tb0 minGain evaluationFunction true)));
    [|exact Keep].
  destruct (results (after (pruneChild fb0 minGain evaluationFunction true)));
    [|exact Keep].
  destruct (pruneDelta evaluationFunction _ _) as [delta|e]; [|exact Keep].
  destruct (delta <? minGain); [|exact Keep].
  destruct (uniqueCounts _); simpl; (split; [|now split]).
  - intros _. now split.
  - apply Root.
Qed.

Lemma twoState_leafShape (t : DecisionTree) : twoState t -> leafShape t.
Proof.
  clear. unfold twoState, leafShape. tauto.
Qed.

Lemma prune_size :
  forall t,
    everyNode leafShape t ->
    size t = (size (after (loud t)) + 2 * length (logged (loud t)))%nat.
Proof.
  induction t as [c v tb IHtb fb IHfb r s]. intros (Hroot & Htb & Hfb).
  destruct tb as [tb0|]; [|simpl; lia].
  rewrite prune_unfold. cbv zeta.
  assert (H1 : size tb0
               = (size (after (pruneChild tb0 minGain evaluationFunction true))
                  + 2 * length (logged (pruneChild tb0 minGain evaluationFunction true)))%nat
               /\ everyNode leafShape
                    (after (pruneChild tb0 minGain evaluationFunction true))).
  { unfold pruneChild. inversion IHtb as [? IH|]; subst.
    destruct (results tb0); [simpl; split; [lia | trivial]|].
    split; [now apply IH | now apply prune_leafShape]. }
  destruct H1 as [S1 W1].
  destruct (thrown (pruneChild tb0 minGain evaluationFunction true));
    [cbn [after logged size]; lia|].
  destruct fb as [fb0|]; [|cbn [after logged size]; lia].
  assert (H2 : size fb0
               = (size (after (pruneChild fb0 minGain evaluationFunction true))
                  + 2 * length (logged (pruneChild fb0 minGain evaluationFunction true)))%nat
               /\ everyNode leafShape
                    (after (pruneChild fb0 minGain evaluationFunction true))).
  { unfold pruneChild. inversion IHfb as [? IH|]; subst.
    destruct (results fb0); [simpl; split; [lia | trivial]|].
    split; [now apply IH | now apply prune_leafShape]. }
  destruct H2 as [S2 W2].
  assert (Keep : size (mkDecisionTree c v (Some tb0) (Some fb0) r s)
                 = (size (mkDecisionTree c v
                            (Some (after (pruneChild tb0 minGain evaluationFunction true)))
                            (Some (after (pruneChild fb0 minGain evaluationFunction true)))
                            r s)
                    + 2 * length (logged (pruneChild tb0 minGain evaluationFunction true)
                                  ++ logged (pruneChild fb0 minGain evaluationFunction true)))%nat).
  { cbn [size]. rewrite length_app. lia. }
  destruct (thrown (pruneChild fb0 minGain evaluationFunction true)); [exact Keep|].
  destruct (after (pruneChild tb0 minGain evaluationFunction true))
    as [c1 v1 tb1 fb1 [tr|] s1]; cbn [results]; [|exact Keep].
  destruct (after (pruneChild fb0 minGain evaluationFunction true))
    as [c2 v2 tb2 fb2 [fr|] s2]; cbn [results]; [|exact Keep].
  destruct (pruneDelta evaluationFunction _ _) as [delta|e]; [|exact Keep].
  destruct (delta <? minGain); [|exact Keep].
  destruct W1 as (W1 & _). destruct W2 as (W2 & _).
  destruct (W1 ltac:(discriminate)) as [X1 Y1].
  destruct (W2 ltac:(discriminate)) as [X2 Y2].
  cbn [trueBranch falseBranch] in X1, Y1, X2, Y2. subst.
  destruct (uniqueCounts _);
    cbn [after logged size] in *; rewrite !length_app in *; simpl length in *; lia.
Qed.

End PruneNotify.

(** X19.  [notify] only decides whether the gains are logged: the tree
    [prune] leaves and the exception it throws are the same with and without
    it, and without it nothing is logged.  With it, every logged gain is
    below [minGain], and on a tree whose nodes are leaves or internal nodes
    there is one message for every two nodes removed. *)
Theorem notify_only_logs (t : DecisionTree) (minGain : float)
    (evaluationFunction : metric) :
  let loud := prune t minGain evaluationFunction true in
  let quiet := prune t minGain evaluationFunction false in
  after loud = after quiet
  /\ thrown loud = thrown quiet
  /\ logged quiet = []
  /\ Forall (fun delta => (delta <? minGain) = true) (logged loud)
  /\ (everyNode twoState t ->
      size t = (size (after loud) + 2 * length (logged loud))%nat).
Proof.
  cbv zeta. destruct (prune_notify minGain evaluationFunction t) as (A & B & C).
  repeat split; trivial.
  - apply prune_logged_below.
  - intros Ht. apply prune_size.
    revert Ht. apply everyNode_impl. apply twoState_leafShape.
Qed.

(** ** gini is a number *)

Lemma to_Z_of_Z_small (z : Z) :
  (0 <= z < 2 ^ 63)%Z -> Uint63.to_Z (Uint63.of_Z z) = z.
Proof.
  intros H. rewrite Uint63.of_Z_spec. apply Z.mod_small. exact H.
Qed.

(** A count divided by a number of rows. *)
Lemma count_ratio_finite (c : N) (n : nat) :
  (1 <= Z.of_nat n < 2 ^ 63)%Z ->
  finiteNonNegative (Prim2SF (ofCount c / ofNat n)).
Proof.
  intros Hn. rewrite div_spec. unfold ofCount, ofNat.
  destruct (of_uint63_finite (Uint63.of_Z (Z.of_nat n))) as (my & ey & Ey & Ly & _).
  { rewrite to_Z_of_Z_small by lia. lia. }
  rewrite Ey.
  destruct (Z.eq_dec (Uint63.to_Z (Uint63.of_Z (Z.of_N c))) 0) as [Z0 | NZ].
  - rewrite of_uint63_spec, Z0. exact I.
  - destruct (of_uint63_finite _ NZ) as (mx & ex & Ex & _ & Dx). rewrite Ex.
    destruct (SFdiv_finite false mx ex false my ey Dx Ly) as [E | (m & e & E)];
      unfold SF64div; rewrite E; exact I.
Qed.

Lemma add_product_nonNegative (imp p1 p2 : float) :
  nonNegative (Prim2SF imp) ->
  finiteNonNegative (Prim2SF p1) -> finiteNonNegative (Prim2SF p2) ->
  nonNegative (Prim2SF (imp + p1 * p2)).
Proof.
  intros Hi H1 H2. rewrite add_spec, mul_spec.
  apply SFadd_nonNegative; trivial. now apply SFmul_nonNegative.
Qed.

Lemma nonNegative_number (x : float) :
  nonNegative (Prim2SF x) -> PrimFloat.is_nan x = false /\ (x <? 0) = false.
Proof.
  intros H. split.
  - apply not_nan_spec. intros E. now rewrite E in H.
  - rewrite ltb_spec. change (Prim2SF 0) with (S754_zero false).
    destruct (Prim2SF x) as [[]|[]| |[] m e]; simpl in H; try contradiction; reflexivity.
Qed.

Lemma gini_nonNegative (rows : list row) (g : float) :
  (Z.of_nat (length rows) < 2 ^ 63)%Z ->
  gini rows = OK g -> nonNegative (Prim2SF g).
Proof.
  intros Hn. unfold gini.
  destruct (uniqueCounts rows) as [counts|e] eqn:Ec; [|discriminate].
  cbn [bind]. intros [= <-].
  destruct (list_eq_dec_nil rows) as [-> | NE].
  { injection Ec as <-. exact I. }
  assert (Hn' : (1 <= Z.of_nat (length rows) < 2 ^ 63)%Z).
  { destruct rows; [contradiction|]. simpl length in *. lia. }
  assert (Inner : forall k1 c1 (counts2 : object N) imp,
             nonNegative (Prim2SF imp) ->
             nonNegative
               (Prim2SF
                  (fold_left
                     (fun imp '(k2, c2) =>
                        if String.eqb k1 k2 then imp
                        else imp + ofCount c1 / ofNat (length rows)
                                   * (ofCount c2 / ofNat (length rows)))
                     counts2 imp))).
  { intros k1 c1. induction counts2 as [|[k2 c2] counts2 IH]; intros imp Hi; trivial.
    cbn [fold_left]. apply IH. destruct (String.eqb k1 k2); trivial.
    apply add_product_nonNegative; trivial; now apply count_ratio_finite. }
  clear Ec.
  generalize counts at 1 as counts2.
  generalize counts as counts1.
  assert (Start : nonNegative (Prim2SF 0)) by exact I.
  revert Start. generalize 0 as imp.
  intros imp Hi counts1. revert imp Hi.
  induction counts1 as [|[k1 c1] counts1 IH]; intros imp Hi counts2; trivial.
  cbn [fold_left]. apply IH. now apply Inner.
Qed.

(** [gini] returns exactly when [uniqueCounts] does. *)
Lemma gini_returns (rows : list row) :
  if shadowed rows then gini rows = Throw TypeError
  else exists g, gini rows = OK g.
Proof.
  unfold gini. rewrite uniqueCounts_eq.
  destruct (shadowed rows); [reflexivity|]. cbn [bind]. eauto.
Qed.

Lemma gini_number (rows : list row) (g : float) :
  (Z.of_nat (length rows) < 2 ^ 63)%Z ->
  gini rows = OK g ->
  PrimFloat.is_nan g = false /\ (g <? 0) = false.
Proof.
  intros H E. now apply nonNegative_number, (gini_nonNegative rows).
Qed.

(** X21.  Where [gini] returns, over fewer than 2^63 rows (any JavaScript
    array), it returns a number that is not negative: never NaN, never below
    0.  It returns unless a row labelled [hasOwnProperty] is followed by
    another row; it then throws a TypeError. *)
Theorem gini_is_a_number (rows : list row) :
  (Z.of_nat (length rows) < 2 ^ 63)%Z ->
  match gini rows with
  | OK g =>
      shadowed rows = false
      /\ PrimFloat.is_nan g = false /\ (g <? 0) = false
  | Throw e => shadowed rows = true /\ e = TypeError
  end.
Proof.
  intros H. pose proof (gini_returns rows) as R.
  destruct (gini rows) as [g|e] eqn:E.
  - destruct (shadowed rows); [discriminate|]. split; trivial.
    pose proof (gini_nonNegative rows g H E) as NN.
    now apply nonNegative_number.
  - destruct (shadowed rows); [|now destruct R].
    injection R as <-. now split.
Qed.

(** A row labelled [hasOwnProperty] that is followed by another row in a part
    of the rows is followed by it in the rows. *)
Lemma shadowed_filter (f : row -> bool) (rows : list row) :
  shadowed rows = false -> shadowed (filter f rows) = false.
Proof.
  induction rows as [|row rows IH]; [reflexivity|].
  cbn [shadowed filter]. intros H. apply orb_false_iff in H. destruct H as [H1 H2].
  specialize (IH H2). destruct (f row); [|exact IH].
  cbn [shadowed]. rewrite IH, orb_false_r.
  destruct (String.eqb (toString (target row)) "hasOwnProperty"); [|reflexivity].
  cbn [andb] in *. apply negb_false_iff, Nat.eqb_eq in H1.
  apply length_zero_iff_nil in H1. subst rows. reflexivity.
Qed.

Lemma growFrom_gini_no_throw :
  forall fuel rows e,
    (Z.of_nat (length rows) < 2 ^ 63)%Z ->
    shadowed rows = false ->
    growFrom GINI fuel rows <> Some (Throw e).
Proof.
  induction fuel as [|fuel IH]; intros rows e Hn Hs.
  - destruct rows; discriminate.
  - destruct (list_eq_dec_nil rows) as [-> | NE]; [discriminate|].
    rewrite growFrom_step by trivial. unfold GINI at 1.
    pose proof (gini_returns rows) as R. rewrite Hs in R. destruct R as [g Eg].
    rewrite Eg. destruct (gini_number rows g Hn Eg) as [-> _].
    destruct (searchBest GINI rows g) as [best|e'] eqn:Eb.
    + destruct (gtb (bestGain best) 0) eqn:Egt.
      2:{ rewrite uniqueCounts_eq, Hs. discriminate. }
      destruct (searched_none _ _ _ _ Eb Egt) as (c & v & Ea). rewrite Ea.
      destruct (searched_sets _ _ _ _ _ _ Eb Ea) as [Esets _]. rewrite Esets.
      pose proof (divideSet_length rows c v) as L.
      assert (S1 : shadowed (fst (divideSet rows c v)) = false)
        by (unfold divideSet; cbn [fst]; now apply shadowed_filter).
      assert (S2 : shadowed (snd (divideSet rows c v)) = false)
        by (unfold divideSet; cbn [snd]; now apply shadowed_filter).
      destruct (divideSet rows c v) as [set1 set2]. cbn [fst snd] in L, S1, S2.
      pose proof (IH set1 e ltac:(lia) S1) as I1.
      pose proof (IH set2 e ltac:(lia) S2) as I2.
      destruct (growFrom GINI fuel set1) as [[tb|e1]|] eqn:G1; try discriminate.
      * destruct (growFrom GINI fuel set2) as [[fb|e2]|] eqn:G2; try discriminate.
        intros [= ->]. now apply I2.
      * intros [= ->]. now apply I1.
    + exfalso. apply searchBest_Throw_gain in Eb.
      destruct Eb as (c & v & _ & Hg). unfold gainOf in Hg.
      assert (S1 : shadowed (fst (divideSet rows c v)) = false)
        by (unfold divideSet; cbn [fst]; now apply shadowed_filter).
      assert (S2 : shadowed (snd (divideSet rows c v)) = false)
        by (unfold divideSet; cbn [snd]; now apply shadowed_filter).
      destruct (divideSet rows c v) as [set1 set2]. cbn [fst snd] in S1, S2.
      pose proof (gini_returns set1) as R1. rewrite S1 in R1. destruct R1 as [g1 E1].
      pose proof (gini_returns set2) as R2. rewrite S2 in R2. destruct R2 as [g2 E2].
      unfold GINI in Hg. rewrite E1, E2 in Hg. discriminate.
Qed.

(** X22.  With the Gini metric the builder returns a tree for every dataset
    of fewer than 2^63 rows, unless a row labelled [hasOwnProperty] is
    followed by another row: it then throws a TypeError, from the first
    score.  The guard against a NaN score never fires, at the root or
    below. *)
Theorem grow_with_gini_returns_a_tree (rows : list row) :
  (Z.of_nat (length rows) < 2 ^ 63)%Z ->
  if shadowed rows
  then growDecisionTreeFrom GINI rows = Some (Throw TypeError)
  else exists t, growDecisionTreeFrom GINI rows = Some (OK t).
Proof.
  intros Hn. destruct (shadowed rows) eqn:Hs.
  - unfold growDecisionTreeFrom.
    destruct rows as [|row rows'] eqn:R; [discriminate|]. rewrite <- R in *.
    replace (length rows) with (S (length rows')) by (rewrite R; reflexivity).
    rewrite growFrom_step by (rewrite R; discriminate).
    pose proof (gini_returns rows) as G. rewrite Hs in G.
    unfold GINI at 1. now rewrite G.
  - pose proof (growDecisionTreeFrom_total GINI rows) as T.
    unfold growDecisionTreeFrom in *.
    pose proof (growFrom_gini_no_throw (length rows) rows) as NT.
    destruct (growFrom GINI (length rows) rows) as [[t|e]|]; eauto.
    + exfalso. now apply (NT e).
    + now contradiction T.
Qed.

(** ** entropy *)

(** A double that is neither zero, infinite nor NaN, divided by itself. *)
Lemma div_self (x : float) (s : bool) (m : positive) (e : Z) :
  Prim2SF x = S754_finite s m e -> x / x = 1.
Proof.
  intros E.
  assert (H : Prim2SF (x / x) = Prim2SF 1).
  { rewrite div_spec, E. unfold SF64div, SFdiv, SFdiv_core_binary. cbn [Zdigits2].
    replace (Z.pos (digits2_pos m) + e - (Z.pos (digits2_pos m) + e))%Z with 0%Z by lia.
    replace (e - e)%Z with 0%Z by lia.
    change (Z.min (fexp prec emax 0) 0) with (-53)%Z.
    change (0 - -53)%Z with 53%Z. cbv iota.
    rewrite Z.shiftl_mul_pow2 by lia.
    pose proof (Z_div_mod (Z.pos m * 2 ^ 53) (Z.pos m) ltac:(lia)) as Hd.
    destruct (Z.div_eucl (Z.pos m * 2 ^ 53) (Z.pos m)) as [q r].
    destruct Hd as [Hq Hr].
    assert (Q : q = (2 ^ 53)%Z) by nia. assert (R : r = 0%Z) by nia. subst q r.
    assert (L : new_location (Z.pos m) 0 = loc_Exact).
    { unfold new_location, new_location_even, new_location_odd.
      now destruct (Z.even (Z.pos m)). }
    rewrite L. destruct s; reflexivity. }
  apply (f_equal SF2Prim) in H. now rewrite !SF2Prim_Prim2SF in H.
Qed.

Lemma ofCount_of_nat (n : nat) : ofCount (N.of_nat n) = ofNat n.
Proof.
  unfold ofCount, ofNat. now rewrite nat_N_Z.
Qed.

Lemma entropy_pure (log2 : float -> float) (label : string) (rows : list row) :
  log2 1 = 0 ->
  (Z.of_nat (length rows) < 2 ^ 63)%Z ->
  pure label rows ->
  entropy log2 rows
  = if String.eqb label "hasOwnProperty" && (2 <=? length rows)%nat
    then Throw TypeError
    else OK 0.
Proof.
  intros L1 Hn P. destruct (list_eq_dec_nil rows) as [-> | NE].
  - now rewrite andb_false_r.
  - unfold entropy. rewrite (uniqueCounts_pure label) by trivial.
    destruct (String.eqb label "hasOwnProperty" && (2 <=? length rows)%nat);
      [reflexivity|].
    destruct (String.eqb label "__proto__"); [reflexivity|].
    cbn [bind fold_left]. rewrite ofCount_of_nat.
    destruct (of_uint63_finite (Uint63.of_Z (Z.of_nat (length rows))))
      as (m & e & E & _).
    { rewrite to_Z_of_Z_small; destruct rows; simpl length in *;
        try contradiction; lia. }
    fold (ofNat (length rows)) in E. rewrite (div_self _ _ _ _ E), L1. reflexivity.
Qed.

(** X23.  When [Math.log2(1)] is 0, the entropy of rows that all carry one
    label is exactly 0 (their one proportion is [n / n = 1]), and so is the
    entropy of no rows at all; except that [entropy] throws a TypeError when
    the one label is [hasOwnProperty] and there are two rows or more. *)
Theorem entropy_pure_is_zero (log2 : float -> float) (label : string)
    (rows : list row) :
  log2 1 = 0 ->
  (Z.of_nat (length rows) < 2 ^ 63)%Z ->
  pure label rows ->
  entropy log2 rows
  = if String.eqb label "hasOwnProperty" && (2 <=? length rows)%nat
    then Throw TypeError
    else OK 0.
Proof.
  intros L1 Hn P. now apply (entropy_pure log2 label).
Qed.

(** X24.  With the entropy metric, the builder's default, and [Math.log2(1)]
    being 0, a dataset whose rows all carry one label, which is not
    [hasOwnProperty], grows a single leaf with impurity 0: the leaf
    [{label: rows.length}], or [{}] when the label is [__proto__]. *)
Theorem pure_rows_grow_an_entropy_leaf (log2 : float -> float) (label : string)
    (rows : list row) :
  log2 1 = 0 ->
  rows <> [] ->
  (Z.of_nat (length rows) < 2 ^ 63)%Z ->
  pure label rows ->
  label <> "hasOwnProperty"%string ->
  growDecisionTreeFrom (ENTROPY log2) rows
  = Some (OK (newDecisionTree None None None None
                (Some (if String.eqb label "__proto__" then []
                       else [(label, N.of_nat (length rows))]))
                (Some (dcY 0 rows)))).
Proof.
  intros L1 NE Hn P Hl. apply String.eqb_neq in Hl.
  rewrite (zero_metric_grows_a_leaf (ENTROPY log2) label) by
    (trivial; intros set Ps Ls; unfold ENTROPY;
     rewrite (entropy_pure log2 label) by (trivial; lia);
     now rewrite Hl).
  rewrite (uniqueCounts_pure label) by trivial. now rewrite Hl.
Qed.

End Host.

(** * Closed examples: witnesses and counterexamples *)

Local Abbreviation hostN := exampleNumberToString.
Local Abbreviation hostS := exampleStringToNumber.
Local Abbreviation hostE := exampleEngine.

(** C1, counterexample.  On [stringRows] the column holds "b" then "a".  The
    comparator's difference of two such strings is NaN, so the sort leaves
    them in that order; both candidates split the rows one against one with
    gain 0.5, and the builder keeps "b", the first visited, although "a" comes
    first in ascending order. *)
Lemma first_best_not_ascending :
  growDecisionTreeFrom hostN hostS hostE (GINI hostN) stringRows = Some (OK stringTree)
  /\ lsUnique hostS hostE stringRows 0 = [Str "b"; Str "a"]
  /\ gainOf hostS (GINI hostN) stringRows 0.5 0 (Str "a") = OK 0.5
  /\ gainOf hostS (GINI hostN) stringRows 0.5 0 (Str "b") = OK 0.5
  /\ bothNonEmpty hostS stringRows 0 (Str "a") = true
  /\ String.ltb "a" "b" = true.
Proof.
  repeat split; vm_compute; reflexivity.
Qed.

(** C1, witness: the example tree. *)
Lemma grown_splits_witness :
  everySplit hostS (firstBest hostS hostE (GINI hostN)) exampleRows exampleTree
  /\ ascending (lsUnique hostS hostE exampleRows 0).
Proof.
  assert (N : numericColumn exampleRows 0).
  { intros row [<- | [<- | [<- | [<- | []]]]]; reflexivity. }
  destruct (grown_splits_are_first_best hostN hostS hostE (GINI hostN)
              exampleRows exampleTree) as (A & _ & B & _).
  - vm_compute. reflexivity.
  - split; [exact A | exact (B exampleRows 0%nat N)].
Defined.




(** C6, counterexample.  The node returned for an empty dataset has neither
    results nor children.  And a [prune] call can leave such a node behind:
    [shadowTree], grown from [shadowRows], holds the label [hasOwnProperty]
    on its true side; a metric that scores every row set 0 lets the collapse
    start, and [uniqueCounts] then throws on the second pseudo-row, when the
    children are gone and no results are written yet.  With [gini] the same
    call throws before it writes, and leaves the tree as it was. *)
Lemma nodes_in_neither_state :
  growDecisionTreeFrom hostN hostS hostE (GINI hostN) [] = Some (OK emptyDecisionTree)
  /\ ~ twoState emptyDecisionTree
  /\ growDecisionTreeFrom hostN hostS hostE (GINI hostN) shadowRows
     = Some (OK shadowTree)
  /\ prune hostN shadowTree 1 (fun _ => OK 0) true
     = mkPruned
         {| col := 0; value := Num 2; trueBranch := None; falseBranch := None;
            results := None; summary := summary shadowTree |}
         [0] (Some TypeError)
  /\ ~ twoState (after (prune hostN shadowTree 1 (fun _ => OK 0) true))
  /\ prune hostN shadowTree 1 (GINI hostN) true
     = mkPruned shadowTree [] (Some TypeError).
Proof.
  split; [reflexivity|]. split.
  { intros [H _]. simpl in H. destruct H as [_ H]. now apply H. }
  split; [vm_compute; reflexivity|]. split; [vm_compute; reflexivity|].
  split; [|vm_compute; reflexivity].
  intros [_ [_ H]]. destruct (H eq_refl) as [X _]. now apply X.
Qed.

(** C6, witness: the example tree, before and after two pruning calls, one
    with the variance metric, which throws, and one with Gini, which
    collapses the tree. *)
Lemma two_state_witness :
  everyNode (fun node => twoState node /\ exactlyOneState node) exampleTree
  /\ everyNode (fun node => twoState node /\ exactlyOneState node)
       (after (prune hostN
                 (after (prune hostN exampleTree 1 (VARIANCE hostN hostS) true))
                 1 (GINI hostN) true)).
Proof.
  apply (grown_nodes_two_state hostN hostS hostE (GINI hostN) exampleRows).
  - discriminate.
  - vm_compute. reflexivity.
  - eapply afterOnePrune; [eapply afterOnePrune; [apply afterNoPrune|]|];
      apply pruneRoot.
    + apply variance_countsFirst.
      * intros x. unfold exampleNumberToString.
        destruct (x =? 1e200); [discriminate|].
        destruct (x =? -1e200); discriminate.
      * reflexivity.
    + apply gini_countsFirst.
Defined.

(** C8, counterexample: the variance of [hugeRows] is infinite, which is not
    NaN, and the builder returns a tree. *)
Lemma infinite_score_builds :
  VARIANCE hostN hostS hugeRows = OK infinity
  /\ PrimFloat.is_finite infinity = false
  /\ growDecisionTreeFrom hostN hostS hostE (VARIANCE hostN hostS) hugeRows
     = Some (OK hugeTree).
Proof.
  repeat split; vm_compute; reflexivity.
Qed.

(** C8, witness: Gini on the example rows. *)
Lemma invalid_metric_witness :
  growDecisionTreeFrom hostN hostS hostE (GINI hostN) exampleRows
  = Some (Throw InvalidMetric)
  <-> exists score,
      GINI hostN exampleRows = OK score /\ PrimFloat.is_nan score = true.
Proof.
  refine (proj2 (invalid_metric_iff_nan hostN hostS hostE (GINI hostN) exampleRows _) _).
  - discriminate.
  - intros r E. unfold GINI, gini in E.
    destruct (uniqueCounts hostN r) as [counts|e] eqn:Ec; [discriminate|].
    apply uniqueCounts_Throw in Ec. destruct Ec as [-> _]. discriminate.
Defined.

(** C9, counterexample: the summary of that node holds no sample count. *)
Lemma empty_summary_has_no_samples :
  growDecisionTreeFrom hostN hostS hostE (GINI hostN) [] = Some (OK emptyDecisionTree)
  /\ samples (summary emptyDecisionTree) <> Some 0%nat.
Proof.
  split; [reflexivity | discriminate].
Qed.

(** C10, witness: pruning the tree of an empty dataset, and pruning a leaf. *)
Lemma prune_needs_children_witness :
  prune hostN emptyDecisionTree 1 (GINI hostN) false
  = mkPruned emptyDecisionTree [] (Some TypeError)
  /\ prune hostN (leafNode [("A"%string, 2%N)] 0 2) 1 (GINI hostN) false
     = mkPruned (leafNode [("A"%string, 2%N)] 0 2) [] (Some TypeError).
Proof.
  destruct (prune_needs_children hostN hostS hostE) as (A & _ & C).
  split.
  - apply (C (GINI hostN) [] emptyDecisionTree); [reflexivity | now left].
  - apply A. reflexivity.
Defined.

(** * Closed examples for the further properties *)

Lemma exampleTree_twoState : everyNode twoState exampleTree.
Proof.
  unfold twoState. simpl. intuition congruence.
Qed.

Lemma exampleRows_sameKinds : sameKinds exampleRows.
Proof.
  intros row row' col Hr Hr' Hc.
  assert (C : col = 0%nat).
  { simpl in Hr'. destruct Hr' as [<- | [<- | [<- | [<- | []]]]]; simpl in Hc; lia. }
  subst col. simpl in Hr, Hr'.
  destruct Hr as [<- | [<- | [<- | [<- | []]]]];
    destruct Hr' as [<- | [<- | [<- | [<- | []]]]]; reflexivity.
Qed.

Lemma exampleRows_noUndefined : noUndefined exampleRows.
Proof.
  intros row row' col Hr Hr' Hc.
  assert (C : col = 0%nat).
  { simpl in Hr'. destruct Hr' as [<- | [<- | [<- | [<- | []]]]]; simpl in Hc; lia. }
  subst col. simpl in Hr.
  destruct Hr as [<- | [<- | [<- | [<- | []]]]]; discriminate.
Qed.

Lemma exampleRows_labels (row : row) :
  In row exampleRows ->
  toString hostN (target row) <> EmptyString
  /\ toString hostN (target row) <> "__proto__"%string.
Proof.
  intros [<- | [<- | [<- | [<- | []]]]]; split; discriminate.
Qed.

Lemma leaf_plain (k : string) (c : N) (score : float) (n : nat) :
  plainKey k -> everyNode plainResults (leafNode [(k, c)] score n).
Proof.
  intros Hk. split; [|simpl; tauto]. intros r [= <-]. split.
  - repeat constructor. simpl. tauto.
  - intros k' [<- | []]. exact Hk.
Qed.

Lemma exampleTree_plain : everyNode plainResults exampleTree.
Proof.
  split; [intros r; discriminate|]. split; apply leaf_plain; split; discriminate.
Qed.

Lemma exampleTree_unshadowed : everyNode unshadowedResults exampleTree.
Proof.
  repeat split; try (intros r; discriminate);
    intros r [= <-]; simpl; intuition discriminate.
Qed.

(** X2, witness: the example rows split on NaN. *)
Lemma divideSet_on_nan_witness :
  divideSet hostS exampleRows 0 (Num nan) = ([], exampleRows).
Proof.
  apply (divideSet_on_nan hostS exampleRows 0 nan). reflexivity.
Defined.

(** X6, witness: two rows labelled A. *)
Lemma gini_pure_witness : gini hostN pureRows = OK 0.
Proof.
  apply (gini_pure_is_zero hostN "A" pureRows).
  intros row [<- | [<- | []]]; reflexivity.
Defined.

(** X7, witness: two rows with the same feature and two labels stay in one
    leaf, impure as it is. *)
Lemma identical_features_witness :
  growDecisionTreeFrom hostN hostS hostE (GINI hostN) twinRows
  = Some (OK (leafOver 0.5 twinRows [("A"%string, 1%N); ("B"%string, 1%N)])).
Proof.
  apply (identical_features_grow_a_leaf hostN hostS hostE (GINI hostN) twinRows 0.5 0).
  - discriminate.
  - intros row row' col Hr Hr' Hc. simpl in Hc.
    assert (C : col = 0%nat) by lia. subst col.
    destruct Hr as [<- | [<- | []]]; destruct Hr' as [<- | [<- | []]]; reflexivity.
  - vm_compute. reflexivity.
  - reflexivity.
  - reflexivity.
Defined.

(** X8, witness: two rows labelled A grow the leaf [{A: 2}]. *)
Lemma pure_rows_witness :
  growDecisionTreeFrom hostN hostS hostE (GINI hostN) pureRows
  = Some (OK (newDecisionTree None None None None
                (Some [("A"%string, 2%N)]) (Some (dcY 0 pureRows)))).
Proof.
  apply (pure_rows_grow_a_gini_leaf hostN hostS hostE "A" pureRows).
  - discriminate.
  - intros row [<- | [<- | []]]; reflexivity.
  - discriminate.
Defined.

(** X9, witness: the example tree has three nodes for four rows. *)
Lemma size_bound_witness :
  (size exampleTree + 1 <= 2 * length exampleRows)%nat
  /\ everyNode (fun node => forall r, results node = Some r -> (1 <= totalCount r)%N)
       exampleTree.
Proof.
  destruct (grown_tree_size_bound hostN hostS hostE (GINI hostN) exampleRows exampleTree)
    as [A B].
  - discriminate.
  - vm_compute. reflexivity.
  - split; [exact A|]. apply B. intros row Hrow. now apply exampleRows_labels.
Defined.

(** X10, witness: an observation on the example tree. *)
Lemma classify_returns_witness :
  (exists r, classify hostN hostS [Num 2; Str "x"] exampleTree false = OK (distribution r)
             /\ In r (resultsIn exampleTree))
  /\ exists d, classify hostN hostS [Null; Str "x"] exampleTree true = OK d.
Proof.
  split.
  - apply (classify_returns_on_two_state_trees hostN hostS [Num 2; Str "x"] exampleTree).
    exact exampleTree_twoState.
  - apply (classify_returns_on_two_state_trees hostN hostS [Null; Str "x"] exampleTree).
    + exact exampleTree_twoState.
    + exact exampleTree_plain.
Defined.

(** X11, witness: the same observation holds no [null]. *)
Lemma classify_modes_witness :
  classify hostN hostS [Num 2; Str "x"] exampleTree true
  = classify hostN hostS [Num 2; Str "x"] exampleTree false.
Proof.
  apply (classify_modes_agree_without_null hostN hostS [Num 2; Str "x"] exampleTree).
  simpl. intuition discriminate.
Defined.

(** X12, witness: the third row of the example reaches a leaf that counts B. *)
Lemma training_row_witness :
  exists result c,
    classify hostN hostS [Num 3; Str "B"] exampleTree false = OK result
    /\ get "B" result = Some (ofCount c)
    /\ (1 <= c)%N.
Proof.
  apply (training_row_reaches_its_label hostN hostS hostE (GINI hostN) exampleRows
           exampleTree [Num 3; Str "B"]).
  - exact exampleRows_sameKinds.
  - exact exampleRows_noUndefined.
  - vm_compute. reflexivity.
  - simpl. tauto.
  - discriminate.
Defined.

(** X13, witness: the example tree plots. *)
Lemma plot_returns_witness :
  exists s, plot hostN hostS exampleTree [] EmptyString = OK s.
Proof.
  apply (plot_returns_on_two_state_trees hostN hostS exampleTree [] EmptyString).
  exact exampleTree_twoState.
Defined.

(** X15, witness: the example tree, collapsed by a pruning call. *)
Lemma pruning_keeps_witness :
  leafTotal (after (prune hostN exampleTree 1 (GINI hostN) true))
  = N.of_nat (length exampleRows)
  /\ (forall label,
        labelTotal label (after (prune hostN exampleTree 1 (GINI hostN) true))
        = N.of_nat (length (rowsLabelled hostN label exampleRows)))
  /\ everyNode samplesCounted (after (prune hostN exampleTree 1 (GINI hostN) true)).
Proof.
  destruct (pruning_keeps_the_counts hostN hostS hostE (GINI hostN) exampleRows
              exampleTree (after (prune hostN exampleTree 1 (GINI hostN) true)))
    as (_ & _ & H).
  - discriminate.
  - vm_compute. reflexivity.
  - eapply afterOnePrune; [apply afterNoPrune | apply pruneRoot].
    apply gini_countsFirst.
  - apply H. intros row Hrow. now apply exampleRows_labels.
Defined.

(** X16, witness: with Gini, [prune] returns on the example tree. *)
Lemma prune_returns_witness :
  thrown (prune hostN exampleTree 1 (GINI hostN) true) = None
  <-> results exampleTree = None.
Proof.
  apply (prune_returns_iff_root_is_internal hostN exampleTree 1 (GINI hostN) true).
  - exact exampleTree_twoState.
  - exact exampleTree_unshadowed.
  - apply gini_scoresCounted.
Defined.

(** X17, witness: the example tree, pruned with the variance metric. *)
Lemma prune_with_variance_witness :
  prune hostN exampleTree 1 (VARIANCE hostN hostS) true
  = mkPruned exampleTree [] (Some InvalidTargetType).
Proof.
  apply (prune_with_variance_throws hostN hostS hostE (GINI hostN) exampleRows
           exampleTree 1 true).
  - discriminate.
  - exact exampleRows_labels.
  - vm_compute. reflexivity.
  - reflexivity.
Defined.

(** X21, witness: the impurity of the example rows, and of [shadowRows]
    turned round. *)
Lemma gini_number_witness :
  (exists g, gini hostN exampleRows = OK g
             /\ PrimFloat.is_nan g = false /\ (g <? 0) = false)
  /\ gini hostN (rev shadowRows) = Throw TypeError.
Proof.
  split.
  - pose proof (gini_is_a_number hostN exampleRows eq_refl) as H.
    destruct (gini hostN exampleRows) as [g|e]; [|now destruct H].
    exists g. split; [reflexivity | apply H].
  - pose proof (gini_is_a_number hostN (rev shadowRows) eq_refl) as H.
    destruct (gini hostN (rev shadowRows)) as [g|e].
    + destruct H as [H _]. discriminate.
    + destruct H as [_ ->]. reflexivity.
Defined.

(** X22, witness: the example rows grow a tree; [shadowRows] turned round
    grow none. *)
Lemma grow_with_gini_witness :
  (exists t, growDecisionTreeFrom hostN hostS hostE (GINI hostN) exampleRows = Some (OK t))
  /\ growDecisionTreeFrom hostN hostS hostE (GINI hostN) (rev shadowRows)
     = Some (Throw TypeError).
Proof.
  split.
  - exact (grow_with_gini_returns_a_tree hostN hostS hostE exampleRows eq_refl).
  - exact (grow_with_gini_returns_a_tree hostN hostS hostE (rev shadowRows) eq_refl).
Defined.

(** X23, witness: the entropy of two rows labelled A. *)
Lemma entropy_pure_witness : entropy hostN exampleLog2 pureRows = OK 0.
Proof.
  apply (entropy_pure_is_zero hostN exampleLog2 "A" pureRows).
  - reflexivity.
  - reflexivity.
  - intros row [<- | [<- | []]]; reflexivity.
Defined.

(** X24, witness: two rows labelled A grow the leaf [{A: 2}] with entropy. *)
Lemma pure_rows_entropy_witness :
  growDecisionTreeFrom hostN hostS hostE (ENTROPY hostN exampleLog2) pureRows
  = Some (OK (newDecisionTree None None None None
                (Some [("A"%string, 2%N)]) (Some (dcY 0 pureRows)))).
Proof.
  apply (pure_rows_grow_an_entropy_leaf hostN hostS hostE exampleLog2 "A" pureRows).
  - reflexivity.
  - discriminate.
  - reflexivity.
  - intros row [<- | [<- | []]]; reflexivity.
  - discriminate.
Defined.

(** X25, witness: [shadowTree], grown from [shadowRows], and an observation
    without a value. *)
Lemma merge_throws_witness :
  growDecisionTreeFrom hostN hostS hostE (GINI hostN) shadowRows
  = Some (OK shadowTree)
  /\ classify hostN hostS [Null] shadowTree true = Throw TypeError.
Proof.
  split; [vm_compute; reflexivity|].
  apply (missing_data_merge_throws_on_hasOwnProperty hostN hostS [Null] shadowTree
           (leafNode [("hasOwnProperty"%string, 1%N)] 0 1)
           (leafNode [("A"%string, 1%N)] 0 1)
           [("hasOwnProperty"%string, 1)] [("A"%string, 1)]);
    try reflexivity.
  - now left.
  - discriminate.
Defined.

(** X26, witness: [holeRows] split on the [undefined] of their first row; the
    root stores [null], and exact routing then sends that row to the other
    side, where the leaf counts B only. *)
Lemma grown_values_witness :
  everyNode (fun node => value node <> Undefined) holeTree
  /\ growDecisionTreeFrom hostN hostS hostE (GINI hostN) holeRows = Some (OK holeTree)
  /\ lsUnique hostS hostE holeRows 0 = [Str "x"; Str "y"; Undefined]
  /\ divideSet hostS holeRows 0 Undefined
     = ([[Undefined; Str "A"]], [[Str "x"; Str "B"]; [Str "y"; Str "B"]])
  /\ classify hostN hostS [Undefined; Str "A"] holeTree false = OK [("B"%string, 2)].
Proof.
  split.
  - apply (grown_values_are_defined hostN hostS hostE (GINI hostN) holeRows).
    vm_compute. reflexivity.
  - repeat split; vm_compute; reflexivity.
Defined.
